(** * MK-Processor: extraction-and-retry engine and row processor

    A shallow embedding of the parts of [main.py] (class [SheetRow]) and of
    [disabled_plugins/x-multi_prefix_plugin.py] (class [Plugin]) that the
    specification talks about, and of the code around them (file selection
    and loading, the sequential queue of [MainWindow], the prefix dialog),
    followed by the properties checked on them.

    Conventions of the embedding
    - a Python [str] is a [list ascii] (type [str] below); string literals
      are written as Rocq strings and coerced.  Only the ASCII range is
      modelled: [lower], [upper], [isalnum], [strip] and the regex classes
      [\d] and [\s] act on ASCII only, and the statements about the weight
      normalizer, the model number and the file names say so in a
      hypothesis;
    - a Python [int] is a [Z]; a Python [float] is a binary64 number, given
      by its exact value as a rational or infinite: [float(text)] rounds the
      decimal number that the text denotes to the nearest binary64 number,
      ties to even, and gives infinity when the rounded number reaches
      [2^1024]; [math.ceil] raises on infinity;
    - a Python [dict] is an insertion-ordered association list with unique
      keys, since [process_file] iterates over [specs_dict.items()];
    - the browser is a record of the outcomes of the Selenium calls that
      [scrape_katom] and [extract_table_data] make on the driver, each call
      either returning a value or raising;
    - signals emitted by the worker thread are collected in a list, oldest
      first, and delivered to the slots of the row in that order.

    Layout: the embedding of the source, module by module; the vocabulary of
    the statements and the sample inputs; the lemmas and theorems. *)

From Stdlib Require Import List String Ascii Bool Arith ZArith NArith Lia.
From Stdlib Require Import QArith Qround.
From Stdlib Require Import DecimalString DecimalN DecimalZ.
Import ListNotations.

Close Scope Q_scope.


(* ===================================================================== *)
(** * Python strings *)
(* ===================================================================== *)

Module Py.

Definition str := list ascii.

Definition lit (s : string) : str := list_ascii_of_string s.

Definition code (c : ascii) : nat := nat_of_ascii c.

Definition between (lo hi : nat) (c : ascii) : bool :=
  (lo <=? code c) && (code c <=? hi).

(** [\d] and [str.isdigit] on ASCII. *)
Definition is_digit (c : ascii) : bool := between 48 57 c.

Definition is_upper (c : ascii) : bool := between 65 90 c.
Definition is_lower (c : ascii) : bool := between 97 122 c.
Definition is_alpha (c : ascii) : bool := is_upper c || is_lower c.
Definition isalnum (c : ascii) : bool := is_alpha c || is_digit c.

(** [\s] and the characters removed by [str.strip()]: tab, line feed,
    vertical tab, form feed, carriage return, the separators 28..31 and the
    space. *)
Definition is_space (c : ascii) : bool :=
  between 9 13 c || between 28 32 c.

Definition lower_char (c : ascii) : ascii :=
  if is_upper c then ascii_of_nat (code c + 32) else c.

Definition upper_char (c : ascii) : ascii :=
  if is_lower c then ascii_of_nat (code c - 32) else c.

Definition lower (s : str) : str := map lower_char s.
Definition upper (s : str) : str := map upper_char s.

(** [str.title()]: a cased character is upper-cased when it follows an
    uncased one (or starts the string) and lower-cased otherwise. *)
Fixpoint title_from (prev_cased : bool) (s : str) : str :=
  match s with
  | [] => []
  | c :: t =>
      (if prev_cased then lower_char c else upper_char c)
        :: title_from (is_alpha c) t
  end.

Definition title (s : str) : str := title_from false s.

(** [str.lstrip()], [str.rstrip()] and [str.strip()]. *)
Fixpoint lstrip (s : str) : str :=
  match s with
  | c :: t => if is_space c then lstrip t else s
  | [] => []
  end.

Definition rstrip (s : str) : str := rev (lstrip (rev s)).

Definition strip (s : str) : str := rstrip (lstrip s).

Definition eqb (a b : str) : bool :=
  if list_eq_dec ascii_dec a b then true else false.

(** [s.startswith(p)]. *)
Fixpoint startswith (p s : str) : bool :=
  match p, s with
  | [], _ => true
  | a :: p', b :: s' => Ascii.eqb a b && startswith p' s'
  | _ :: _, [] => false
  end.

(** [sub in s] on strings: [sub] occurs in [s] as a contiguous run. *)
Fixpoint contains (sub s : str) : bool :=
  startswith sub s ||
  match s with
  | [] => false
  | _ :: t => contains sub t
  end.

(** [s.endswith(p)]. *)
Definition endswith (p s : str) : bool := startswith (rev p) (rev s).

(** The longest prefix whose characters satisfy [p], and what follows it:
    what a greedy [[class]*] consumes. *)
Fixpoint span (p : ascii -> bool) (s : str) : str * str :=
  match s with
  | c :: t =>
      if p c then let (a, b) := span p t in (c :: a, b) else ([], s)
  | [] => ([], [])
  end.

(** [str(n)] for a Python [int]. *)
Definition str_of_Z (z : Z) : str :=
  list_ascii_of_string (NilZero.string_of_int (Z.to_int z)).

(** The value of a run of decimal digits ([None] on anything else). *)
Definition digits_value (s : str) : option N :=
  option_map N.of_uint (NilEmpty.uint_of_string (string_of_list_ascii s)).

(** [s.split(sep)] for a one-character separator: always at least one
    piece. *)
Fixpoint split_on (sep : ascii) (s : str) : list str :=
  match s with
  | [] => [[]]
  | c :: t =>
      if Ascii.eqb c sep then [] :: split_on sep t
      else match split_on sep t with
           | p :: ps => (c :: p) :: ps
           | [] => [[c]]
           end
  end.

End Py.

Import Py.
Coercion Py.lit : string >-> Py.str.
Arguments Py.lit : simpl never.
Local Open Scope string_scope.
Local Open Scope list_scope.

(* ===================================================================== *)
(** * Value normalizer: [SheetRow.process_weight_value] *)
(* ===================================================================== *)

Module Weight.

(** [re.match(r'(\d+(\.\d+)?)', s)]: the text of group 1 when the pattern
    matches at the head of [s].  [\d+] is greedy; the optional group is
    taken when a dot and at least one digit follow. *)
Definition match_number (s : str) : option str :=
  let (ip, r) := span is_digit s in
  match ip with
  | [] => None
  | _ =>
      match r with
      | dot :: r' =>
          if Ascii.eqb dot "."%char then
            let (fp, _) := span is_digit r' in
            match fp with
            | [] => Some ip
            | _ => Some (ip ++ dot :: fp)
            end
          else Some ip
      | [] => Some ip
      end
  end.

(** [re.search(r'(\d+(\.\d+)?)', s)]: the leftmost position where the
    pattern matches. *)
Fixpoint search_number (s : str) : option str :=
  match match_number s with
  | Some m => Some m
  | None =>
      match s with
      | [] => None
      | _ :: t => search_number t
      end
  end.

(** A Python [float] that is not negative and not a NaN: a finite binary64
    number, given by its exact value, or infinity. *)
Inductive float : Type :=
| Finite (q : Q)
| Infinity.

(** [2^e <= n/d], for positive [n] and [d]. *)
Definition ge_pow2 (n d e : Z) : bool :=
  if (0 <=? e)%Z then (d * 2 ^ e <=? n)%Z else (d <=? n * 2 ^ (- e))%Z.

(** The binary exponent of [n/d], for positive [n] and [d]: the [e] with
    [2^e <= n/d < 2^(e+1)]. *)
Definition binary_exponent (n d : Z) : Z :=
  let e := (Z.log2 n - Z.log2 d)%Z in
  if ge_pow2 n d e then e else (e - 1)%Z.

(** The integer nearest to [num/den], ties to the even one ([den > 0]). *)
Definition round_half_even (num den : Z) : Z :=
  let m := (num / den)%Z in
  let r := (num mod den)%Z in
  if (2 * r <? den)%Z then m
  else if (den <? 2 * r)%Z then (m + 1)%Z
  else if Z.even m then m else (m + 1)%Z.

(** The binary64 number nearest to [n/d] ([0 <= n], [0 < d]), ties to even:
    53 significant bits, the last of them of weight [2^p] with
    [p >= -1074]; what rounds to [2^1024] or more is infinity. *)
Definition to_double (n d : Z) : float :=
  if (n =? 0)%Z then Finite 0
  else
    let p := Z.max (binary_exponent n d - 52) (-1074) in
    if (0 <=? p)%Z then
      let m := round_half_even n (d * 2 ^ p) in
      if (2 ^ 1024 <=? m * 2 ^ p)%Z then Infinity
      else Finite (inject_Z (m * 2 ^ p))
    else
      let m := round_half_even (n * 2 ^ (- p)) d in
      Finite (Qmake m (Z.to_pos (2 ^ (- p)))).

(** [float(text)] for a text of the shape matched above: the decimal number
    that the text denotes, correctly rounded; [None] stands for
    [ValueError] on any other text. *)
Definition py_float (text : str) : option float :=
  let (ip, r) := span is_digit text in
  match digits_value ip, ip with
  | Some i, _ :: _ =>
      match r with
      | [] => Some (to_double (Z.of_N i) 1)
      | dot :: fp =>
          if Ascii.eqb dot "."%char then
            match digits_value fp, fp with
            | Some f, _ :: _ =>
                let scale := (10 ^ Z.of_nat (List.length fp))%Z in
                Some (to_double (Z.of_N i * scale + Z.of_N f) scale)
            | _, _ => None
            end
          else None
      end
  | _, _ => None
  end.

(** [math.ceil(number)]: [None] stands for the [OverflowError] raised on
    infinity. *)
Definition ceil (number : float) : option Z :=
  match number with
  | Finite q => Some (Qceiling q)
  | Infinity => None
  end.

Definition non_numeric (c : ascii) : bool :=
  negb (is_digit c) && negb (Ascii.eqb c "."%char).

(** [re.match(r'[^\d.]+$', s)]: the class is greedy and [$] needs the end of
    the string (a final line feed is itself in the class, so the variant of
    [$] that stops before it never gives another match). *)
Definition match_units (s : str) : option str :=
  match span non_numeric s with
  | (c :: u, []) => Some (c :: u)
  | _ => None
  end.

(** [re.search(r'[^\d.]+$', s)]. *)
Fixpoint search_units (s : str) : option str :=
  match match_units s with
  | Some m => Some m
  | None =>
      match s with
      | [] => None
      | _ :: t => search_units t
      end
  end.

(** [units_match.group(0).strip() if units_match else ""]. *)
Definition units_of (s : str) : str :=
  match search_units s with
  | Some u => strip u
  | None => []
  end.

(** [f"{final}{' ' + units if units else ''}"]. *)
Definition render (final : Z) (units : str) : str :=
  str_of_Z final ++ match units with [] => [] | _ => " "%char :: units end.

(** The body of the [try] block: [inr] is the value returned, [inl] an
    exception raised inside it. *)
Definition process_weight_value_try (value : str) : unit + str :=
  match search_number value with
  | Some text =>
      match py_float text with
      | Some number =>
          match ceil number with
          | Some rounded =>
              let final := (rounded + 5)%Z in
              inr (render final (units_of value))
          | None => inl tt
          end
      | None => inl tt
      end
  | None => inr value
  end.

(** [process_weight_value]: the bare [except:] returns the original value. *)
Definition process_weight_value (value : str) : str :=
  match process_weight_value_try value with
  | inr r => r
  | inl _ => value
  end.

End Weight.

Import Weight.

(* ===================================================================== *)
(** * Shared data: dictionaries, exceptions, results, signals *)
(* ===================================================================== *)

(** A Python [dict] from strings to strings, in insertion order. *)
Definition dict := list (str * str).

Module Dict.

(** [key in d]. *)
Definition mem (key : str) (d : dict) : bool :=
  existsb (fun kv => Py.eqb (fst kv) key) d.

(** [d.get(key)]. *)
Fixpoint get (key : str) (d : dict) : option str :=
  match d with
  | [] => None
  | (k, v) :: t => if Py.eqb k key then Some v else get key t
  end.

(** [d[key] = value]: an existing key keeps its place, a new one goes last. *)
Fixpoint set (key value : str) (d : dict) : dict :=
  match d with
  | [] => [(key, value)]
  | (k, v) :: t =>
      if Py.eqb k key then (k, value) :: t else (k, v) :: set key value t
  end.

(** [if not key in d: d[key] = value]. *)
Definition set_if_absent (key value : str) (d : dict) : dict :=
  if mem key d then d else set key value d.

End Dict.

(** The exceptions the code tells apart. *)
Inductive exn : Type :=
| TimeoutException
| NoSuchElementException
| OtherException.

(** The outcome of a call that may raise. *)
Inductive outcome (A : Type) : Type :=
| Ok (a : A)
| Raise (e : exn).

Arguments Ok {A} a.
Arguments Raise {A} e.

(** The tuple [(title, description, specs_data, specs_html, video_links)]
    that [scrape_katom] returns. *)
Record fetch_result : Type := {
  title : str;
  description : str;
  specs_data : dict;
  specs_html : str;
  video_links : str
}.

(** [title == "Title not found" or "not found" in title.lower()]. *)
Definition not_found (t : str) : bool :=
  Py.eqb t "Title not found" || contains "not found" (lower t).

(** [title != "Title not found" and "not found" not in title.lower()]. *)
Definition found (t : str) : bool :=
  negb (Py.eqb t "Title not found") && negb (contains "not found" (lower t)).

(** [WorkerSignals]: what the worker thread emits. *)
Inductive signal : Type :=
| UpdateProgress (current total : Z)
| UpdateStatus (text : str)
| Finished
| Error (message : str).

(* ===================================================================== *)
(** * The row widget: signal handlers of [SheetRow] *)
(* ===================================================================== *)

Module Row.

(** The fields of a [SheetRow] that the handlers write.  [progress] keeps
    the pair received by [on_update_progress]; [warnings] collects the
    texts shown with [QMessageBox.warning]. *)
Record ui : Type := {
  running : bool;
  completed : bool;
  start_enabled : bool;
  stop_enabled : bool;
  status_label : str;
  progress : Z * Z;
  warnings : list str
}.

(** The state [start_processing] leaves before the worker thread runs. *)
Definition started : ui :=
  {| running := true; completed := false;
     start_enabled := false; stop_enabled := true;
     status_label := "Starting..."; progress := (0%Z, 0%Z); warnings := [] |}.

Definition on_update_progress (u : ui) (current total : Z) : ui :=
  {| running := running u; completed := completed u;
     start_enabled := start_enabled u; stop_enabled := stop_enabled u;
     status_label := status_label u; progress := (current, total);
     warnings := warnings u |}.

Definition on_update_status (u : ui) (status_text : str) : ui :=
  {| running := running u; completed := completed u;
     start_enabled := start_enabled u; stop_enabled := stop_enabled u;
     status_label := status_text; progress := progress u;
     warnings := warnings u |}.

Definition on_processing_finished (u : ui) : ui :=
  {| running := false; completed := true;
     start_enabled := true; stop_enabled := false;
     status_label := "Completed"; progress := progress u;
     warnings := warnings u |}.

(** [error_message[:40]] is [firstn 40 error_message]. *)
Definition on_processing_error (u : ui) (error_message : str) : ui :=
  {| running := false; completed := false;
     start_enabled := true; stop_enabled := false;
     status_label := lit "Error: " ++ firstn 40 error_message ++ lit "...";
     progress := progress u;
     warnings := warnings u ++ [error_message] |}.

Definition stop_processing (u : ui) : ui :=
  if negb (running u) then u
  else
    {| running := false; completed := true;
       start_enabled := true; stop_enabled := false;
       status_label := "Stopped"; progress := progress u;
       warnings := warnings u |}.

(** Delivery of one signal to the slot connected to it in [__init__]. *)
Definition deliver (u : ui) (s : signal) : ui :=
  match s with
  | UpdateProgress current total => on_update_progress u current total
  | UpdateStatus text => on_update_status u text
  | Finished => on_processing_finished u
  | Error message => on_processing_error u message
  end.

(** Signals of one worker are delivered in the order of emission. *)
Definition deliver_all (u : ui) (l : list signal) : ui :=
  fold_left deliver l u.

End Row.

(* ===================================================================== *)
(** * Prefix retry: [Plugin.enhanced_scrape_katom] *)
(* ===================================================================== *)

Module MultiPrefix.

Section Retry.

(** The state of the outside world that a fetch reads and changes. *)
Variable W : Type.

(** [sheet_row.original_scrape_katom(model_number, prefix)], for the calls
    that return; a call that raises ends [enhanced_scrape_katom] with the
    same exception. *)
Variable original_scrape_katom : str -> str -> W -> fetch_result * W.

(** The world, the status notifications emitted so far and, as a ghost
    field, the fetches made so far with their results. *)
Record st : Type := {
  world : W;
  emitted : list signal;
  attempts : list (str * fetch_result)
}.

Definition emit (s : signal) (x : st) : st :=
  {| world := world x; emitted := emitted x ++ [s]; attempts := attempts x |}.

Definition call_original (model_number prefix : str) (x : st)
  : fetch_result * st :=
  let (r, w) := original_scrape_katom model_number prefix (world x) in
  (r, {| world := w; emitted := emitted x;
         attempts := attempts x ++ [(prefix, r)] |}).

(** The [for alt_prefix in self.prefixes] loop; [Some r] is the [return]
    inside it. *)
Fixpoint try_alternatives (model_number prefix : str) (prefixes : list str)
         (x : st) : option fetch_result * st :=
  match prefixes with
  | [] => (None, x)
  | alt_prefix :: rest =>
      if negb (Py.eqb alt_prefix prefix) then
        let x1 := emit (UpdateStatus (lit "Trying prefix: " ++ alt_prefix)) x in
        let (alt, x2) := call_original model_number alt_prefix x1 in
        if found (title alt) then
          (Some alt,
           emit (UpdateStatus (lit "Found match with prefix: " ++ alt_prefix)) x2)
        else try_alternatives model_number prefix rest x2
      else try_alternatives model_number prefix rest x
  end.

Definition enhanced_scrape_katom (prefixes : list str)
           (model_number prefix : str) (x : st) : fetch_result * st :=
  let (r, x1) := call_original model_number prefix x in
  if not_found (title r) then
    let x2 :=
      emit (UpdateStatus "Primary prefix failed, trying alternatives...") x1 in
    match try_alternatives model_number prefix prefixes x2 with
    | (Some alt, x3) => (alt, x3)
    | (None, x3) => (r, x3)
    end
  else (r, x1).

End Retry.

Arguments world {W} s.
Arguments emitted {W} s.
Arguments attempts {W} s.
Arguments emit {W} s x.
Arguments call_original {W} original_scrape_katom model_number prefix x.
Arguments try_alternatives {W} original_scrape_katom model_number prefix
  prefixes x.
Arguments enhanced_scrape_katom {W} original_scrape_katom prefixes
  model_number prefix x.

End MultiPrefix.

(* ===================================================================== *)
(** * Spec extractor: [SheetRow.extract_table_data] *)
(* ===================================================================== *)

Module Extract.

(** The answer to [element.find_elements(...)] on an element already
    found, followed by the [.text] of each element returned: the query may
    raise, and so may each [.text] (an element gone stale). *)
Definition texts := outcome (list (outcome str)).

(** A [<tr>] element: what [row.find_elements(By.TAG_NAME, "td")] answers. *)
Definition row := texts.

(** A [<table>] element: what [table.find_elements(By.TAG_NAME, "tr")]
    answers. *)
Definition table := outcome (list row).

(** What the driver answers to the five document-wide queries of
    [extract_table_data], and the elements found to the queries made on
    them.  A labelled row is given by the answers to its key selector and
    to its value selector; a definition list by the answers for its [<dt>]
    and for its [<dd>] elements. *)
Record document : Type := {
  spec_tables : outcome (list table);
  all_tables : outcome (list table);
  spec_rows : outcome (list (texts * texts));
  dl_elements : outcome (list (texts * texts));
  text_elements : outcome (list (outcome str))
}.

(** How a loop inside the [try] ends: it runs to its end, or a call in it
    raises; either way with what it has built so far. *)
Inductive run (A : Type) : Type :=
| Done (a : A)
| Aborted (a : A).

Arguments Done {A} a.
Arguments Aborted {A} a.

(** [for a in l: acc = step(acc, a)] up to the first step that raises. *)
Fixpoint for_each {A B : Type} (step : B -> A -> run B) (l : list A)
         (acc : B) : run B :=
  match l with
  | [] => Done acc
  | a :: rest =>
      match step acc a with
      | Done acc' => for_each step rest acc'
      | Aborted acc' => Aborted acc'
      end
  end.

(** Markup literals are written with ['] where the source has the double
    quote character. *)
Definition html (s : string) : str :=
  map (fun c => if Ascii.eqb c "'"%char then "034"%char else c) (lit s).

Definition table_open : str :=
  html "<table class='specs-table' cellspacing='0' cellpadding='4' border='1' style='margin-top:10px;border-collapse:collapse;width:auto;' align='left'><tbody>".

Definition table_close : str := "</tbody></table>".

Definition row_html (key value : str) : str :=
  html "<tr><td style='padding:3px 8px;'><b>" ++ key
    ++ html "</b></td><td style='padding:3px 8px;'>" ++ value
    ++ lit "</td></tr>".

Definition nonempty (s : str) : bool :=
  match s with [] => false | _ :: _ => true end.

Definition is_weight_key (key : str) : bool := contains "weight" (lower key).

(** [if "weight" in key.lower(): value = self.process_weight_value(value)]. *)
Definition weight_value (key value : str) : str :=
  if is_weight_key key then process_weight_value value else value.

(** The body of [if len(cells) >= 2:] once both texts are read, on
    [(specs_dict, specs_html)]. *)
Definition store_row (acc : dict * str) (c0 c1 : str) : dict * str :=
  let key := strip c0 in
  let value := weight_value key (strip c1) in
  let specs_dict :=
    if nonempty key && negb (Dict.mem (lower key) (fst acc))
    then Dict.set (lower key) value (fst acc)
    else fst acc in
  (specs_dict, snd acc ++ row_html key value).

(** One [<tr>] of the table scrape: the cells are queried, then the texts
    of the first two are read, the first one first. *)
Definition table_step (acc : dict * str) (r : row) : run (dict * str) :=
  match r with
  | Raise _ => Aborted acc
  | Ok (c0 :: c1 :: _) =>
      match c0, c1 with
      | Ok k, Ok v => Done (store_row acc k v)
      | _, _ => Aborted acc
      end
  | Ok _ => Done acc
  end.

(** [other_specs.append((key, value))] followed by the insertion into
    [specs_dict] when the lower-cased key is new; on
    [(other_specs, specs_dict)]. *)
Definition add_pair (key value : str) (acc : list (str * str) * dict)
  : list (str * str) * dict :=
  (fst acc ++ [(key, value)], Dict.set_if_absent (lower key) value (snd acc)).

(** What methods 1 and 2 do with a key text and a value text. *)
Definition store_pair (acc : list (str * str) * dict) (k v : str)
  : list (str * str) * dict :=
  let key := strip k in
  let value := weight_value key (strip v) in
  if nonempty key then add_pair key value acc else acc.

(** Method 1: one element carrying a spec-like class; both queries are
    made, then the texts of the first key and of the first value element
    are read. *)
Definition labeled_step (acc : list (str * str) * dict)
           (row : texts * texts) : run (list (str * str) * dict) :=
  match fst row with
  | Raise _ => Aborted acc
  | Ok key_elem =>
      match snd row with
      | Raise _ => Aborted acc
      | Ok val_elem =>
          match key_elem, val_elem with
          | k0 :: _, v0 :: _ =>
              match k0, v0 with
              | Ok k, Ok v => Done (store_pair acc k v)
              | _, _ => Aborted acc
              end
          | _, _ => Done acc
          end
      end
  end.

(** One turn of [for i in range(min(len(terms), len(definitions)))]. *)
Definition term_step (acc : list (str * str) * dict)
           (td : outcome str * outcome str) : run (list (str * str) * dict) :=
  match fst td, snd td with
  | Ok t, Ok d => Done (store_pair acc t d)
  | _, _ => Aborted acc
  end.

(** Method 2: one [<dl>], terms and definitions paired by position. *)
Definition dl_step (acc : list (str * str) * dict) (dl : texts * texts)
  : run (list (str * str) * dict) :=
  match fst dl with
  | Raise _ => Aborted acc
  | Ok terms =>
      match snd dl with
      | Raise _ => Aborted acc
      | Ok definitions => for_each term_step (combine terms definitions) acc
      end
  end.

Definition common_specs : list str :=
  [ lit "manufacturer"; lit "food type"; lit "frypot style"; lit "heat";
    lit "hertz"; lit "nema"; lit "number of"; lit "oil capacity";
    lit "phase"; lit "product"; lit "type"; lit "rating";
    lit "special features"; lit "voltage"; lit "warranty"; lit "weight";
    lit "dimensions" ].

Definition newline : ascii := "010"%char.

(** [(.+)] at the head of [s]: the dot takes any character but a line
    feed. *)
Definition match_dot_plus (s : str) : option str :=
  match span (fun c => negb (Ascii.eqb c newline)) s with
  | ([], _) => None
  | (v, _) => Some v
  end.

(** [\s*(.+)] at the head of [s]: [\s*] is greedy and gives characters back
    until [(.+)] matches; the result is group 2. *)
Fixpoint match_ws_value (s : str) : option str :=
  match s with
  | c :: t =>
      if is_space c then
        match match_ws_value t with
        | Some v => Some v
        | None => match_dot_plus s
        end
      else match_dot_plus s
  | [] => None
  end.

(** [re.match(r'([^X]+)X\s*(.+)', text)] for a separator [X] (a colon or a
    hyphen): groups 1 and 2.  The first group cannot give characters back,
    since what it holds is not the separator. *)
Definition match_key_value (sep : ascii) (text : str) : option (str * str) :=
  match span (fun c => negb (Ascii.eqb c sep)) text with
  | (k0 :: k, _ :: rest) =>
      option_map (fun v => (k0 :: k, v)) (match_ws_value rest)
  | _ => None
  end.

(** [for pattern in [...]] over one text; the [break] is taken when the key
    holds one of [common_specs]. *)
Fixpoint try_patterns (seps : list ascii) (text : str)
         (acc : list (str * str) * dict) : list (str * str) * dict :=
  match seps with
  | [] => acc
  | sep :: rest =>
      match match_key_value sep text with
      | Some (g1, g2) =>
          let key := strip g1 in
          let value := weight_value key (strip g2) in
          if existsb (fun spec => contains spec (lower key)) common_specs
          then add_pair key value acc
          else try_patterns rest text acc
      | None => try_patterns rest text acc
      end
  end.

(** Method 3, once the text of the element is read. *)
Definition scan_text (acc : list (str * str) * dict) (element_text : str)
  : list (str * str) * dict :=
  let text := strip element_text in
  if negb (nonempty text) || (100 <? List.length text)%nat then acc
  else try_patterns [":"%char; "-"%char] text acc.

(** Method 3: one [p], [div], [li] or [span]. *)
Definition text_step (acc : list (str * str) * dict) (element : outcome str)
  : run (list (str * str) * dict) :=
  match element with
  | Raise _ => Aborted acc
  | Ok element_text => Done (scan_text acc element_text)
  end.

(** The block under [if not specs_html]; a call that raises leaves
    [specs_html] empty and [specs_dict] as filled so far. *)
Definition fallback (d : document) (specs_dict : dict) : dict * str :=
  match spec_rows d with
  | Raise _ => (specs_dict, [])
  | Ok rows =>
      match for_each labeled_step rows ([], specs_dict) with
      | Aborted acc => (snd acc, [])
      | Done acc1 =>
          let r2 :=
            match fst acc1 with
            | [] =>
                match dl_elements d with
                | Ok dls => for_each dl_step dls acc1
                | Raise _ => Aborted acc1
                end
            | _ :: _ => Done acc1
            end in
          match r2 with
          | Aborted acc => (snd acc, [])
          | Done acc2 =>
              let r3 :=
                match fst acc2 with
                | [] =>
                    match text_elements d with
                    | Ok els => for_each text_step els acc2
                    | Raise _ => Aborted acc2
                    end
                | _ :: _ => Done acc2
                end in
              match r3 with
              | Aborted acc => (snd acc, [])
              | Done acc3 =>
                  (snd acc3,
                   match fst acc3 with
                   | [] => []
                   | other_specs =>
                       table_open
                         ++ List.concat
                              (map (fun kv => row_html (fst kv) (snd kv))
                                   other_specs)
                         ++ table_close
                   end)
              end
          end
      end
  end.

(** [extract_table_data(driver)]: returns [(specs_dict, specs_html)].  The
    opening markup is assigned before the loop over the rows and the
    closing markup after it, so a call that raises inside the loop returns
    the markup without its close. *)
Definition extract_table_data (d : document) : dict * str :=
  match spec_tables d with
  | Raise _ => ([], [])
  | Ok specs_tables =>
      let found_tables :=
        match specs_tables with
        | [] => all_tables d
        | _ :: _ => Ok specs_tables
        end in
      match found_tables with
      | Raise _ => ([], [])
      | Ok [] => fallback d []
      | Ok (table :: _) =>
          match table with
          | Raise _ => ([], [])
          | Ok rows =>
              match for_each table_step rows ([], table_open) with
              | Aborted acc => acc
              | Done (specs_dict, sh) =>
                  let specs_html := sh ++ table_close in
                  if nonempty specs_html then (specs_dict, specs_html)
                  else fallback d specs_dict
              end
          end
      end
  end.

End Extract.

(* ===================================================================== *)
(** * Product fetcher: [SheetRow.scrape_katom] *)
(* ===================================================================== *)

Module Scrape.

Import Extract.

(** What one Chrome session answers once it is pointed at a URL: the
    outcome of each driver call of [scrape_katom], in program order.
    [tab_content] holds the texts of the [<p>] elements under the
    [tab-content] element; [mp4_sources] the [src] attributes ([None] when
    the attribute is missing) of the [source] elements of the first query;
    [videos] those of the [source] elements inside each [<video>];
    [page_source_mp4] what [re.findall] returns on [driver.page_source]. *)
Record page : Type := {
  load : outcome unit;
  driver_title : outcome str;
  title_wait : outcome unit;
  title_element : outcome str;
  tab_content : outcome (list str);
  doc : document;
  mp4_sources : outcome (list (option str));
  videos : outcome (list (list (option str)));
  page_source_mp4 : outcome (list str)
}.

(** [webdriver.Chrome(options=options)] either raises or gives a driver,
    which then serves pages by URL. *)
Record browser : Type := {
  chrome : outcome unit;
  get : str -> page
}.

(** Browser sessions as a resource: [held] tells whether the session this
    fetch acquired is still alive; the counters are ghost fields. *)
Record session : Type := {
  held : bool;
  acquired : nat;
  quit_calls : nat
}.

Definition no_session : session :=
  {| held := false; acquired := 0; quit_calls := 0 |}.

Definition acquire (s : session) : session :=
  {| held := true; acquired := S (acquired s); quit_calls := quit_calls s |}.

(** [driver.quit()]: the session is gone once the call was made, whether or
    not it then raises; both call sites go on to return the same tuple in
    either case. *)
Definition quit (s : session) : session :=
  {| held := false; acquired := acquired s; quit_calls := S (quit_calls s) |}.

Definition title_sentinel : str := "Title not found".
Definition description_sentinel : str := "Description not found".

(** The values the locals hold before the [try]. *)
Definition defaults : fetch_result :=
  {| title := title_sentinel; description := description_sentinel;
     specs_data := []; specs_html := []; video_links := [] |}.

(** The clean-up of [model_number] at the top of [scrape_katom]. *)
Definition clean_model_number (model_number : str) : str :=
  let m := upper (filter isalnum model_number) in
  if endswith "HC" m then firstn (List.length m - 2) m else m.

Definition url_of (prefix model_number : str) : str :=
  lit "https://www.katom.com/" ++ prefix ++ lit "-" ++ model_number
    ++ lit ".html".

(** The [# Get title] block: the title and [item_found]. *)
Definition get_title (p : page) : str * bool :=
  match title_wait p with
  | Raise _ => (title_sentinel, false)
  | Ok _ =>
      match title_element p with
      | Raise _ => (title_sentinel, false)
      | Ok text => let t := strip text in (t, nonempty t)
      end
  end.

Definition keep_paragraph (text : str) : bool :=
  nonempty (strip text)
  && negb (startswith "*free" (lower text))
  && negb (contains "video" (lower text)).

(** The [# Get description] block. *)
Definition get_description (p : page) : str :=
  match tab_content p with
  | Raise _ => description_sentinel
  | Ok paragraphs =>
      let filtered :=
        map (fun t => lit "<p>" ++ strip t ++ lit "</p>")
            (filter keep_paragraph paragraphs) in
      match filtered with
      | [] => description_sentinel
      | _ :: _ => List.concat filtered
      end
  end.

(** [if src and src not in video_links: video_links += f"{src}\n"], where
    [video_links] is the string collected so far. *)
Definition add_link (video_links : str) (src : option str) : str :=
  match src with
  | Some (c :: s) =>
      if negb (contains (c :: s) video_links)
      then video_links ++ (c :: s) ++ [newline]
      else video_links
  | _ => video_links
  end.

(** [if match not in video_links: video_links += f"{match}\n"]. *)
Definition add_match (video_links : str) (m : str) : str :=
  if negb (contains m video_links) then video_links ++ m ++ [newline]
  else video_links.

(** The [# Extract video links] block: three tiers, each tried when the
    string is still empty; an exception keeps what was collected. *)
Definition get_video_links (p : page) : str :=
  match mp4_sources p with
  | Raise _ => []
  | Ok sources =>
      let v1 := fold_left add_link sources [] in
      let r2 :=
        if nonempty v1 then Ok v1
        else match videos p with
             | Ok vs => Ok (fold_left add_link (List.concat vs) v1)
             | Raise e => Raise e
             end in
      match r2 with
      | Raise _ => v1
      | Ok v2 =>
          if nonempty v2 then v2
          else match page_source_mp4 p with
               | Ok matches => fold_left add_match matches v2
               | Raise _ => v2
               end
      end
  end.

(** What follows the 404 test inside the [try]. *)
Definition extract_page (p : page) : fetch_result :=
  let (t, item_found) := get_title p in
  if item_found then
    let (sd, sh) := extract_table_data (doc p) in
    {| title := t; description := get_description p;
       specs_data := sd; specs_html := sh;
       video_links := get_video_links p |}
  else
    {| title := t; description := description_sentinel;
       specs_data := []; specs_html := []; video_links := [] |}.

(** The body of the outer [try] once the driver exists: the tuple that will
    be returned and the session as the body leaves it.  The 404 branch
    quits the driver itself before its [return]. *)
Definition try_body (p : page) (s : session) : fetch_result * session :=
  match load p with
  | Raise _ => (defaults, s)
  | Ok _ =>
      match driver_title p with
      | Raise _ => (defaults, s)
      | Ok t =>
          if contains "404" t || contains "not found" (lower t)
          then (defaults, quit s)
          else (extract_page p, s)
      end
  end.

(** [scrape_katom(model_number, prefix)].  When [webdriver.Chrome] raises,
    [driver] is still [None] and the [finally] block has nothing to quit;
    otherwise the [finally] block quits the driver on every way out of the
    [try]. *)
Definition scrape_katom (b : browser) (model_number prefix : str)
           (s : session) : fetch_result * session :=
  let url := url_of prefix (clean_model_number model_number) in
  match chrome b with
  | Raise _ => (defaults, s)
  | Ok _ =>
      let (r, s1) := try_body (get b url) (acquire s) in
      (r, quit s1)
  end.

End Scrape.

(* ===================================================================== *)
(** * Row processor: [SheetRow.process_file] and [SheetRow.save_results] *)
(* ===================================================================== *)

Module Process.

Import Extract.

(** A cell of the loaded table, as far as [str(row_data[model_col])] tells
    cells apart. *)
Inductive cell : Type :=
| CellStr (s : str)
| CellNaN
| CellInt (z : Z).

(** [str(cell)]. *)
Definition str_of_cell (c : cell) : str :=
  match c with
  | CellStr s => s
  | CellNaN => "nan"
  | CellInt z => str_of_Z z
  end.

(** The [DataFrame] that [load_file_data] returns: column labels and the
    records in order, each record listing its cells by column; the index
    runs from 0. *)
Record dataframe : Type := {
  columns : list str;
  records : list (list cell)
}.

(** [self.output_df]: column labels and the rows appended so far. *)
Record output_table : Type := {
  out_columns : list str;
  out_rows : list dict
}.

Inductive hook_result : Type :=
| HookFalse
| HookOther.

(** How a call of [save_results] leaves the file: written in full, not
    touched (the call fails before it writes), or spoiled (the call fails
    while it writes). *)
Inductive write_outcome : Type :=
| Written
| Unchanged
| Spoiled.

Record config_manager : Type := {
  common_spec_fields : list str;
  output_dir : str;
  output_prefix : str
}.

(** What a run of [process_file] reads from outside itself.
    - [selected_file]: the name of the selected file, if any;
    - [hook_results]: [None] when the parent has no [plugin_manager],
      otherwise the results of the [before_process_file] hooks;
    - [load_file_data]: the table, or the message of the exception raised;
    - [makedirs]: the message of the exception [os.makedirs] raises, if any;
    - [save_outcome k]: how the [k]-th call of [save_results] that has a
      table to write leaves the file, counting from 0; every call runs in
      its own [try] and fails or succeeds on its own;
    - [scrape]: [self.scrape_katom], possibly replaced by a plugin, as a
      function of its arguments for the time of the run;
    - [running_at k]: the value of [self.running] read at the [k]-th record
      boundary (the other thread may clear it). *)
Record env : Type := {
  selected_file : option str;
  prefix_input : str;
  hook_results : option (list hook_result);
  load_file_data : str + dataframe;
  config : option config_manager;
  makedirs : option str;
  save_outcome : nat -> write_outcome;
  scrape : str -> str -> outcome fetch_result;
  running_at : nat -> bool
}.

(** What a run writes: [self.output_df], the table that the file at
    [self.output_path] holds, if it holds one, the signals emitted, oldest
    first, and the number of calls of [save_results] that had a table to
    write. *)
Record state : Type := {
  output_df : option output_table;
  artifact : option output_table;
  emitted : list signal;
  saves : nat
}.

Definition initial : state :=
  {| output_df := None; artifact := None; emitted := []; saves := 0 |}.

Definition emit (sg : signal) (s : state) : state :=
  {| output_df := output_df s; artifact := artifact s;
     emitted := emitted s ++ [sg]; saves := saves s |}.

(** [save_results]: a full rewrite of the file from [self.output_df]; a
    failure is printed and the run goes on. *)
Definition save_results (e : env) (s : state) : state :=
  match output_df s with
  | Some df =>
      {| output_df := output_df s;
         artifact :=
           match save_outcome e (saves s) with
           | Written => Some df
           | Unchanged => artifact s
           | Spoiled => None
           end;
         emitted := emitted s;
         saves := S (saves s) |}
  | None => s
  end.

Definition default_spec_fields : list str :=
  [ lit "manufacturer"; lit "food type"; lit "frypot style"; lit "heat";
    lit "hertz"; lit "nema"; lit "number of fry pots";
    lit "oil capacity/fryer (lb)"; lit "phase"; lit "product";
    lit "product type"; lit "rating"; lit "special features"; lit "type";
    lit "voltage"; lit "warranty"; lit "weight" ].

(** [f"Video Link {i}"]. *)
Definition video_column (i : nat) : str :=
  lit "Video Link " ++ str_of_Z (Z.of_nat i).

(** The column labels of the output table. *)
Definition output_columns (fields : list str) : list str :=
  [lit "Mfr Model"; lit "Title"; lit "Description"]
    ++ map Py.title fields ++ map video_column (seq 1 5).

(** The position of the first column whose label is ['mfr model'] once
    stripped and lower-cased. *)
Fixpoint find_model_col (cols : list str) : option nat :=
  match cols with
  | [] => None
  | col :: rest =>
      if Py.eqb (lower (strip col)) "mfr model" then Some 0
      else option_map S (find_model_col rest)
  end.

(** [hook_results and any(result is False for ...)]. *)
Definition aborted_by_hook (h : option (list hook_result)) : bool :=
  match h with
  | Some results =>
      existsb (fun r => match r with HookFalse => true | _ => false end)
              results
  | None => false
  end.

Definition combined_description (r : fetch_result) : str :=
  html "<div style='text-align: justify;'>" ++ description r ++ lit "</div>"
    ++ (if nonempty (specs_html r)
        then html "<h3 style='margin-top: 15px;'>Specifications</h3>"
               ++ specs_html r
        else []).

(** The first of the canonical fields that a spec key matches: equal to it
    or contained in it, both lower-cased. *)
Fixpoint first_match (key : str) (fields : list str) : option str :=
  match fields with
  | [] => None
  | field :: rest =>
      if Py.eqb (lower key) (lower field) || contains (lower key) (lower field)
      then Some field
      else first_match key rest
  end.

(** One turn of [for key, value in specs_dict.items()]. *)
Definition place_spec (fields : list str) (row_data : dict) (kv : str * str)
  : dict :=
  let value := weight_value (fst kv) (snd kv) in
  match first_match (fst kv) fields with
  | Some field => Dict.set (Py.title field) value row_data
  | None => row_data
  end.

(** [[link.strip() for link in video_links.strip().split('\n')
      if link.strip()]]. *)
Definition video_list (links : str) : list str :=
  map strip
      (filter (fun link => nonempty (strip link))
              (split_on newline (strip links))).

(** The two loops that fill the [Video Link] columns. *)
Definition place_videos (vl : list str) (row_data : dict) : dict :=
  let filled :=
    fold_left (fun d il => Dict.set (video_column (fst il)) (snd il) d)
              (combine (seq 1 5) (firstn 5 vl)) row_data in
  fold_left (fun d i => if (i <=? 5)%nat then Dict.set (video_column i) [] d
                        else d)
            (seq (List.length vl + 1) (6 - (List.length vl + 1))) filled.

(** The [row_data] dictionary built for a record that was found. *)
Definition build_row (fields : list str) (model : str) (r : fetch_result)
  : dict :=
  let base :=
    [ (lit "Mfr Model", model); (lit "Title", title r);
      (lit "Description", combined_description r) ] in
  let blank :=
    fold_left (fun d field => Dict.set (Py.title field) [] d) fields base in
  let with_specs := fold_left (place_spec fields) (specs_data r) blank in
  place_videos (video_list (video_links r)) with_specs.

(** [pd.concat([self.output_df, new_row], ignore_index=True)]: the row goes
    last; keys that are not yet columns become columns. *)
Definition append_row (row_data : dict) (s : state) : state :=
  match output_df s with
  | Some t =>
      let fresh :=
        filter (fun k => negb (existsb (Py.eqb k) (out_columns t)))
               (map fst row_data) in
      {| output_df := Some {| out_columns := out_columns t ++ fresh;
                              out_rows := out_rows t ++ [row_data] |};
         artifact := artifact s; emitted := emitted s; saves := saves s |}
  | None => s
  end.

(** The body of the inner [try] for one record. *)
Definition process_record (e : env) (fields : list str) (prefix model : str)
           (s : state) : state :=
  let s1 := emit (UpdateStatus (lit "Processing model: " ++ model)) s in
  match scrape e model prefix with
  | Ok r =>
      if found (title r)
      then save_results e (append_row (build_row fields model r) s1)
      else s1
  | Raise _ => s1
  end.

(** [for i, row_data in df.iterrows()], from record [i] on; returns the
    boundary at which the loop was left. *)
Fixpoint process_rows (e : env) (fields : list str) (prefix : str)
         (model_col total_rows : nat) (rows : list (list cell)) (i : nat)
         (s : state) : state * nat :=
  match rows with
  | [] => (s, i)
  | row_data :: rest =>
      if negb (running_at e i) then (s, i)
      else
        let current_row := i + 1 in
        let model := str_of_cell (nth model_col row_data CellNaN) in
        if negb (nonempty model)
        then process_rows e fields prefix model_col total_rows rest (S i) s
        else
          let s1 := process_record e fields prefix model s in
          let s2 := emit (UpdateProgress (Z.of_nat current_row)
                                         (Z.of_nat total_rows)) s1 in
          process_rows e fields prefix model_col total_rows rest (S i) s2
  end.

(** [process_file].  The [after_process_file] hook that precedes
    [finished.emit()] returns nothing the run uses. *)
Definition process_file (e : env) : state :=
  match selected_file e with
  | None => emit (Error "No file selected") initial
  | Some _ =>
      let prefix := strip (prefix_input e) in
      if aborted_by_hook (hook_results e)
      then emit (Error "Processing aborted by plugin") initial
      else
        match load_file_data e with
        | inl message => emit (Error message) initial
        | inr df =>
            match find_model_col (columns df) with
            | None => emit (Error "Missing 'Mfr Model' column in file") initial
            | Some model_col =>
                let fields :=
                  match config e with
                  | Some c => common_spec_fields c
                  | None => default_spec_fields
                  end in
                let s1 :=
                  {| output_df :=
                       Some {| out_columns := output_columns fields;
                               out_rows := [] |};
                     artifact := None; emitted := []; saves := 0 |} in
                let prefix :=
                  match config e with
                  | Some c => output_prefix c
                  | None => prefix
                  end in
                match makedirs e with
                | Some message => emit (Error message) s1
                | None =>
                    let s2 := save_results e s1 in
                    let total_rows := List.length (records df) in
                    if (total_rows =? 0)%nat
                    then emit (Error "File contains no data rows") s2
                    else
                      let s3 :=
                        emit (UpdateProgress 0 (Z.of_nat total_rows)) s2 in
                      let (s4, k) :=
                        process_rows e fields prefix model_col total_rows
                                     (records df) 0 s3 in
                      if running_at e k then emit Finished s4 else s4
                end
            end
        end
  end.

End Process.

(* ===================================================================== *)
(** * File selection and loading: [SheetRow.extract_prefix_from_filename],
      [SheetRow.get_selected_file], [SheetRow.load_file_data] and
      [MainWindow.get_drive_web_files] *)
(* ===================================================================== *)

Module Files.

Import Extract.

(** [\w] on ASCII. *)
Definition is_word (c : ascii) : bool := isalnum c || Ascii.eqb c "_"%char.

Definition hyphen : ascii := "-"%char.

(** [re.match(r'[\w]+-(\d+)', s)]: the text of group 1 when the pattern
    matches at the head of [s].  [[\w]+] is greedy and the hyphen is no
    word character, so the pattern can only match with the whole run of
    word characters; [\d+] is greedy. *)
Definition match_prefix (s : str) : option str :=
  let (w, r) := span is_word s in
  match w, r with
  | _ :: _, c :: r' =>
      if Ascii.eqb c hyphen then
        let (ds, _) := span is_digit r' in
        match ds with
        | [] => None
        | _ :: _ => Some ds
        end
      else None
  | _, _ => None
  end.

(** [re.search(r'[\w]+-(\d+)', s)]: the leftmost position where the
    pattern matches. *)
Fixpoint search_prefix (s : str) : option str :=
  match match_prefix s with
  | Some prefix => Some prefix
  | None =>
      match s with
      | [] => None
      | _ :: t => search_prefix t
      end
  end.

(** [extract_prefix_from_filename(filename)]: the text of [prefix_input]
    afterwards, given its text before. *)
Definition extract_prefix_from_filename (filename prefix_text : str) : str :=
  match search_prefix filename with
  | Some prefix => prefix
  | None => prefix_text
  end.

Inductive file_type : Type :=
| GoogleSheet
| LocalFile.

(** The dictionary [{"name": ..., "path": ..., "type": ...}]. *)
Record file_info : Type := {
  name : str;
  path : str;
  type : file_type
}.

(** [get_selected_file()], given the text of the dropdown.  [home] is what
    [os.path.expanduser] puts in the place of the leading tilde. *)
Definition get_selected_file (home text : str) : option file_info :=
  if negb (nonempty text) then None
  else Some {| name := text;
               path := home ++ lit "/GoogleDriveMount/Web/" ++ text;
               type := LocalFile |}.

(** What [load_file_data] does with the file. *)
Inductive reader : Type :=
| OpenSheet
| ReadCsv
| ReadExcel.

(** [load_file_data(file_info)] up to the call that reads the file: the
    reader the file is handed to, or the message of the [AppError] raised
    for a path with another extension. *)
Definition load_file_data (f : file_info) : str + reader :=
  match type f with
  | GoogleSheet => inr OpenSheet
  | LocalFile =>
      if endswith ".csv" (lower (path f)) then inr ReadCsv
      else if endswith ".xlsx" (lower (path f))
              || endswith ".xls" (lower (path f))
      then inr ReadExcel
      else inl (lit "Unsupported file type: " ++ path f)
  end.

(** An entry of [os.listdir(web_folder)] with what [os.path.isfile] says
    about it. *)
Record dir_entry : Type := {
  entry_name : str;
  is_file : bool
}.

(** [filename.endswith(('.csv', '.xlsx', '.xls')) and
     not filename.startswith('final_')]. *)
Definition offered (filename : str) : bool :=
  (endswith ".csv" filename || endswith ".xlsx" filename
   || endswith ".xls" filename)
  && negb (startswith "final_" filename).

(** The order of Python strings: lexicographic on code points. *)
Fixpoint str_leb (a b : str) : bool :=
  match a, b with
  | [], _ => true
  | _ :: _, [] => false
  | x :: a', y :: b' =>
      if (code x <? code y)%nat then true
      else if (code y <? code x)%nat then false
      else str_leb a' b'
  end.

Fixpoint insert_sorted (x : str) (l : list str) : list str :=
  match l with
  | [] => [x]
  | y :: t => if str_leb x y then x :: l else y :: insert_sorted x t
  end.

(** [sorted(l)] on a list of strings. *)
Definition sorted (l : list str) : list str := fold_right insert_sorted [] l.

(** [get_drive_web_files()].  [listing] is [None] when the folder does not
    exist or listing it raises: both ways the result is the empty list. *)
Definition get_drive_web_files (listing : option (list dir_entry))
  : list str :=
  match listing with
  | None => []
  | Some entries =>
      sorted (map entry_name
                  (filter (fun en => is_file en && offered (entry_name en))
                          entries))
  end.

End Files.

(* ===================================================================== *)
(** * Sequential processing: [MainWindow.start_all], [process_next_row],
      [_start_row], [stop_all] and the [SheetRow] methods they call *)
(* ===================================================================== *)

Module Window.

Import Extract.

(** A [SheetRow] as the main window uses it: the fields that the signal
    handlers write ([Row.ui]), the texts of its two inputs, whether
    [lock_controls] left the inputs enabled and, as a ghost field, the
    number of worker threads started so far. *)
Record sheet_row : Type := {
  ui : Row.ui;
  file_text : str;
  prefix_text : str;
  controls_enabled : bool;
  threads : nat
}.

Definition with_ui (u : Row.ui) (r : sheet_row) : sheet_row :=
  {| ui := u; file_text := file_text r; prefix_text := prefix_text r;
     controls_enabled := controls_enabled r; threads := threads r |}.

(** [reset_state()]. *)
Definition reset_state (r : sheet_row) : sheet_row :=
  with_ui {| Row.running := false; Row.completed := false;
             Row.start_enabled := true; Row.stop_enabled := false;
             Row.status_label := "Ready"; Row.progress := (0%Z, 0%Z);
             Row.warnings := Row.warnings (ui r) |} r.

(** [lock_controls(locked)]. *)
Definition lock_controls (locked : bool) (r : sheet_row) : sheet_row :=
  {| ui := ui r; file_text := file_text r; prefix_text := prefix_text r;
     controls_enabled := negb locked; threads := threads r |}.

Definition warn (text : str) (r : sheet_row) : sheet_row :=
  with_ui {| Row.running := Row.running (ui r);
             Row.completed := Row.completed (ui r);
             Row.start_enabled := Row.start_enabled (ui r);
             Row.stop_enabled := Row.stop_enabled (ui r);
             Row.status_label := Row.status_label (ui r);
             Row.progress := Row.progress (ui r);
             Row.warnings := Row.warnings (ui r) ++ [text] |} r.

(** [start_processing()]: the last branch starts the worker thread. *)
Definition start_processing (r : sheet_row) : sheet_row :=
  if Row.running (ui r) then r
  else if negb (nonempty (file_text r))
  then warn "Please select a file first" r
  else if negb (nonempty (strip (prefix_text r)))
  then warn "Please enter a Katom prefix" r
  else
    {| ui := {| Row.running := true; Row.completed := false;
                Row.start_enabled := false; Row.stop_enabled := true;
                Row.status_label := "Starting..."; Row.progress := (0%Z, 0%Z);
                Row.warnings := Row.warnings (ui r) |};
       file_text := file_text r; prefix_text := prefix_text r;
       controls_enabled := controls_enabled r; threads := S (threads r) |}.

(** [row.status_label.setText(text)]. *)
Definition set_status_label (text : str) (r : sheet_row) : sheet_row :=
  with_ui (Row.on_update_status (ui r) text) r.

(** The main window: the row widgets of [scroll_layout] in order, the
    queue (its rows are named by their position in the layout, which these
    methods never change), the two buttons, the status label, the texts
    shown with [QMessageBox.warning] and the number of [QTimer.singleShot]
    calls that have not fired yet. *)
Record main_window : Type := {
  rows : list sheet_row;
  processing_queue : list nat;
  current_processing_index : Z;
  start_all_enabled : bool;
  stop_all_enabled : bool;
  status_label : str;
  warnings : list str;
  timers : nat
}.

Definition with_rows (rs : list sheet_row) (w : main_window) : main_window :=
  {| rows := rs; processing_queue := processing_queue w;
     current_processing_index := current_processing_index w;
     start_all_enabled := start_all_enabled w;
     stop_all_enabled := stop_all_enabled w;
     status_label := status_label w; warnings := warnings w;
     timers := timers w |}.

(** [update_status(message)]. *)
Definition update_status (message : str) (w : main_window) : main_window :=
  {| rows := rows w; processing_queue := processing_queue w;
     current_processing_index := current_processing_index w;
     start_all_enabled := start_all_enabled w;
     stop_all_enabled := stop_all_enabled w;
     status_label := message; warnings := warnings w; timers := timers w |}.

(** A method call on the row at position [i]. *)
Fixpoint update_nth (i : nat) (f : sheet_row -> sheet_row)
         (rs : list sheet_row) : list sheet_row :=
  match rs, i with
  | [], _ => []
  | r :: t, 0 => f r :: t
  | r :: t, S j => r :: update_nth j f t
  end.

Definition on_row (i : nat) (f : sheet_row -> sheet_row) (w : main_window)
  : main_window :=
  with_rows (update_nth i f (rows w)) w.

(** [row.file_dropdown.currentText() and row.prefix_input.text().strip()]. *)
Definition is_valid (r : sheet_row) : bool :=
  nonempty (file_text r) && nonempty (strip (prefix_text r)).

(** The positions of the valid rows, from position [i] on. *)
Fixpoint valid_from (i : nat) (rs : list sheet_row) : list nat :=
  match rs with
  | [] => []
  | r :: t =>
      if is_valid r then i :: valid_from (S i) t else valid_from (S i) t
  end.

(** [start_all()]. *)
Definition start_all (w : main_window) : main_window :=
  let rows' :=
    map (fun r => if is_valid r then lock_controls true (reset_state r)
                  else r)
        (rows w) in
  let valid_rows := valid_from 0 (rows w) in
  match valid_rows with
  | [] =>
      {| rows := rows'; processing_queue := processing_queue w;
         current_processing_index := current_processing_index w;
         start_all_enabled := start_all_enabled w;
         stop_all_enabled := stop_all_enabled w;
         status_label := status_label w;
         warnings :=
           warnings w ++ [lit "Please add at least one file with a prefix"];
         timers := timers w |}
  | _ :: _ =>
      {| rows := rows'; processing_queue := valid_rows;
         current_processing_index := (-1)%Z;
         start_all_enabled := false; stop_all_enabled := true;
         status_label := "Starting sequential processing...";
         warnings := warnings w; timers := S (timers w) |}
  end.

(** [_start_row(row)]. *)
Definition _start_row (r : sheet_row) : sheet_row :=
  if negb (Row.running (ui r)) && negb (Row.completed (ui r))
  then start_processing r
  else r.

(** [self.processing_queue[index]] for an index that is not negative. *)
Definition queue_item (w : main_window) (index : Z) : option nat :=
  nth_error (processing_queue w) (Z.to_nat index).

(** [process_next_row()].  The index starts at -1 and is only incremented,
    so [index] is never negative; past the end of the queue the method
    returns before the subscript. *)
Definition process_next_row (w : main_window) : main_window :=
  if negb (stop_all_enabled w) then w
  else
    let index := (current_processing_index w + 1)%Z in
    let len := Z.of_nat (List.length (processing_queue w)) in
    if (len <=? index)%Z
    then
      {| rows := rows w; processing_queue := processing_queue w;
         current_processing_index := index;
         start_all_enabled := true; stop_all_enabled := false;
         status_label := "All processing completed";
         warnings := warnings w; timers := timers w |}
    else
      let w1 :=
        {| rows := rows w; processing_queue := processing_queue w;
           current_processing_index := index;
           start_all_enabled := start_all_enabled w;
           stop_all_enabled := stop_all_enabled w;
           status_label := status_label w;
           warnings := warnings w; timers := timers w |} in
      match queue_item w index with
      | None => w1
      | Some i =>
          match nth_error (rows w) i with
          | None => w1
          | Some r =>
              let w2 :=
                if nonempty (file_text r)
                then update_status
                       (lit "Starting file " ++ str_of_Z (index + 1)
                          ++ lit " of " ++ str_of_Z len ++ lit ": "
                          ++ file_text r) w1
                else w1 in
              on_row i _start_row w2
          end
      end.

(** [SheetRow.on_processing_finished()] of the row at position [i]: the
    row's fields, then the calls on the parent. *)
Definition on_processing_finished (i : nat) (w : main_window)
  : main_window :=
  match nth_error (rows w) i with
  | None => w
  | Some r =>
      let w1 := on_row i (fun r => with_ui (Row.on_processing_finished (ui r)) r)
                       w in
      let w2 :=
        if nonempty (file_text r)
        then update_status (lit "Completed: " ++ file_text r) w1
        else w1 in
      process_next_row w2
  end.

(** [SheetRow.on_processing_error(error_message)] of the row at position
    [i]. *)
Definition on_processing_error (i : nat) (error_message : str)
           (w : main_window) : main_window :=
  on_row i (fun r => with_ui (Row.on_processing_error (ui r) error_message) r)
         w.

(** [SheetRow.on_update_progress(current, total)] of the row at position
    [i]; the row keeps the pair, as in [Row.on_update_progress]. *)
Definition on_update_progress (i : nat) (current total : Z)
           (w : main_window) : main_window :=
  match nth_error (rows w) i with
  | None => w
  | Some r =>
      let w1 :=
        on_row i (fun r => with_ui (Row.on_update_progress (ui r) current total)
                                   r) w in
      if nonempty (file_text r)
      then update_status
             (lit "Processing: " ++ file_text r ++ lit " - Row "
                ++ str_of_Z current ++ lit " of " ++ str_of_Z total) w1
      else w1
  end.

(** [SheetRow.on_update_status(status_text)] of the row at position [i]. *)
Definition on_update_status (i : nat) (status_text : str) (w : main_window)
  : main_window :=
  on_row i (set_status_label status_text) w.

(** [stop_all()]. *)
Definition stop_all (w : main_window) : main_window :=
  {| rows :=
       map (fun r =>
              lock_controls false
                (set_status_label "Stopped"
                   (if Row.running (ui r)
                    then with_ui (Row.stop_processing (ui r)) r else r)))
           (rows w);
     processing_queue := [];
     current_processing_index := current_processing_index w;
     start_all_enabled := true; stop_all_enabled := false;
     status_label := "Stopped"; warnings := warnings w; timers := timers w |}.

(** What the event loop of the GUI thread dispatches: the two buttons, a
    timer set by [start_all], and a signal of the worker of the row at
    position [i]. *)
Inductive event : Type :=
| ClickStartAll
| ClickStopAll
| TimerFires
| FromRow (i : nat) (sg : signal).

Definition handle (w : main_window) (ev : event) : main_window :=
  match ev with
  | ClickStartAll => start_all w
  | ClickStopAll => stop_all w
  | TimerFires =>
      match timers w with
      | 0 => w
      | S n =>
          process_next_row
            {| rows := rows w; processing_queue := processing_queue w;
               current_processing_index := current_processing_index w;
               start_all_enabled := start_all_enabled w;
               stop_all_enabled := stop_all_enabled w;
               status_label := status_label w; warnings := warnings w;
               timers := n |}
      end
  | FromRow i (UpdateProgress current total) =>
      on_update_progress i current total w
  | FromRow i (UpdateStatus text) => on_update_status i text w
  | FromRow i Finished => on_processing_finished i w
  | FromRow i (Error message) => on_processing_error i message w
  end.

(** The events are handled one after the other. *)
Definition run (w : main_window) (evs : list event) : main_window :=
  fold_left handle evs w.

End Window.

(* ===================================================================== *)
(** * Prefix settings: [PrefixDialog.move_up], [move_down] and
      [get_prefixes] *)
(* ===================================================================== *)

Module PrefixDialog.

(** The [QListWidget] of the dialog: the texts of its items in order and
    [currentRow()], which is -1 when no item is current. *)
Record dialog : Type := {
  prefix_list : list str;
  current_row : Z
}.

(** [takeItem(row)] on a row of the list: the item and the list without
    it; [None] when there is no such row. *)
Definition take_item (row : nat) (l : list str) : option (str * list str) :=
  match nth_error l row with
  | Some item => Some (item, firstn row l ++ skipn (S row) l)
  | None => None
  end.

(** [insertItem(row, item)]. *)
Definition insert_item (row : nat) (item : str) (l : list str) : list str :=
  firstn row l ++ item :: skipn row l.

(** [move_up()].  [None] stands for a call of [takeItem] on a row that the
    list does not have, which the widget never reports as current. *)
Definition move_up (d : dialog) : option dialog :=
  if (0 <? current_row d)%Z then
    match take_item (Z.to_nat (current_row d)) (prefix_list d) with
    | Some (item, rest) =>
        Some {| prefix_list :=
                  insert_item (Z.to_nat (current_row d - 1)) item rest;
                current_row := (current_row d - 1)%Z |}
    | None => None
    end
  else Some d.

(** [move_down()].  With no current item and a list that is not empty the
    test passes with row -1 and [takeItem] has no item to give: what the
    widget does with it is left out ([None]), as is a row that the list
    does not have. *)
Definition move_down (d : dialog) : option dialog :=
  if (current_row d <? Z.of_nat (List.length (prefix_list d)) - 1)%Z then
    if (current_row d <? 0)%Z then None
    else
      match take_item (Z.to_nat (current_row d)) (prefix_list d) with
      | Some (item, rest) =>
          Some {| prefix_list :=
                    insert_item (Z.to_nat (current_row d + 1)) item rest;
                  current_row := (current_row d + 1)%Z |}
      | None => None
      end
  else Some d.

(** [get_prefixes()]. *)
Definition get_prefixes (d : dialog) : list str := prefix_list d.

End PrefixDialog.

(* ===================================================================== *)
(** * Vocabulary of the statements and sample inputs *)
(* ===================================================================== *)

(** A character of the ASCII range, the one that the embedding of
    [str.isalnum], [str.strip], [\w], [\s] and [\d] covers. *)
Definition is_ascii (c : ascii) : bool := (code c <? 128)%nat.

(** The text of a numeric token with integer digits [ip] and fraction digits
    [fp] (no fraction when [fp] is empty). *)
Definition token_text (ip fp : str) : str :=
  ip ++ match fp with [] => [] | _ => "."%char :: fp end.

(** The number such a token denotes. *)
Definition token_number (i f : N) (fp : str) : Q :=
  let scale := Pos.pow 10 (Pos.of_nat (List.length fp)) in
  (inject_Z (Z.of_N i) + Qmake (Z.of_N f) scale)%Q.

(** The digits of such a token read as one integer, and the power of ten
    by which that integer is to be divided. *)
Definition token_numerator (i f : N) (fp : str) : Z :=
  (Z.of_N i * 10 ^ Z.of_nat (List.length fp) + Z.of_N f)%Z.

Definition token_denominator (fp : str) : Z :=
  (10 ^ Z.of_nat (List.length fp))%Z.

(** The [float] that such a token is read as. *)
Definition token_float (i f : N) (fp : str) : float :=
  to_double (token_numerator i f fp) (token_denominator fp).

(** The token is short enough for the rounding to binary64 to keep its
    ceiling: its digits, read as one integer, stay below [2^53], and it has
    at most 300 fraction digits.  Every token of at most 15 digits is. *)
Definition exactly_read (i f : N) (fp : str) : Prop :=
  (token_numerator i f fp < 2 ^ 53)%Z /\ List.length fp <= 300.

(** The same with room for the offset: the result of one application is
    then exactly read as well. *)
Definition exactly_read_twice (i f : N) (fp : str) : Prop :=
  (token_numerator i f fp + 5 < 2 ^ 53)%Z /\ List.length fp <= 300.

(** The ceiling of [n/d], for [d > 0]. *)
Definition ceiling_div (n d : Z) : Z := (- ((- n) / d))%Z.

Definition starts_with_digit (s : str) : bool :=
  match s with c :: _ => is_digit c | [] => false end.

(** What follows a token would make it longer: a digit, or after a token
    without fraction a dot and a digit. *)
Definition extends_token (fp post : str) : bool :=
  starts_with_digit post ||
  match fp, post with
  | [], dot :: r => Ascii.eqb dot "."%char && starts_with_digit r
  | _, _ => false
  end.

Definition no_digit (s : str) : bool := forallb (fun c => negb (is_digit c)) s.

(** [mid] is empty or ends in a digit or a dot, so that the trailing
    non-numeric run of [mid ++ tail] is [tail]. *)
Definition ends_numeric (mid : str) : bool :=
  match rev mid with
  | [] => true
  | c :: _ => negb (non_numeric c)
  end.

(** Nothing to trim at the left end. *)
Definition left_trimmed (s : str) : bool :=
  match s with
  | [] => true
  | c :: _ => negb (is_space c)
  end.

(** The text that follows the number in a result of the normalizer. *)
Definition unit_suffix (tail : str) : str :=
  match strip tail with [] => [] | u => " "%char :: u end.

(** The alternatives that are not the primary prefix, in configured
    order. *)
Definition alt_candidates (prefix : str) (prefixes : list str) : list str :=
  filter (fun a => negb (Py.eqb a prefix)) prefixes.

(** Every fetch of the list came back with a sentinel title. *)
Definition all_failed (l : list (str * fetch_result)) : Prop :=
  Forall (fun a => not_found (title (snd a)) = true) l.

(** Elements that answer every query: the texts [l], none of them
    raising; a table all of whose rows are such. *)
Definition readable (l : list str) : Extract.texts := Ok (map Ok l).

Definition plain_table (t : list (list str)) : Extract.table :=
  Ok (map readable t).

(** What a loop has built when it ends, whichever way it ends. *)
Definition built {A : Type} (r : Extract.run A) : A :=
  match r with
  | Extract.Done a => a
  | Extract.Aborted a => a
  end.

Module Yields.

Import Extract.

(** When a source yields a key/value pair.  A table row: its cells can be
    queried and are at least two.  A labelled element: a key and a value
    sub-element whose texts can be read, the key text not blank.  A
    definition list: some term, paired with a definition, whose text can be
    read and is not blank.  A text element: its text can be read, is not
    blank, has at most 100 characters, and one of the two patterns matches
    with a key that holds a common spec term. *)
Definition row_yields (r : row) : bool :=
  match r with
  | Ok cells => (2 <=? List.length cells)%nat
  | Raise _ => false
  end.

Definition labeled_yields (row : texts * texts) : bool :=
  match row with
  | (Ok (Ok k0 :: _), Ok (Ok _ :: _)) => nonempty (strip k0)
  | _ => false
  end.

Definition dl_yields (dl : texts * texts) : bool :=
  match dl with
  | (Ok terms, Ok definitions) =>
      existsb (fun td => match td with
                         | (Ok t, Ok _) => nonempty (strip t)
                         | _ => false
                         end)
              (combine terms definitions)
  | _ => false
  end.

Definition pattern_yields (text : str) (sep : ascii) : bool :=
  match match_key_value sep text with
  | Some (g1, _) =>
      existsb (fun spec => contains spec (lower (strip g1))) common_specs
  | None => false
  end.

Definition text_yields (element : outcome str) : bool :=
  match element with
  | Ok element_text =>
      let text := strip element_text in
      nonempty text && (List.length text <=? 100)%nat
      && existsb (pattern_yields text) [":"%char; "-"%char]
  | Raise _ => false
  end.

(** A query raises or none of the elements it returns yields a pair. *)
Definition none_yield {A : Type} (yields : A -> bool) (q : outcome (list A))
  : Prop :=
  match q with
  | Ok l => forallb (fun a => negb (yields a)) l = true
  | Raise _ => True
  end.

(** The tables that the table scrape found: those of the spec-styled query,
    or else all tables. *)
Definition found_tables (d : document) : outcome (list table) :=
  match spec_tables d with
  | Ok [] => all_tables d
  | o => o
  end.

End Yields.

Module Run.

Import Extract Process.

(** The spec fields a run uses. *)
Definition fields_of (e : env) : list str :=
  match config e with
  | Some c => common_spec_fields c
  | None => default_spec_fields
  end.


(** The output table with its header and no row. *)
Definition header_only (e : env) : output_table :=
  {| out_columns := output_columns (fields_of e); out_rows := [] |}.





(** The run gets as far as the loop over the records of [df]. *)
Definition reaches_loop (e : env) (df : dataframe) (model_col : nat) : Prop :=
  (exists name, selected_file e = Some name)
  /\ aborted_by_hook (hook_results e) = false
  /\ load_file_data e = inr df
  /\ find_model_col (columns df) = Some model_col
  /\ makedirs e = None.


End Run.

Module Cells.

Import Extract Process.

(** The key text and the value text, both trimmed, that each source of the
    page shows side by side: the first two cells of a row of the table
    found first, the first key and value sub-elements of a labelled
    element, a term and the definition at the same position of a
    definition list, and the two groups of a pattern matched on the trimmed
    text of a text element. *)
Definition row_texts (r : row) : list (str * str) :=
  match r with
  | Ok (Ok k :: Ok v :: _) => [(strip k, strip v)]
  | _ => []
  end.

Definition labeled_texts (row : texts * texts) : list (str * str) :=
  match row with
  | (Ok (Ok k :: _), Ok (Ok v :: _)) => [(strip k, strip v)]
  | _ => []
  end.

Definition term_texts (td : outcome str * outcome str) : list (str * str) :=
  match td with
  | (Ok t, Ok d) => [(strip t, strip d)]
  | _ => []
  end.

Definition dl_texts (dl : texts * texts) : list (str * str) :=
  match dl with
  | (Ok terms, Ok definitions) =>
      flat_map term_texts (combine terms definitions)
  | _ => []
  end.

Definition pattern_texts (text : str) (sep : ascii) : list (str * str) :=
  match match_key_value sep text with
  | Some (g1, g2) => [(strip g1, strip g2)]
  | None => []
  end.

Definition element_texts (element : outcome str) : list (str * str) :=
  match element with
  | Ok element_text =>
      flat_map (pattern_texts (strip element_text)) [":"%char; "-"%char]
  | Raise _ => []
  end.

Definition of_query {A : Type} (f : A -> list (str * str))
           (q : outcome (list A)) : list (str * str) :=
  match q with
  | Ok l => flat_map f l
  | Raise _ => []
  end.

Definition table_texts (d : document) : list (str * str) :=
  match Yields.found_tables d with
  | Ok (Ok rows :: _) => flat_map row_texts rows
  | _ => []
  end.

Definition page_pairs (d : document) : list (str * str) :=
  table_texts d ++ of_query labeled_texts (spec_rows d)
    ++ of_query dl_texts (dl_elements d)
    ++ of_query element_texts (text_elements d).

(** Every text of the page is in ASCII. *)
Definition ascii_text (o : outcome str) : bool :=
  match o with
  | Ok t => forallb is_ascii t
  | Raise _ => true
  end.

Definition ascii_query {A : Type} (f : A -> bool) (q : outcome (list A))
  : bool :=
  match q with
  | Ok l => forallb f l
  | Raise _ => true
  end.

Definition ascii_texts (q : texts) : bool := ascii_query ascii_text q.

Definition ascii_sides (kv : texts * texts) : bool :=
  ascii_texts (fst kv) && ascii_texts (snd kv).

Definition ascii_document (d : document) : bool :=
  ascii_query (ascii_query ascii_texts) (spec_tables d)
  && ascii_query (ascii_query ascii_texts) (all_tables d)
  && ascii_query ascii_sides (spec_rows d)
  && ascii_query ascii_sides (dl_elements d)
  && ascii_query ascii_text (text_elements d).

(** Every entry of the mapping comes from a pair of texts of [pairs]: its
    key is the key text in lower case, and its value is the value text,
    passed through the normalizer when the key text holds "weight". *)
Definition sourced (pairs : list (str * str)) (d : dict) : Prop :=
  forall k v, In (k, v) d ->
              exists key raw, In (key, raw) pairs
                              /\ k = lower key /\ v = weight_value key raw.

(** None of the entries of [l] is placed in column [column]. *)
Definition leaves_column (fields : list str) (column : str) (l : dict) : Prop :=
  forall kv f, In kv l -> first_match (fst kv) fields = Some f ->
               Py.title f <> column.

(** [column] is not one of the media-link columns. *)
Definition not_video_column (column : str) : Prop :=
  forall i, video_column i <> column.

End Cells.

(* --------------------------------------------------------------------- *)
(** ** Sample inputs *)
(* --------------------------------------------------------------------- *)

(** A message that [load_file_data] can produce, longer than 40
    characters. *)
Definition long_message : str :=
  "Failed to load Google Sheet: quota exceeded".

(** The last [n] characters of [s]: [s[-n:]] for [n > 0]. *)
Definition last_chars (n : nat) (s : str) : str :=
  skipn (List.length s - n) s.

(** A document on which every query returns nothing. *)
Definition empty_document : Extract.document :=
  {| Extract.spec_tables := Ok []; Extract.all_tables := Ok [];
     Extract.spec_rows := Ok []; Extract.dl_elements := Ok [];
     Extract.text_elements := Ok [] |}.

(** A page that loads and whose heading says that the item is not found. *)
Definition delisted_page : Scrape.page :=
  {| Scrape.load := Ok tt; Scrape.driver_title := Ok (lit "KaTom");
     Scrape.title_wait := Ok tt;
     Scrape.title_element := Ok (lit "Item not found");
     Scrape.tab_content := Ok [lit "Discontinued."];
     Scrape.doc := empty_document;
     Scrape.mp4_sources := Ok []; Scrape.videos := Ok [];
     Scrape.page_source_mp4 := Ok [] |}.

(** A 404 page. *)
Definition missing_page : Scrape.page :=
  {| Scrape.load := Ok tt; Scrape.driver_title := Ok (lit "404 Not Found");
     Scrape.title_wait := Raise TimeoutException;
     Scrape.title_element := Raise NoSuchElementException;
     Scrape.tab_content := Raise NoSuchElementException;
     Scrape.doc := empty_document;
     Scrape.mp4_sources := Ok []; Scrape.videos := Ok [];
     Scrape.page_source_mp4 := Ok [] |}.

(** A browser for which the primary prefix [605] leads to [delisted_page]
    and every other prefix to [missing_page]. *)
Definition delisted_browser : Scrape.browser :=
  {| Scrape.chrome := Ok tt;
     Scrape.get := fun url =>
       if Py.eqb url "https://www.katom.com/605-ABC123.html"
       then delisted_page else missing_page |}.

(** The state in which a retry starts: nothing fetched, nothing emitted. *)
Definition retry_start : MultiPrefix.st Scrape.session :=
  {| MultiPrefix.world := Scrape.no_session;
     MultiPrefix.emitted := []; MultiPrefix.attempts := [] |}.

(** A product page on which the wait for the title element times out. *)
Definition slow_page : Scrape.page :=
  {| Scrape.load := Ok tt; Scrape.driver_title := Ok (lit "KaTom");
     Scrape.title_wait := Raise TimeoutException;
     Scrape.title_element := Ok (lit "Griddle X");
     Scrape.tab_content := Ok [lit "A griddle."];
     Scrape.doc := empty_document;
     Scrape.mp4_sources := Ok [Some (lit "https://cdn.example.com/a.mp4")];
     Scrape.videos := Ok [];
     Scrape.page_source_mp4 := Ok [] |}.

Definition slow_browser : Scrape.browser :=
  {| Scrape.chrome := Ok tt; Scrape.get := fun _ => slow_page |}.

(** A product page with two [source] elements whose addresses differ only
    by a query string. *)
Definition variant_page : Scrape.page :=
  {| Scrape.load := Ok tt; Scrape.driver_title := Ok (lit "KaTom");
     Scrape.title_wait := Ok tt;
     Scrape.title_element := Ok (lit "Griddle X");
     Scrape.tab_content := Ok [lit "A griddle."];
     Scrape.doc := empty_document;
     Scrape.mp4_sources :=
       Ok [Some (lit "https://cdn.example.com/v/demo.mp4?hd=1");
           Some (lit "https://cdn.example.com/v/demo.mp4")];
     Scrape.videos := Ok [];
     Scrape.page_source_mp4 := Ok [] |}.

Definition variant_browser : Scrape.browser :=
  {| Scrape.chrome := Ok tt; Scrape.get := fun _ => variant_page |}.

(** A page whose only table is a one-column layout table. *)
Definition layout_document : Extract.document :=
  {| Extract.spec_tables := Ok [];
     Extract.all_tables :=
       Ok [plain_table [[lit "Specifications"]; [lit "See brochure"]]];
     Extract.spec_rows := Ok []; Extract.dl_elements := Ok [];
     Extract.text_elements := Ok [] |}.


(** A page whose only table has a single row, gone stale when its cells
    are queried. *)
Definition stale_table_document : Extract.document :=
  {| Extract.spec_tables := Ok [Ok [Raise OtherException]];
     Extract.all_tables := Ok [];
     Extract.spec_rows := Ok []; Extract.dl_elements := Ok [];
     Extract.text_elements := Ok [] |}.

(** A fetcher that always raises. *)
Definition unreachable_site : str -> str -> outcome fetch_result :=
  fun _ _ => Raise OtherException.

(** A run on a file that has the identifier column and no record. *)
Definition empty_table_env : Process.env :=
  {| Process.selected_file := Some (lit "models.csv");
     Process.prefix_input := lit "605";
     Process.hook_results := Some [Process.HookOther];
     Process.load_file_data :=
       inr {| Process.columns := [lit "Mfr Model"; lit "Brand"];
              Process.records := [] |};
     Process.config := None;
     Process.makedirs := None;
     Process.save_outcome := fun _ => Process.Written;
     Process.scrape := unreachable_site;
     Process.running_at := fun _ => true |}.

(** A run on a file whose second record has no identifier. *)
Definition blank_row_env : Process.env :=
  {| Process.selected_file := Some (lit "models.csv");
     Process.prefix_input := lit "605";
     Process.hook_results := None;
     Process.load_file_data :=
       inr {| Process.columns := [lit "Mfr Model"];
              Process.records :=
                [[Process.CellStr (lit "ABC123")]; [Process.CellNaN]] |};
     Process.config := None;
     Process.makedirs := None;
     Process.save_outcome := fun _ => Process.Written;
     Process.scrape := unreachable_site;
     Process.running_at := fun _ => true |}.

(** A product page with a specification table. *)
Definition griddle_page : Scrape.page :=
  {| Scrape.load := Ok tt; Scrape.driver_title := Ok (lit "KaTom");
     Scrape.title_wait := Ok tt;
     Scrape.title_element := Ok (lit "Griddle X");
     Scrape.tab_content := Ok [lit "A griddle."];
     Scrape.doc :=
       {| Extract.spec_tables :=
            Ok [plain_table [[lit "Weight"; lit "22.93 lbs"];
                             [lit "Voltage"; lit "120"]]];
          Extract.all_tables := Ok [];
          Extract.spec_rows := Ok []; Extract.dl_elements := Ok [];
          Extract.text_elements := Ok [] |};
     Scrape.mp4_sources := Ok []; Scrape.videos := Ok [];
     Scrape.page_source_mp4 := Ok [] |}.

Definition griddle_browser : Scrape.browser :=
  {| Scrape.chrome := Ok tt; Scrape.get := fun _ => griddle_page |}.

(* ===================================================================== *)
(** * Vocabulary of the further properties *)
(* ===================================================================== *)

(** A character of a cleaned model number: a digit or an upper-case
    letter. *)
Definition is_model_char (c : ascii) : bool := is_digit c || is_upper c.

(** The page title makes [scrape_katom] take its 404 branch. *)
Definition is_404_title (t : str) : bool :=
  contains "404" t || contains "not found" (lower t).

(** Neither [Finished] nor [Error]. *)
Definition non_terminal (sg : signal) : bool :=
  match sg with
  | Finished | Error _ => false
  | _ => true
  end.

(** A product page whose heading element holds only spaces. *)
Definition blank_heading_page : Scrape.page :=
  {| Scrape.load := Ok tt; Scrape.driver_title := Ok (lit "KaTom");
     Scrape.title_wait := Ok tt;
     Scrape.title_element := Ok (lit "   ");
     Scrape.tab_content := Ok [lit "A griddle."];
     Scrape.doc := empty_document;
     Scrape.mp4_sources := Ok []; Scrape.videos := Ok [];
     Scrape.page_source_mp4 := Ok [] |}.

Definition blank_heading_browser : Scrape.browser :=
  {| Scrape.chrome := Ok tt; Scrape.get := fun _ => blank_heading_page |}.

Module Keys.

Import Extract.

(** The keys of a mapping are pairwise different, lower-cased and not
    empty. *)
Definition well_keyed (d : dict) : Prop :=
  NoDup (map fst d)
  /\ forall k, In k (map fst d) -> lower k = k /\ k <> [].







End Keys.



(** No character of [s] is [c]. *)
Definition free_of (c : ascii) (s : str) : bool :=
  forallb (fun x => negb (Ascii.eqb x c)) s.

Module Links.

Import Extract.

(** The text that [scrape_katom] builds from the links [ls]: each link
    followed by a line feed. *)
Definition lines (ls : list str) : str :=
  List.concat (map (fun l => l ++ [newline]) ls).

(** The links separated by line feeds, without a final one. *)
Fixpoint join (ls : list str) : str :=
  match ls with
  | [] => []
  | [l] => l
  | l :: rest => l ++ newline :: join rest
  end.

(** No white space in [l]. *)
Definition spaceless (l : str) : bool :=
  forallb (fun c => negb (is_space c)) l.

(** A link as a browser reports it: not empty and without white space. *)
Definition clean (l : str) : bool := nonempty l && spaceless l.

(** The [src] attributes that are present. *)
Definition present (srcs : list (option str)) : list str :=
  flat_map (fun o => match o with Some l => [l] | None => [] end) srcs.

End Links.

(** A product page with four [source] elements: one without [src], two with
    the same address and one with another address. *)
Definition repeated_sources : list (option str) :=
  [ None; Some (lit "https://cdn.example.com/a.mp4");
    Some (lit "https://cdn.example.com/b.mp4");
    Some (lit "https://cdn.example.com/a.mp4") ].

Definition repeated_sources_page : Scrape.page :=
  {| Scrape.load := Ok tt; Scrape.driver_title := Ok (lit "KaTom");
     Scrape.title_wait := Ok tt;
     Scrape.title_element := Ok (lit "Griddle X");
     Scrape.tab_content := Ok [lit "A griddle."];
     Scrape.doc := empty_document;
     Scrape.mp4_sources := Ok repeated_sources;
     Scrape.videos := Raise OtherException;
     Scrape.page_source_mp4 := Raise OtherException |}.

Module Table.

Import Extract Process.



(** The signals that end a run. *)
Definition terminal_tail (t : list signal) : bool :=
  match t with
  | [Finished] | [Error _] => true
  | _ => false
  end.




End Table.

(** A fetcher on top of [griddle_browser] that finds every model but
    [GONE]. *)
Definition griddle_site : str -> str -> outcome fetch_result :=
  fun model prefix =>
    if Py.eqb model "GONE" then Ok Scrape.defaults
    else Ok (fst (Scrape.scrape_katom griddle_browser model prefix
                                      Scrape.no_session)).



(** A run over the same file in which the last save, the one after the
    second row of the table, leaves the file as it was. *)
Definition failed_save_env : Process.env :=
  {| Process.selected_file := Some (lit "models.csv");
     Process.prefix_input := lit "123";
     Process.hook_results := None;
     Process.load_file_data :=
       inr {| Process.columns := [lit "Mfr Model"];
              Process.records :=
                [ [Process.CellStr (lit "ABC123")];
                  [Process.CellStr (lit "GONE")];
                  [Process.CellNaN] ] |};
     Process.config := None;
     Process.makedirs := None;
     Process.save_outcome :=
       fun k => if (k =? 2)%nat then Process.Unchanged else Process.Written;
     Process.scrape := griddle_site;
     Process.running_at := fun _ => true |}.

(** A fetch result whose specs hold a [type] entry. *)
Definition typed_result : fetch_result :=
  {| title := lit "Fryer X"; description := lit "<p>A fryer.</p>";
     specs_data := [(lit "type", lit "Gas"); (lit "heat", lit "Propane")];
     specs_html := []; video_links := [] |}.

Module Notices.

(** The status notifications that go with one fetch of an alternative
    prefix. *)
Definition attempt_notices (a : str * fetch_result) : list signal :=
  UpdateStatus (lit "Trying prefix: " ++ fst a)
  :: (if found (title (snd a))
      then [UpdateStatus (lit "Found match with prefix: " ++ fst a)]
      else []).

(** The status notifications that go with the fetch log of one retry: the
    primary fetch first, then the alternatives. *)
Definition retry_notices (log : list (str * fetch_result)) : list signal :=
  match log with
  | [] => []
  | (_, r0) :: alts =>
      if not_found (title r0)
      then UpdateStatus "Primary prefix failed, trying alternatives..."
             :: flat_map attempt_notices alts
      else []
  end.

End Notices.

(** A listing of the Web folder: two tables, a directory, an output of an
    earlier run and a text file. *)
Definition web_folder_listing : list Files.dir_entry :=
  [ {| Files.entry_name := lit "Vulcan-229.xlsx"; Files.is_file := true |};
    {| Files.entry_name := lit "Completed"; Files.is_file := false |};
    {| Files.entry_name := lit "Globe-605.csv"; Files.is_file := true |};
    {| Files.entry_name := lit "final_Globe-605.csv.xlsx";
       Files.is_file := true |};
    {| Files.entry_name := lit "notes.txt"; Files.is_file := true |} ].

Module Queue.

Import Window.

(** The queue that [start_all] builds from the rows of [w]. *)
Definition queue_of (w : main_window) : list nat := valid_from 0 (rows w).

(** A progress or status signal of some row. *)
Definition is_notice (ev : event) : bool :=
  match ev with
  | FromRow _ (UpdateProgress _ _) | FromRow _ (UpdateStatus _) => true
  | _ => false
  end.

(** The events of [evs] that are no progress or status signals. *)
Definition decisive (evs : list event) : list event :=
  filter (fun ev => negb (is_notice ev)) evs.

(** The [finished] signals of the rows [q], in order. *)
Definition finished_signals (q : list nat) : list event :=
  map (fun i => FromRow i Finished) q.

(** A signal of a worker or a timer: no click. *)
Definition is_late (ev : event) : bool :=
  match ev with
  | FromRow _ _ | TimerFires => true
  | _ => false
  end.

(** What the queue reads of a row and what tells a started row. *)
Definition core (r : sheet_row) : bool * bool * nat * str * str :=
  (Row.running (ui r), Row.completed (ui r), threads r, file_text r,
   prefix_text r).

(** The row at position [j] of the queue when the rows before position [k]
    are done, the row at position [k] is running and the rows after it have
    not been started; [r0] is the row before [start_all]. *)
Definition row_state (k j : nat) (r0 r : sheet_row) : Prop :=
  Row.running (ui r) = (j =? k)%nat
  /\ Row.completed (ui r) = (j <? k)%nat
  /\ threads r = threads r0 + (if (j <=? k)%nat then 1 else 0)
  /\ file_text r = file_text r0
  /\ prefix_text r = prefix_text r0.

(** The window when the queue built from [w0] has got to position [k]. *)
Definition in_progress (w0 : main_window) (k : nat) (w : main_window)
  : Prop :=
  processing_queue w = queue_of w0
  /\ current_processing_index w = Z.of_nat k
  /\ stop_all_enabled w = true
  /\ start_all_enabled w = false
  /\ forall j i,
      nth_error (queue_of w0) j = Some i ->
      exists r0 r,
        nth_error (rows w0) i = Some r0
        /\ nth_error (rows w) i = Some r
        /\ row_state k j r0 r.

(** The window when every row of the queue built from [w0] is done. *)
Definition all_done (w0 w : main_window) : Prop :=
  status_label w = lit "All processing completed"
  /\ start_all_enabled w = true
  /\ stop_all_enabled w = false
  /\ forall i,
      In i (queue_of w0) ->
      exists r0 r,
        nth_error (rows w0) i = Some r0
        /\ nth_error (rows w) i = Some r
        /\ Row.running (ui r) = false
        /\ Row.completed (ui r) = true
        /\ threads r = S (threads r0).

(** The window when the queue built from [w0] is stuck at position [k]: no
    row of the queue is running, the rows after position [k] have not been
    started, and Start All is still disabled. *)
Definition stalled (w0 : main_window) (k : nat) (w : main_window) : Prop :=
  start_all_enabled w = false
  /\ stop_all_enabled w = true
  /\ current_processing_index w = Z.of_nat k
  /\ forall j i,
      nth_error (queue_of w0) j = Some i ->
      exists r0 r,
        nth_error (rows w0) i = Some r0
        /\ nth_error (rows w) i = Some r
        /\ Row.running (ui r) = false
        /\ threads r = threads r0 + (if (j <=? k)%nat then 1 else 0).

(** The window after Stop All, [w0] being the window before it: nothing
    runs, nothing was started since, and the buttons are back. *)
Definition stopped (w0 w : main_window) : Prop :=
  start_all_enabled w = true
  /\ stop_all_enabled w = false
  /\ processing_queue w = []
  /\ map threads (rows w) = map threads (rows w0)
  /\ Forall (fun r => Row.running (ui r) = false) (rows w).

End Queue.

(** A window with three rows, the second without a prefix. *)
Definition idle_row (file prefix : str) : Window.sheet_row :=
  {| Window.ui :=
       {| Row.running := false; Row.completed := false;
          Row.start_enabled := true; Row.stop_enabled := false;
          Row.status_label := lit "Ready"; Row.progress := (0%Z, 0%Z);
          Row.warnings := [] |};
     Window.file_text := file; Window.prefix_text := prefix;
     Window.controls_enabled := true; Window.threads := 0 |}.

Definition three_rows : Window.main_window :=
  {| Window.rows :=
       [ idle_row "Globe-605.csv" "605"; idle_row "Vulcan-229.xlsx" "  ";
         idle_row "Hobart-132.csv" "132" ];
     Window.processing_queue := [];
     Window.current_processing_index := (-1)%Z;
     Window.start_all_enabled := true; Window.stop_all_enabled := false;
     Window.status_label := lit "Ready"; Window.warnings := [];
     Window.timers := 0 |}.

(* ===================================================================== *)
(** * Properties *)
(* ===================================================================== *)

(* --------------------------------------------------------------------- *)
(** ** Strings *)
(* --------------------------------------------------------------------- *)

Section SpanFacts.

Variable p : ascii -> bool.

Lemma span_all (s : str) :
  forallb p s = true -> span p s = (s, []).
Proof.
  induction s as [|c t IH]; simpl; intros H; [reflexivity|].
  apply andb_prop in H. destruct H as [Hc Ht].
  rewrite Hc, (IH Ht). reflexivity.
Qed.

Lemma span_stop (a : str) (c : ascii) (b : str) :
  forallb p a = true -> p c = false -> span p (a ++ c :: b) = (a, c :: b).
Proof.
  induction a as [|x a IH]; simpl; intros Ha Hc.
  - rewrite Hc. reflexivity.
  - apply andb_prop in Ha. destruct Ha as [Hx Ha].
    rewrite Hx, (IH Ha Hc). reflexivity.
Qed.

Lemma span_app (s : str) :
  forall a b, span p s = (a, b) -> s = a ++ b.
Proof.
  induction s as [|c t IH]; simpl; intros a b H.
  - injection H as <- <-. reflexivity.
  - destruct (p c).
    + destruct (span p t) as [a' b'] eqn:E. injection H as <- <-.
      simpl. f_equal. apply IH. reflexivity.
    + injection H as <- <-. reflexivity.
Qed.

Lemma span_fst_all (s : str) :
  forall a b, span p s = (a, b) -> forallb p a = true.
Proof.
  induction s as [|c t IH]; simpl; intros a b H.
  - injection H as <- <-. reflexivity.
  - destruct (p c) eqn:Hc.
    + destruct (span p t) as [a' b'] eqn:E. injection H as <- <-.
      simpl. rewrite Hc. simpl. eapply IH. reflexivity.
    + injection H as <- <-. reflexivity.
Qed.

Lemma span_snd_head (s : str) :
  forall a c b, span p s = (a, c :: b) -> p c = false.
Proof.
  induction s as [|x t IH]; simpl; intros a c b H.
  - discriminate.
  - destruct (p x) eqn:Hx.
    + destruct (span p t) as [a' b'] eqn:E. injection H as <- ->.
      eapply IH. reflexivity.
    + injection H as _ <- <-. exact Hx.
Qed.

End SpanFacts.

Lemma is_digit_char (c : ascii) :
  is_digit c = true ->
  forall d, exists d', uint_of_char c (Some d) = Some d' /\ d' <> Decimal.Nil.
Proof.
  destruct c as [[] [] [] [] [] [] [] []]; try discriminate; intros _ d;
    eexists; (split; [reflexivity | discriminate]).
Qed.

Lemma digits_uint (s : str) :
  forallb is_digit s = true ->
  exists d, NilEmpty.uint_of_string (string_of_list_ascii s) = Some d.
Proof.
  induction s as [|c t IH]; simpl; intros H.
  - eexists. reflexivity.
  - apply andb_prop in H. destruct H as [Hc Ht].
    destruct (IH Ht) as [d Hd]. rewrite Hd.
    destruct (is_digit_char c Hc d) as [d' [Hd' _]]. eauto.
Qed.

Lemma digits_value_total (s : str) :
  forallb is_digit s = true -> exists n, digits_value s = Some n.
Proof.
  intros H. destruct (digits_uint s H) as [d Hd].
  unfold digits_value. rewrite Hd. simpl. eauto.
Qed.

Section StripFacts.

Variable p : ascii -> bool.

Lemma lstrip_forallb (s : str) :
  forallb p s = true -> forallb p (lstrip s) = true.
Proof.
  induction s as [|c t IH]; intros H; [reflexivity|].
  cbn [lstrip]. destruct (is_space c); [|exact H].
  cbn [forallb] in H. apply andb_prop in H. apply IH, H.
Qed.

Lemma rev_forallb (s : str) :
  forallb p s = true -> forallb p (rev s) = true.
Proof.
  intros H. apply forallb_forall. intros c Hc.
  apply in_rev in Hc. rewrite forallb_forall in H. apply H, Hc.
Qed.

Lemma strip_forallb (s : str) :
  forallb p s = true -> forallb p (strip s) = true.
Proof.
  intros H. unfold strip, rstrip.
  apply rev_forallb, lstrip_forallb, rev_forallb, lstrip_forallb, H.
Qed.

End StripFacts.

Lemma lstrip_left_trimmed (s : str) : left_trimmed (lstrip s) = true.
Proof.
  induction s as [|c t IH]; [reflexivity|].
  cbn [lstrip]. destruct (is_space c) eqn:E; [exact IH|].
  cbn [left_trimmed]. rewrite E. reflexivity.
Qed.

Lemma lstrip_fixed (s : str) : left_trimmed s = true -> lstrip s = s.
Proof.
  destruct s as [|c t]; [reflexivity|]. cbn [left_trimmed lstrip].
  intros H. apply negb_true_iff in H. rewrite H. reflexivity.
Qed.

Lemma lstrip_keeps_last (a : str) (c : ascii) :
  is_space c = false -> lstrip (a ++ [c]) = lstrip a ++ [c].
Proof.
  intros Hc. induction a as [|x a IH]; cbn [app lstrip].
  - rewrite Hc. reflexivity.
  - destruct (is_space x); [exact IH | reflexivity].
Qed.

Lemma rstrip_left_trimmed (s : str) :
  left_trimmed s = true -> left_trimmed (rstrip s) = true.
Proof.
  destruct s as [|c t]; [reflexivity|]. cbn [left_trimmed]. intros Hc.
  apply negb_true_iff in Hc. unfold rstrip. cbn [rev].
  rewrite (lstrip_keeps_last (rev t) c Hc), rev_app_distr. cbn [rev app].
  cbn [left_trimmed]. rewrite Hc. reflexivity.
Qed.

Lemma strip_involutive (s : str) : strip (strip s) = strip s.
Proof.
  unfold strip at 1.
  assert (Hl : left_trimmed (strip s) = true).
  { unfold strip. apply rstrip_left_trimmed, lstrip_left_trimmed. }
  rewrite (lstrip_fixed _ Hl). unfold strip, rstrip.
  rewrite rev_involutive.
  rewrite (lstrip_fixed _ (lstrip_left_trimmed (rev (lstrip s)))).
  reflexivity.
Qed.

Lemma strip_after_space (u : str) : strip (" "%char :: u) = strip u.
Proof. reflexivity. Qed.

Lemma uint_text_digits (d : Decimal.uint) :
  forallb is_digit (list_ascii_of_string (NilEmpty.string_of_uint d)) = true.
Proof. induction d; cbn; auto. Qed.

Lemma uint_text_nonempty (d : Decimal.uint) :
  d <> Decimal.Nil ->
  list_ascii_of_string (NilEmpty.string_of_uint d) <> [].
Proof. destruct d; intros H; try discriminate. contradiction. Qed.

Lemma str_of_Z_pos (p : positive) :
  str_of_Z (Zpos p)
  = list_ascii_of_string (NilEmpty.string_of_uint (Pos.to_uint p)).
Proof.
  unfold str_of_Z. cbn [Z.to_int NilZero.string_of_int].
  unfold NilZero.string_of_uint.
  destruct (Pos.to_uint p) eqn:E; try reflexivity.
  exfalso. exact (DecimalPos.Unsigned.to_uint_nonnil p E).
Qed.

(** The decimal text of a positive integer: digits only, not empty, and
    read back as the same number. *)
Lemma str_of_Z_digits (z : Z) :
  (0 < z)%Z ->
  forallb is_digit (str_of_Z z) = true
  /\ str_of_Z z <> []
  /\ digits_value (str_of_Z z) = Some (Z.to_N z).
Proof.
  intros Hz. destruct z as [|p|p]; try lia.
  rewrite str_of_Z_pos. split; [apply uint_text_digits|]. split.
  - apply uint_text_nonempty, DecimalPos.Unsigned.to_uint_nonnil.
  - unfold digits_value. rewrite string_of_list_ascii_of_string.
    rewrite NilEmpty.usu. cbn [option_map Z.to_N]. f_equal.
    apply DecimalPos.Unsigned.of_to.
Qed.

Lemma str_of_Z_inj (a b : Z) :
  (0 < a)%Z -> (0 < b)%Z -> str_of_Z a = str_of_Z b -> a = b.
Proof.
  intros Ha Hb H.
  destruct (str_of_Z_digits a Ha) as [_ [_ Da]].
  destruct (str_of_Z_digits b Hb) as [_ [_ Db]].
  rewrite H, Db in Da. injection Da as Da. lia.
Qed.

Lemma py_eqb_eq (a b : str) : Py.eqb a b = true <-> a = b.
Proof.
  unfold Py.eqb. destruct (list_eq_dec ascii_dec a b); split; intros H;
    congruence.
Qed.

Lemma py_eqb_refl (a : str) : Py.eqb a a = true.
Proof. apply py_eqb_eq. reflexivity. Qed.

Lemma lower_char_involutive (c : ascii) :
  lower_char (lower_char c) = lower_char c.
Proof. destruct c as [[] [] [] [] [] [] [] []]; reflexivity. Qed.

Lemma lower_involutive (s : str) : lower (lower s) = lower s.
Proof.
  unfold lower. rewrite map_map. apply map_ext. exact lower_char_involutive.
Qed.

(* --------------------------------------------------------------------- *)
(** ** Substrings *)
(* --------------------------------------------------------------------- *)

Lemma startswith_app (p s : str) : startswith p (p ++ s) = true.
Proof.
  induction p as [|c p IH]; simpl; [reflexivity|].
  rewrite Ascii.eqb_refl. exact IH.
Qed.

Lemma contains_here (sub s : str) :
  startswith sub s = true -> contains sub s = true.
Proof. intros H. destruct s; simpl in *; rewrite H; reflexivity. Qed.

Lemma contains_skip (sub a s : str) :
  contains sub s = true -> contains sub (a ++ s) = true.
Proof.
  intros H. induction a as [|c a IH]; simpl; [exact H|].
  rewrite IH. apply orb_true_r.
Qed.

Lemma contains_middle (a sub b : str) : contains sub (a ++ sub ++ b) = true.
Proof. apply contains_skip, contains_here, startswith_app. Qed.

(* --------------------------------------------------------------------- *)
(** ** Dictionaries *)
(* --------------------------------------------------------------------- *)

Lemma dict_in_set (key value : str) (d : dict) (k v : str) :
  In (k, v) (Dict.set key value d) -> (k = key /\ v = value) \/ In (k, v) d.
Proof.
  induction d as [|[k0 v0] d IH]; cbn [Dict.set].
  - intros [[= <- <-] | []]. auto.
  - destruct (Py.eqb k0 key) eqn:E.
    + apply py_eqb_eq in E. subst k0.
      intros [[= <- <-] | H]; [auto | right; right; exact H].
    + intros [H | H]; [right; left; exact H|].
      destruct (IH H) as [H' | H']; [auto | right; right; exact H'].
Qed.

Lemma dict_in_set_if_absent (key value : str) (d : dict) (k v : str) :
  In (k, v) (Dict.set_if_absent key value d) ->
  (k = key /\ v = value) \/ In (k, v) d.
Proof.
  unfold Dict.set_if_absent. destruct (Dict.mem key d); [auto|].
  apply dict_in_set.
Qed.

Lemma dict_get_set_same (key value : str) (d : dict) :
  Dict.get key (Dict.set key value d) = Some value.
Proof.
  induction d as [|[k0 v0] d IH]; cbn [Dict.set Dict.get].
  - rewrite py_eqb_refl. reflexivity.
  - destruct (Py.eqb k0 key) eqn:E; cbn [Dict.get]; rewrite E;
      [reflexivity | exact IH].
Qed.

Lemma dict_get_set_other (key key' value : str) (d : dict) :
  key' <> key -> Dict.get key (Dict.set key' value d) = Dict.get key d.
Proof.
  intros Hne.
  assert (Hk : Py.eqb key' key = false).
  { destruct (Py.eqb key' key) eqn:E; [|reflexivity].
    apply py_eqb_eq in E. contradiction. }
  induction d as [|[k0 v0] d IH]; cbn [Dict.set Dict.get].
  - rewrite Hk. reflexivity.
  - destruct (Py.eqb k0 key') eqn:E; cbn [Dict.get].
    + apply py_eqb_eq in E. subst k0. rewrite Hk. reflexivity.
    + destruct (Py.eqb k0 key); [reflexivity | exact IH].
Qed.

(* --------------------------------------------------------------------- *)
(** ** The weight normalizer *)
(* --------------------------------------------------------------------- *)

Lemma span_digits_then (ip rest : str) :
  forallb is_digit ip = true -> starts_with_digit rest = false ->
  span is_digit (ip ++ rest) = (ip, rest).
Proof.
  intros Hip Hr. destruct rest as [|c r].
  - rewrite app_nil_r. apply span_all. exact Hip.
  - apply span_stop; assumption.
Qed.

Lemma dot_not_digit : is_digit "."%char = false.
Proof. reflexivity. Qed.

Lemma match_number_token (ip fp post : str) :
  ip <> [] -> forallb is_digit ip = true -> forallb is_digit fp = true ->
  extends_token fp post = false ->
  match_number (token_text ip fp ++ post) = Some (token_text ip fp).
Proof.
  intros Hne Hip Hfp Hext. unfold extends_token in Hext.
  apply orb_false_elim in Hext. destruct Hext as [Hpost Hdot].
  unfold match_number, token_text. rewrite <- app_assoc.
  destruct fp as [|d fp'].
  - simpl app. rewrite (span_digits_then ip post Hip Hpost).
    destruct ip as [|i0 ip']; [contradiction|].
    rewrite app_nil_r.
    destruct post as [|c r]; [reflexivity|].
    destruct (Ascii.eqb c "."%char) eqn:Ec; [|reflexivity].
    simpl in Hdot.
    destruct r as [|c' r']; simpl; [reflexivity|].
    simpl in Hdot. rewrite Hdot. reflexivity.
  - rewrite <- app_comm_cons.
    rewrite (span_stop is_digit ip "."%char ((d :: fp') ++ post) Hip dot_not_digit).
    destruct ip as [|i0 ip']; [contradiction|].
    rewrite Ascii.eqb_refl.
    rewrite (span_digits_then (d :: fp') post Hfp Hpost).
    reflexivity.
Qed.

Lemma match_number_no_digit_head (c : ascii) (s : str) :
  is_digit c = false -> match_number (c :: s) = None.
Proof. intros H. unfold match_number. simpl. rewrite H. reflexivity. Qed.

Lemma search_number_eq (s : str) :
  search_number s =
  match match_number s with
  | Some m => Some m
  | None => match s with [] => None | _ :: t => search_number t end
  end.
Proof. destruct s; reflexivity. Qed.

Lemma search_number_token (pre ip fp post : str) :
  no_digit pre = true ->
  ip <> [] -> forallb is_digit ip = true -> forallb is_digit fp = true ->
  extends_token fp post = false ->
  search_number (pre ++ token_text ip fp ++ post) = Some (token_text ip fp).
Proof.
  intros Hpre Hne Hip Hfp Hext.
  induction pre as [|c pre IH].
  - simpl app. rewrite search_number_eq.
    rewrite (match_number_token ip fp post Hne Hip Hfp Hext). reflexivity.
  - simpl in Hpre. apply andb_prop in Hpre. destruct Hpre as [Hc Hpre].
    apply negb_true_iff in Hc.
    simpl app. rewrite search_number_eq.
    rewrite (match_number_no_digit_head c _ Hc).
    apply IH. exact Hpre.
Qed.

Lemma search_number_none (s : str) :
  no_digit s = true -> search_number s = None.
Proof.
  induction s as [|c t IH]; intros H; [reflexivity|].
  simpl in H. apply andb_prop in H. destruct H as [Hc Ht].
  apply negb_true_iff in Hc. rewrite search_number_eq.
  rewrite (match_number_no_digit_head c t Hc). apply IH. exact Ht.
Qed.

Lemma digits_value_nil : digits_value [] = Some 0%N.
Proof. reflexivity. Qed.

Section DoubleFacts.

Local Open Scope Z_scope.

Lemma binary_exponent_bounds (n d : Z) :
  Z.log2 n - Z.log2 d - 1 <= binary_exponent n d <= Z.log2 n - Z.log2 d.
Proof. unfold binary_exponent. destruct (ge_pow2 n d _); lia. Qed.

Lemma binary_exponent_le (n d : Z) :
  0 < n -> 0 < d -> ge_pow2 n d (binary_exponent n d) = true.
Proof.
  intros Hn Hd. unfold binary_exponent.
  destruct (ge_pow2 n d (Z.log2 n - Z.log2 d)) eqn:E; [exact E|].
  destruct (Z.log2_spec n Hn) as [Hn1 Hn2].
  destruct (Z.log2_spec d Hd) as [Hd1 Hd2].
  assert (Ha := Z.log2_nonneg n). assert (Hb := Z.log2_nonneg d).
  set (a := Z.log2 n) in *. set (b := Z.log2 d) in *.
  unfold ge_pow2. destruct (0 <=? a - b - 1) eqn:Es.
  - apply Z.leb_le in Es. apply Z.leb_le.
    replace a with ((b + 1) + (a - b - 1)) in Hn1 by lia.
    rewrite Z.pow_add_r in Hn1 by lia.
    assert (0 < 2 ^ (a - b - 1)) by (apply Z.pow_pos_nonneg; lia).
    nia.
  - apply Z.leb_gt in Es. apply Z.leb_le.
    replace (- (a - b - 1)) with (b + 1 - a) by lia.
    assert (H2 : 2 ^ (Z.succ b) = 2 ^ a * 2 ^ (b + 1 - a)).
    { rewrite <- Z.pow_add_r by lia. f_equal; lia. }
    assert (0 < 2 ^ (b + 1 - a)) by (apply Z.pow_pos_nonneg; lia).
    nia.
Qed.

(** The rounded quotient stays between two integers that enclose the
    quotient, and leaves the lower one as soon as the quotient is more
    than a half above it. *)
Lemma round_half_even_between (num den lo hi : Z) :
  0 < den ->
  lo * den <= num <= hi * den ->
  lo <= round_half_even num den <= hi.
Proof.
  intros Hden [Hlo Hhi]. unfold round_half_even.
  assert (Hdm := Z.div_mod num den ltac:(lia)).
  assert (Hr := Z.mod_pos_bound num den Hden).
  set (m := num / den) in *. set (r := num mod den) in *.
  assert (lo <= m) by nia.
  assert (m <= hi) by nia.
  assert (0 < r -> m + 1 <= hi) by nia.
  destruct (2 * r <? den) eqn:E1; [lia|].
  apply Z.ltb_ge in E1.
  destruct (den <? 2 * r) eqn:E2; [lia|].
  destruct (Z.even m); lia.
Qed.

Lemma round_half_even_above (num den lo : Z) :
  0 < den ->
  2 * (num - lo * den) > den ->
  lo < round_half_even num den.
Proof.
  intros Hden Hgap. unfold round_half_even.
  assert (Hdm := Z.div_mod num den ltac:(lia)).
  assert (Hr := Z.mod_pos_bound num den Hden).
  set (m := num / den) in *. set (r := num mod den) in *.
  assert (lo <= m) by nia.
  destruct (Z.eq_dec m lo) as [-> | Hne].
  - assert (den < 2 * r) by nia.
    destruct (2 * r <? den) eqn:E1; [apply Z.ltb_lt in E1; lia|].
    destruct (den <? 2 * r) eqn:E2; [lia | apply Z.ltb_ge in E2; lia].
  - destruct (2 * r <? den); [lia|].
    destruct (den <? 2 * r); [lia|]. destruct (Z.even m); lia.
Qed.

Lemma ceiling_div_spec (n d : Z) :
  0 < d -> (ceiling_div n d - 1) * d < n <= ceiling_div n d * d.
Proof.
  intros Hd. unfold ceiling_div.
  assert (Hdm := Z.div_mod (- n) d ltac:(lia)).
  assert (Hr := Z.mod_pos_bound (- n) d Hd). nia.
Qed.

Lemma ceiling_div_unique (n d c : Z) :
  0 < d -> (c - 1) * d < n <= c * d -> ceiling_div n d = c.
Proof.
  intros Hd H. unfold ceiling_div.
  assert (E : - n / d = - c); [|lia].
  symmetry. apply (Z.div_unique_pos (- n) d (- c) (c * d - n)); lia.
Qed.

Lemma Qceiling_Qmake (n : Z) (d : positive) :
  Qceiling (Qmake n d) = ceiling_div n (Zpos d).
Proof. reflexivity. Qed.

(** Below [2^53] the rounding to binary64 does not change the ceiling. *)
Lemma to_double_ceiling (n d : Z) :
  0 <= n < 2 ^ 53 -> 0 < d < 2 ^ 1000 ->
  exists q, to_double n d = Finite q /\ Qceiling q = ceiling_div n d.
Proof.
  intros [Hn0 Hn] [Hd0 Hd]. unfold to_double.
  destruct (n =? 0) eqn:En.
  { apply Z.eqb_eq in En. subst n. exists 0%Q. split; [reflexivity|].
    change (Qceiling 0%Q) with 0. symmetry. apply ceiling_div_unique; lia. }
  apply Z.eqb_neq in En. assert (Hn1 : 0 < n) by lia.
  assert (Hb := binary_exponent_bounds n d).
  assert (Hle := binary_exponent_le n d Hn1 Hd0).
  set (e := binary_exponent n d) in *.
  assert (Ha : 0 <= Z.log2 n < 53).
  { split; [apply Z.log2_nonneg|]. apply Z.log2_lt_pow2; lia. }
  assert (Hlb : 0 <= Z.log2 d < 1000).
  { split; [apply Z.log2_nonneg|]. apply Z.log2_lt_pow2; lia. }
  assert (Hp : Z.max (e - 52) (-1074) = e - 52) by lia.
  rewrite Hp.
  assert (Hc := ceiling_div_spec n d Hd0).
  set (c := ceiling_div n d) in *.
  (* twice the weight of the last bit, inverted, exceeds the denominator *)
  assert (Hs : d < 2 * 2 ^ (52 - e)).
  { change (2 * 2 ^ (52 - e)) with (2 ^ 1 * 2 ^ (52 - e)).
    rewrite <- Z.pow_add_r by lia. replace (1 + (52 - e)) with (53 - e) by lia.
    unfold ge_pow2 in Hle. destruct (0 <=? e) eqn:Ee.
    - apply Z.leb_le in Ee. apply Z.leb_le in Hle.
      assert (E53 : 2 ^ 53 = 2 ^ e * 2 ^ (53 - e)).
      { rewrite <- Z.pow_add_r by lia. f_equal; lia. }
      assert (0 < 2 ^ e) by (apply Z.pow_pos_nonneg; lia).
      assert (0 < 2 ^ (53 - e)) by (apply Z.pow_pos_nonneg; lia).
      nia.
    - apply Z.leb_gt in Ee. apply Z.leb_le in Hle.
      assert (E53 : 2 ^ (53 - e) = 2 ^ 53 * 2 ^ (- e)).
      { rewrite <- Z.pow_add_r by lia. f_equal; lia. }
      assert (0 < 2 ^ (- e)) by (apply Z.pow_pos_nonneg; lia).
      nia. }
  destruct (0 <=? e - 52) eqn:E0.
  - apply Z.leb_le in E0. assert (e = 52) by lia.
    replace (e - 52) with 0 in * by lia.
    replace (52 - e) with 0 in Hs by lia.
    change (2 ^ 0) with 1 in *. rewrite !Z.mul_1_r in *.
    assert (d = 1) by lia. subst d.
    assert (Hm : round_half_even n 1 = n).
    { unfold round_half_even. rewrite Z.mod_1_r, Z.div_1_r. reflexivity. }
    rewrite Hm.
    destruct (2 ^ 1024 <=? n) eqn:Eo.
    { apply Z.leb_le in Eo.
      assert (2 ^ 53 < 2 ^ 1024) by (apply Z.pow_lt_mono_r; lia). lia. }
    exists (inject_Z n). split; [reflexivity|].
    rewrite Qceiling_Z. lia.
  - apply Z.leb_gt in E0.
    replace (- (e - 52)) with (52 - e) by lia.
    set (s := 2 ^ (52 - e)) in *.
    assert (Hs0 : 0 < s) by (apply Z.pow_pos_nonneg; lia).
    set (m := round_half_even (n * s) d).
    exists (Qmake m (Z.to_pos s)). split; [reflexivity|].
    rewrite Qceiling_Qmake, Z2Pos.id by exact Hs0.
    apply ceiling_div_unique; [exact Hs0|].
    assert (Hbt : (c - 1) * s <= m <= c * s).
    { apply round_half_even_between; [exact Hd0 | nia]. }
    assert (Hab : (c - 1) * s < m).
    { apply round_half_even_above; [exact Hd0 | nia]. }
    lia.
Qed.

Lemma round_half_even_nonneg (num den : Z) :
  0 <= num -> 0 < den -> 0 <= round_half_even num den.
Proof.
  intros Hn Hd.
  apply (round_half_even_between num den 0 (num + 1) Hd). nia.
Qed.

(** The [float] of a quotient that is not negative has a ceiling that is
    not negative. *)
Lemma to_double_nonneg (n d : Z) (q : Q) :
  0 <= n -> 0 < d -> to_double n d = Finite q -> 0 <= Qceiling q.
Proof.
  intros Hn Hd. unfold to_double.
  destruct (n =? 0); [intros [= <-]; reflexivity|].
  set (p := Z.max (binary_exponent n d - 52) (-1074)).
  destruct (0 <=? p) eqn:Ep.
  - apply Z.leb_le in Ep.
    assert (Hp : 0 < 2 ^ p) by (apply Z.pow_pos_nonneg; lia).
    assert (Hm := round_half_even_nonneg n (d * 2 ^ p) Hn ltac:(nia)).
    destruct (2 ^ 1024 <=? _); [discriminate|]. intros [= <-].
    rewrite Qceiling_Z. nia.
  - apply Z.leb_gt in Ep.
    assert (Hp : 0 < 2 ^ (- p)) by (apply Z.pow_pos_nonneg; lia).
    assert (Hm := round_half_even_nonneg (n * 2 ^ (- p)) d ltac:(nia) Hd).
    intros [= <-]. rewrite Qceiling_Qmake, Z2Pos.id by exact Hp.
    assert (Hc := ceiling_div_spec (round_half_even (n * 2 ^ (- p)) d)
                    (2 ^ (- p)) Hp).
    nia.
Qed.

End DoubleFacts.

Lemma pow10_pos (k : nat) : (0 < 10 ^ Z.of_nat k)%Z.
Proof. apply Z.pow_pos_nonneg; lia. Qed.

Lemma exactly_read_bounds (i f : N) (fp : str) :
  exactly_read i f fp ->
  (0 <= token_numerator i f fp < 2 ^ 53)%Z
  /\ (0 < token_denominator fp < 2 ^ 1000)%Z.
Proof.
  intros [Hn Hk]. unfold token_numerator, token_denominator in *.
  assert (H10 := pow10_pos (List.length fp)).
  split; [split; [nia | exact Hn]|]. split; [exact H10|].
  apply Z.le_lt_trans with (m := (10 ^ 300)%Z).
  - apply Z.pow_le_mono_r; lia.
  - reflexivity.
Qed.

Lemma py_float_token (ip fp : str) (i f : N) :
  ip <> [] -> forallb is_digit ip = true -> forallb is_digit fp = true ->
  digits_value ip = Some i -> digits_value fp = Some f ->
  py_float (token_text ip fp) = Some (token_float i f fp).
Proof.
  intros Hne Hip Hfp Hi Hf. unfold py_float, token_text.
  destruct fp as [|d fp'].
  - rewrite List.app_nil_r, (span_all is_digit ip Hip), Hi.
    destruct ip as [|i0 ip']; [contradiction|].
    rewrite digits_value_nil in Hf. injection Hf as <-.
    unfold token_float, token_numerator, token_denominator.
    cbn [List.length Z.of_nat]. do 2 f_equal. change (10 ^ 0)%Z with 1%Z. lia.
  - rewrite (span_stop is_digit ip "."%char (d :: fp') Hip dot_not_digit), Hi.
    destruct ip as [|i0 ip']; [contradiction|].
    rewrite Ascii.eqb_refl, Hf. reflexivity.
Qed.

(** The ceiling of the number that a token denotes, on its digits. *)
Lemma token_ceiling (i f : N) (fp : str) :
  digits_value fp = Some f ->
  Qceiling (token_number i f fp)
  = ceiling_div (token_numerator i f fp) (token_denominator fp).
Proof.
  intros Hf. unfold token_number, token_numerator, token_denominator.
  destruct fp as [|d fp'].
  - rewrite digits_value_nil in Hf. injection Hf as <-.
    cbn [List.length Z.of_nat]. change (10 ^ 0)%Z with 1%Z.
    rewrite <- (Qceiling_Z (Z.of_N i)) at 2.
    transitivity (Qceiling (inject_Z (Z.of_N i))).
    + apply Qceiling_comp. unfold Qeq, Qplus, inject_Z. cbn. lia.
    + rewrite Qceiling_Z. symmetry. apply ceiling_div_unique; lia.
  - set (k := List.length (d :: fp')).
    assert (Hk : Zpos (Pos.pow 10 (Pos.of_nat k)) = (10 ^ Z.of_nat k)%Z).
    { rewrite Pos2Z.inj_pow. f_equal. unfold k. cbn [List.length].
      rewrite <- Pos.of_nat_succ, Zpos_P_of_succ_nat. lia. }
    rewrite <- Hk.
    transitivity (Qceiling (Qmake (Z.of_N i * Zpos (Pos.pow 10 (Pos.of_nat k))
                                   + Z.of_N f)
                                  (Pos.pow 10 (Pos.of_nat k)))).
    + apply Qceiling_comp. unfold Qeq, Qplus, inject_Z. cbn [Qnum Qden]. lia.
    + apply Qceiling_Qmake.
Qed.

(** A token that is exactly read: its [float] is finite and has the ceiling
    of the number the token denotes. *)
Lemma token_float_exact (i f : N) (fp : str) :
  digits_value fp = Some f -> exactly_read i f fp ->
  exists q, token_float i f fp = Finite q
            /\ Qceiling q = Qceiling (token_number i f fp).
Proof.
  intros Hf Hr. destruct (exactly_read_bounds i f fp Hr) as [Hn Hd].
  destruct (to_double_ceiling _ _ Hn Hd) as [q [Hq Hc]].
  exists q. split; [exact Hq|]. rewrite Hc. symmetry. apply token_ceiling, Hf.
Qed.

Lemma search_units_eq (s : str) :
  search_units s =
  match match_units s with
  | Some m => Some m
  | None => match s with [] => None | _ :: t => search_units t end
  end.
Proof. destruct s; reflexivity. Qed.

Lemma match_units_tail (tail : str) :
  forallb non_numeric tail = true ->
  match_units tail = match tail with [] => None | _ => Some tail end.
Proof.
  intros H. unfold match_units. rewrite (span_all non_numeric tail H).
  destruct tail; reflexivity.
Qed.

Lemma match_units_blocked (a : str) (c : ascii) (b : str) :
  non_numeric c = false -> match_units (a ++ c :: b) = None.
Proof.
  intros Hc. unfold match_units.
  destruct (span non_numeric (a ++ c :: b)) as [x y] eqn:E.
  destruct y as [|y0 y'].
  - exfalso.
    assert (Hall := span_fst_all non_numeric _ _ _ E).
    assert (Happ := span_app non_numeric _ _ _ E).
    rewrite List.app_nil_r in Happ. rewrite <- Happ in Hall.
    rewrite forallb_app in Hall. apply andb_prop in Hall.
    destruct Hall as [_ Hall]. simpl in Hall. rewrite Hc in Hall.
    discriminate.
  - destruct x; reflexivity.
Qed.

Lemma search_units_tail (mid tail : str) :
  ends_numeric mid = true -> forallb non_numeric tail = true ->
  search_units (mid ++ tail) = match tail with [] => None | _ => Some tail end.
Proof.
  intros Hmid Htail. unfold ends_numeric in Hmid.
  destruct (rev mid) as [|c rm] eqn:E.
  - apply (f_equal (@rev ascii)) in E. rewrite rev_involutive in E.
    subst mid. simpl app. rewrite search_units_eq, (match_units_tail tail Htail).
    destruct tail; reflexivity.
  - apply (f_equal (@rev ascii)) in E. rewrite rev_involutive in E.
    simpl in E. subst mid. apply negb_true_iff in Hmid.
    rewrite <- app_assoc. simpl app.
    induction (rev rm) as [|x m IH].
    + rewrite search_units_eq.
      rewrite (match_units_blocked [] c tail Hmid).
      change (search_units tail =
              match tail with [] => None | _ => Some tail end).
      rewrite search_units_eq, (match_units_tail tail Htail).
      destruct tail; reflexivity.
    + rewrite search_units_eq.
      rewrite (match_units_blocked (x :: m) c tail Hmid). exact IH.
Qed.

Lemma units_of_tail (mid tail : str) :
  ends_numeric mid = true -> forallb non_numeric tail = true ->
  units_of (mid ++ tail) = strip tail.
Proof.
  intros Hmid Htail. unfold units_of.
  rewrite (search_units_tail mid tail Hmid Htail).
  destruct tail; reflexivity.
Qed.

Lemma digit_is_numeric (s : str) :
  forallb is_digit s = true -> s <> [] -> ends_numeric s = true.
Proof.
  intros H Hne. unfold ends_numeric.
  destruct (rev s) as [|c r] eqn:E.
  - reflexivity.
  - assert (Hin : In c s) by (apply in_rev; rewrite E; left; reflexivity).
    rewrite forallb_forall in H. specialize (H c Hin).
    unfold non_numeric. rewrite H. reflexivity.
Qed.

Lemma ends_numeric_app (a b : str) :
  b <> [] -> ends_numeric b = true -> ends_numeric (a ++ b) = true.
Proof.
  intros Hne H. unfold ends_numeric in *. rewrite rev_app_distr.
  destruct (rev b) as [|c r] eqn:E.
  - apply (f_equal (@rev ascii)) in E. rewrite rev_involutive in E.
    contradiction.
  - exact H.
Qed.

Lemma token_text_ends_numeric (ip fp : str) :
  ip <> [] -> forallb is_digit ip = true -> forallb is_digit fp = true ->
  token_text ip fp <> [] /\ ends_numeric (token_text ip fp) = true.
Proof.
  intros Hne Hip Hfp. unfold token_text. split.
  - destruct ip; [contradiction | discriminate].
  - destruct fp as [|d fp'].
    + rewrite List.app_nil_r. apply digit_is_numeric; assumption.
    + change ("."%char :: d :: fp') with (["."%char] ++ (d :: fp')).
      rewrite app_assoc. apply ends_numeric_app; [discriminate|].
      apply digit_is_numeric; [assumption | discriminate].
Qed.

Lemma match_number_float (s t : str) :
  match_number s = Some t -> exists q, py_float t = Some q.
Proof.
  unfold match_number. destruct (span is_digit s) as [ip r] eqn:E.
  assert (Hip := span_fst_all is_digit _ _ _ E).
  destruct ip as [|i0 ip']; [discriminate|].
  destruct (digits_value_total _ Hip) as [i Hi].
  assert (Hplain : exists q, py_float (i0 :: ip') = Some q).
  { unfold py_float. rewrite (span_all is_digit _ Hip), Hi. eauto. }
  destruct r as [|dot r']; [intros [= <-]; exact Hplain|].
  destruct (Ascii.eqb dot "."%char) eqn:Ed; [|intros [= <-]; exact Hplain].
  destruct (span is_digit r') as [fp rest] eqn:E'.
  assert (Hfp := span_fst_all is_digit _ _ _ E').
  destruct fp as [|d fp']; [intros [= <-]; exact Hplain|].
  intros [= <-]. apply Ascii.eqb_eq in Ed. subst dot.
  destruct (digits_value_total _ Hfp) as [f Hf].
  assert (Hs := span_stop is_digit (i0 :: ip') "."%char (d :: fp') Hip
                  dot_not_digit).
  simpl app in Hs. unfold py_float. rewrite Hs, Hi, Ascii.eqb_refl, Hf. eauto.
Qed.

Lemma search_number_float (s t : str) :
  search_number s = Some t -> exists q, py_float t = Some q.
Proof.
  induction s as [|c s IH]; rewrite search_number_eq.
  - destruct (match_number []) eqn:E; [|discriminate].
    intros [= <-]. eapply match_number_float. exact E.
  - destruct (match_number (c :: s)) eqn:E.
    + intros [= <-]. eapply match_number_float. exact E.
    + exact IH.
Qed.

Lemma span_not_all (p : ascii -> bool) (s : str) :
  forallb p s = false ->
  exists a c b, span p s = (a, c :: b) /\ p c = false.
Proof.
  induction s as [|x t IH]; cbn [forallb span]; [discriminate|].
  destruct (p x) eqn:Hx; cbn [andb].
  - intros H. destruct (IH H) as [a [c [b [E Hc]]]].
    rewrite E. exists (x :: a), c, b. auto.
  - intros _. exists [], x, t. auto.
Qed.

Lemma trailing_run (post : str) :
  exists mid tail,
    post = mid ++ tail /\ ends_numeric mid = true
    /\ forallb non_numeric tail = true.
Proof.
  destruct (span non_numeric (rev post)) as [rt rm] eqn:E.
  exists (rev rm), (rev rt). split; [|split].
  - apply span_app in E. apply (f_equal (@rev ascii)) in E.
    rewrite rev_involutive, rev_app_distr in E. exact E.
  - unfold ends_numeric. rewrite rev_involutive.
    destruct rm as [|c rm']; [reflexivity|].
    rewrite (span_snd_head non_numeric _ _ _ _ E). reflexivity.
  - apply rev_forallb. exact (span_fst_all non_numeric _ _ _ E).
Qed.

Lemma token_decomposition (s : str) :
  no_digit s = false ->
  exists (pre ip fp mid tail : str) (i f : N),
    s = pre ++ token_text ip fp ++ mid ++ tail
    /\ no_digit pre = true
    /\ ip <> [] /\ forallb is_digit ip = true /\ forallb is_digit fp = true
    /\ digits_value ip = Some i /\ digits_value fp = Some f
    /\ extends_token fp (mid ++ tail) = false
    /\ ends_numeric mid = true /\ forallb non_numeric tail = true.
Proof.
  intros Hs. unfold no_digit in Hs.
  destruct (span_not_all _ s Hs) as [pre [c [rest [Epre Hc]]]].
  apply negb_false_iff in Hc.
  assert (Hpre := span_fst_all _ _ _ _ Epre). apply span_app in Epre.
  destruct (span is_digit (c :: rest)) as [ip r1] eqn:Eip.
  assert (Hip := span_fst_all _ _ _ _ Eip).
  assert (Hne : ip <> []).
  { cbn [span] in Eip. rewrite Hc in Eip. destruct (span is_digit rest).
    injection Eip as <- _. discriminate. }
  assert (Hr1 : starts_with_digit r1 = false).
  { destruct r1 as [|x r1']; [reflexivity|].
    exact (span_snd_head _ _ _ _ _ Eip). }
  apply span_app in Eip.
  destruct (digits_value_total ip Hip) as [i Hi].
  assert (Hplain :
            forall mid tail, r1 = mid ++ tail ->
              extends_token [] (mid ++ tail) = false ->
              ends_numeric mid = true -> forallb non_numeric tail = true ->
              exists (pre ip fp mid tail : str) (i f : N),
                s = pre ++ token_text ip fp ++ mid ++ tail
                /\ no_digit pre = true
                /\ ip <> [] /\ forallb is_digit ip = true
                /\ forallb is_digit fp = true
                /\ digits_value ip = Some i /\ digits_value fp = Some f
                /\ extends_token fp (mid ++ tail) = false
                /\ ends_numeric mid = true /\ forallb non_numeric tail = true).
  { intros mid tail Hr Hext Hmid Htail.
    exists pre, ip, [], mid, tail, i, 0%N.
    split; [|repeat split; auto].
    unfold token_text. rewrite List.app_nil_r, <- Hr, <- Eip. exact Epre. }
  destruct (trailing_run r1) as [mid [tail [Hr [Hmid Htail]]]].
  destruct r1 as [|dot r2].
  { apply (Hplain mid tail Hr); auto. rewrite <- Hr. reflexivity. }
  destruct (Ascii.eqb dot "."%char && starts_with_digit r2) eqn:Edot.
  - apply andb_prop in Edot. destruct Edot as [Edot Hd].
    apply Ascii.eqb_eq in Edot. subst dot.
    destruct (span is_digit r2) as [fp post] eqn:Efp.
    assert (Hfp := span_fst_all _ _ _ _ Efp).
    assert (Hfne : fp <> []).
    { destruct r2 as [|x r2']; [discriminate Hd|]. cbn in Hd.
      cbn [span] in Efp. rewrite Hd in Efp. destruct (span is_digit r2').
      injection Efp as <- _. discriminate. }
    assert (Hpost : starts_with_digit post = false).
    { destruct post as [|x post']; [reflexivity|].
      exact (span_snd_head _ _ _ _ _ Efp). }
    apply span_app in Efp.
    destruct (digits_value_total fp Hfp) as [f Hf].
    destruct (trailing_run post) as [mid' [tail' [Hp [Hmid' Htail']]]].
    exists pre, ip, fp, mid', tail', i, f.
    repeat split; auto.
    + unfold token_text. destruct fp as [|d fp']; [contradiction|].
      rewrite <- Hp, Epre, Eip, Efp, <- !app_assoc. reflexivity.
    + rewrite <- Hp. unfold extends_token. rewrite Hpost.
      destruct fp; [contradiction | reflexivity].
  - apply (Hplain mid tail Hr); auto. rewrite <- Hr.
    unfold extends_token. rewrite Hr1. cbn [orb]. exact Edot.
Qed.

Lemma process_weight_value_token (pre ip fp mid tail : str) (i f : N) :
  no_digit pre = true ->
  ip <> [] -> forallb is_digit ip = true -> forallb is_digit fp = true ->
  digits_value ip = Some i -> digits_value fp = Some f ->
  extends_token fp (mid ++ tail) = false ->
  ends_numeric mid = true -> forallb non_numeric tail = true ->
  let s := pre ++ token_text ip fp ++ mid ++ tail in
  process_weight_value s =
  match token_float i f fp with
  | Finite q => str_of_Z (Qceiling q + 5) ++ unit_suffix tail
  | Infinity => s
  end.
Proof.
  intros Hpre Hne Hip Hfp Hi Hf Hext Hmid Htail s.
  unfold process_weight_value, process_weight_value_try. unfold s at 1 2.
  rewrite (search_number_token pre ip fp (mid ++ tail) Hpre Hne Hip Hfp Hext).
  rewrite (py_float_token ip fp i f Hne Hip Hfp Hi Hf).
  destruct (token_float i f fp) as [q|]; [|reflexivity].
  unfold ceil, render, unit_suffix.
  destruct (token_text_ends_numeric ip fp Hne Hip Hfp) as [Htne Htok].
  assert (Hbody : ends_numeric (pre ++ token_text ip fp ++ mid) = true).
  { destruct mid as [|m0 mid'].
    - rewrite List.app_nil_r. apply ends_numeric_app; assumption.
    - rewrite app_assoc. apply ends_numeric_app; [discriminate | assumption]. }
  replace (pre ++ token_text ip fp ++ mid ++ tail)
    with ((pre ++ token_text ip fp ++ mid) ++ tail)
    by (rewrite <- !app_assoc; reflexivity).
  rewrite (units_of_tail _ tail Hbody Htail).
  destruct (strip tail); reflexivity.
Qed.

(** The same on a token that is exactly read: the ceiling is that of the
    number the token denotes. *)
Lemma process_weight_value_exact (pre ip fp mid tail : str) (i f : N) :
  no_digit pre = true ->
  ip <> [] -> forallb is_digit ip = true -> forallb is_digit fp = true ->
  digits_value ip = Some i -> digits_value fp = Some f ->
  extends_token fp (mid ++ tail) = false ->
  ends_numeric mid = true -> forallb non_numeric tail = true ->
  exactly_read i f fp ->
  process_weight_value (pre ++ token_text ip fp ++ mid ++ tail) =
  str_of_Z (Qceiling (token_number i f fp) + 5) ++ unit_suffix tail.
Proof.
  intros Hpre Hne Hip Hfp Hi Hf Hext Hmid Htail Hr.
  assert (H := process_weight_value_token pre ip fp mid tail i f
                 Hpre Hne Hip Hfp Hi Hf Hext Hmid Htail).
  cbv zeta in H. rewrite H.
  destruct (token_float_exact i f fp Hf Hr) as [q [-> Hq]].
  rewrite Hq. reflexivity.
Qed.

Example weight_ex1 : process_weight_value "22.93 lbs" = "28 lbs".
Proof. vm_compute. reflexivity. Qed.

Example weight_ex2 : process_weight_value "22.93" = "28".
Proof. vm_compute. reflexivity. Qed.

Example weight_ex3 : process_weight_value "N/A" = "N/A".
Proof. vm_compute. reflexivity. Qed.

Example weight_ex4 : process_weight_value "Approx. 7 kg " = "12 kg".
Proof. vm_compute. reflexivity. Qed.

Example weight_ex5 : process_weight_value "100.0 lbs" = "105 lbs".
Proof. vm_compute. reflexivity. Qed.

(** C1, as stated, fails: the token is read as a [float], and the nearest
    binary64 number to 1.0000000000000000001 is 1, whose ceiling is 1 and
    not 2. *)
Lemma weight_ceiling_counterexample :
  process_weight_value "1.0000000000000000001 kg" = lit "6 kg"
  /\ str_of_Z (Qceiling (token_number 1 1 "0000000000000000001") + 5)
       ++ lit " kg"
     = lit "7 kg".
Proof. split; vm_compute; reflexivity. Qed.

(** C1 (amended). Weight normalizer, on ASCII strings.  For a string whose
    first numeric token is exactly read (its digits, read as one integer,
    stay below [2^53]; at most 300 fraction digits) and denotes [n], and
    whose trailing non-numeric run is [tail], the result is
    [str(ceil(n) + 5)], followed by a space and the trimmed [tail] when that
    is not empty.  For any token the ceiling taken is that of the binary64
    number nearest to [n], and when that is infinite the input is returned
    unchanged.  Every string that holds a digit is of that shape; a string
    without a numeric token is returned unchanged. *)
Theorem weight_normalizer_spec :
  (forall (pre ip fp mid tail : str) (i f : N),
      forallb is_ascii (pre ++ token_text ip fp ++ mid ++ tail) = true ->
      no_digit pre = true ->
      ip <> [] -> forallb is_digit ip = true -> forallb is_digit fp = true ->
      digits_value ip = Some i -> digits_value fp = Some f ->
      extends_token fp (mid ++ tail) = false ->
      ends_numeric mid = true -> forallb non_numeric tail = true ->
      exactly_read i f fp ->
      process_weight_value (pre ++ token_text ip fp ++ mid ++ tail) =
      str_of_Z (Qceiling (token_number i f fp) + 5)
        ++ match strip tail with [] => [] | u => " "%char :: u end)
  /\ (forall (pre ip fp mid tail : str) (i f : N),
         forallb is_ascii (pre ++ token_text ip fp ++ mid ++ tail) = true ->
         no_digit pre = true ->
         ip <> [] -> forallb is_digit ip = true ->
         forallb is_digit fp = true ->
         digits_value ip = Some i -> digits_value fp = Some f ->
         extends_token fp (mid ++ tail) = false ->
         ends_numeric mid = true -> forallb non_numeric tail = true ->
         let s := pre ++ token_text ip fp ++ mid ++ tail in
         process_weight_value s =
         match token_float i f fp with
         | Finite q =>
             str_of_Z (Qceiling q + 5)
               ++ match strip tail with [] => [] | u => " "%char :: u end
         | Infinity => s
         end)
  /\ (forall s : str,
         forallb is_ascii s = true ->
         no_digit s = false ->
         exists (pre ip fp mid tail : str) (i f : N),
           s = pre ++ token_text ip fp ++ mid ++ tail
           /\ no_digit pre = true
           /\ ip <> [] /\ forallb is_digit ip = true
           /\ forallb is_digit fp = true
           /\ digits_value ip = Some i /\ digits_value fp = Some f
           /\ extends_token fp (mid ++ tail) = false
           /\ ends_numeric mid = true /\ forallb non_numeric tail = true)
  /\ (forall s : str,
         forallb is_ascii s = true ->
         no_digit s = true -> process_weight_value s = s).
Proof.
  split; [|split; [|split]].
  - intros pre ip fp mid tail i f _. apply process_weight_value_exact.
  - intros pre ip fp mid tail i f _. apply process_weight_value_token.
  - intros s _. apply token_decomposition.
  - intros s _ Hs. unfold process_weight_value, process_weight_value_try.
    rewrite (search_number_none s Hs). reflexivity.
Qed.

Lemma weight_normalizer_spec_witness :
  process_weight_value "Approx 22.93 lbs" = "28 lbs".
Proof.
  apply (proj1 weight_normalizer_spec
           "Approx " "22" "93" [] " lbs" 22%N 93%N);
    try reflexivity.
  - discriminate.
  - split; [reflexivity | vm_compute; lia].
Defined.

(* --------------------------------------------------------------------- *)
(** ** The error handler of a row *)
(* --------------------------------------------------------------------- *)

(** C9, as stated, fails: for a message of more than 40 characters the
    status text does not contain its last 40 characters. *)
Lemma error_status_last40_counterexample :
  contains (last_chars 40 long_message)
           (Row.status_label (Row.on_processing_error Row.started long_message))
  = false.
Proof. vm_compute. reflexivity. Qed.

(** C9 (amended). The inline status text of a row is ["Error: "], the FIRST
    40 characters of the error message and ["..."]; it contains those first
    40 characters, and the full message is shown in a warning box. *)
Theorem error_status_first40 (u : Row.ui) (error_message : str) :
  let u' := Row.on_processing_error u error_message in
  Row.status_label u' = lit "Error: " ++ firstn 40 error_message ++ lit "..."
  /\ contains (firstn 40 error_message) (Row.status_label u') = true
  /\ Row.warnings u' = Row.warnings u ++ [error_message]
  /\ Row.completed u' = false /\ Row.running u' = false.
Proof.
  cbv zeta. unfold Row.on_processing_error.
  cbn [Row.status_label Row.warnings Row.completed Row.running].
  repeat split. apply contains_middle.
Qed.

(* --------------------------------------------------------------------- *)
(** ** The prefix retry strategy *)
(* --------------------------------------------------------------------- *)

Lemma found_not_found (t : str) : found t = negb (not_found t).
Proof. unfold found, not_found. rewrite negb_orb. reflexivity. Qed.

Section RetryFacts.

Import MultiPrefix.

Variable W : Type.
Variable fetch : str -> str -> W -> fetch_result * W.

Lemma emit_attempts (sg : signal) (x : st W) :
  attempts (emit sg x) = attempts x.
Proof. reflexivity. Qed.

Lemma call_original_attempts (m p : str) (x : st W) :
  attempts (snd (call_original fetch m p x))
  = attempts x ++ [(p, fst (call_original fetch m p x))].
Proof.
  unfold call_original. destruct (fetch m p (world x)). reflexivity.
Qed.

Lemma try_alternatives_trace (m prefix : str) (prefixes : list str) :
  forall x : st W,
  exists tried,
    all_failed tried /\
    match fst (try_alternatives fetch m prefix prefixes x) with
    | None =>
        attempts (snd (try_alternatives fetch m prefix prefixes x))
        = attempts x ++ tried
        /\ map fst tried = alt_candidates prefix prefixes
    | Some r =>
        exists a rest,
          attempts (snd (try_alternatives fetch m prefix prefixes x))
          = attempts x ++ tried ++ [(a, r)]
          /\ found (title r) = true
          /\ alt_candidates prefix prefixes = map fst tried ++ a :: rest
    end.
Proof.
  induction prefixes as [|alt rest IH]; intros x.
  - exists []. split; [constructor|]. cbn. rewrite List.app_nil_r. auto.
  - unfold alt_candidates. cbn [try_alternatives filter].
    destruct (Py.eqb alt prefix) eqn:E; cbn [negb].
    + exact (IH x).
    + set (x1 := emit (UpdateStatus (lit "Trying prefix: " ++ alt)) x).
      assert (Hc := call_original_attempts m alt x1).
      destruct (call_original fetch m alt x1) as [r x2] eqn:Ec.
      cbn [fst snd] in Hc. change (attempts x1) with (attempts x) in Hc.
      destruct (found (title r)) eqn:Ef.
      * exists []. split; [constructor|]. cbn [fst snd].
        exists alt, (alt_candidates prefix rest).
        rewrite emit_attempts. auto.
      * destruct (IH x2) as [tried [Hall Hrest]].
        exists ((alt, r) :: tried). split.
        { constructor; [|exact Hall]. cbn [snd].
          rewrite found_not_found in Ef. apply negb_false_iff. exact Ef. }
        fold (alt_candidates prefix rest).
        destruct (fst (try_alternatives fetch m prefix rest x2)) as [r'|].
        { destruct Hrest as [a [rest' [Ha [Hf Hcand]]]].
          exists a, rest'. rewrite Ha, Hc, <- app_assoc. cbn [app map fst].
          rewrite Hcand. auto. }
        { destruct Hrest as [Ha Hcand]. rewrite Ha, Hc, <- app_assoc.
          cbn [app map fst]. rewrite Hcand. auto. }
Qed.

(** The trace and the result of [enhanced_scrape_katom], by cases on the
    title that the primary fetch returned. *)
Lemma enhanced_trace (prefixes : list str) (m prefix : str) (x : st W) :
  let r0 := fst (call_original fetch m prefix x) in
  let res := enhanced_scrape_katom fetch prefixes m prefix x in
  if not_found (title r0) then
    exists tried,
      all_failed tried /\
      ((attempts (snd res) = attempts x ++ (prefix, r0) :: tried
        /\ map fst tried = alt_candidates prefix prefixes
        /\ fst res = r0)
       \/
       (exists a ra rest,
           attempts (snd res) = attempts x ++ (prefix, r0) :: tried ++ [(a, ra)]
           /\ found (title ra) = true
           /\ alt_candidates prefix prefixes = map fst tried ++ a :: rest
           /\ fst res = ra))
  else
    attempts (snd res) = attempts x ++ [(prefix, r0)] /\ fst res = r0.
Proof.
  cbv zeta. unfold enhanced_scrape_katom.
  assert (Hc := call_original_attempts m prefix x).
  destruct (call_original fetch m prefix x) as [r0 x1] eqn:Ec.
  cbn [fst snd] in *.
  destruct (not_found (title r0)) eqn:Enf; [|auto].
  set (x2 := emit _ x1).
  destruct (try_alternatives_trace m prefix prefixes x2)
    as [tried [Hall Hres]].
  exists tried. split; [exact Hall|].
  destruct (try_alternatives fetch m prefix prefixes x2) as [[ra|] x3].
  - right. cbn [fst snd] in *. destruct Hres as [a [rest [Ha [Hf Hcand]]]].
    exists a, ra, rest. rewrite Ha. change (attempts x2) with (attempts x1).
    rewrite Hc, <- app_assoc. auto.
  - left. cbn [fst snd] in *. destruct Hres as [Ha Hcand].
    rewrite Ha. change (attempts x2) with (attempts x1).
    rewrite Hc, <- app_assoc. auto.
Qed.

End RetryFacts.

(** C2, as stated, fails in its last clause: when every attempt comes back
    with a sentinel title, the result returned is the one of the primary
    fetch, not the one of the last attempt. *)
Lemma prefix_retry_returns_last_counterexample :
  let res :=
    MultiPrefix.enhanced_scrape_katom
      (Scrape.scrape_katom delisted_browser)
      [lit "605"; lit "123"; lit "456"] "ABC123HC" "605" retry_start in
  let results := map snd (MultiPrefix.attempts (snd res)) in
  map fst (MultiPrefix.attempts (snd res)) = [lit "605"; lit "123"; lit "456"]
  /\ forallb (fun r => not_found (title r)) results = true
  /\ fst res <> last results Scrape.defaults.
Proof.
  cbv zeta. split; [vm_compute; reflexivity|].
  split; [vm_compute; reflexivity|].
  intros H. apply (f_equal title) in H. vm_compute in H. discriminate H.
Qed.

Lemma alt_candidates_skip_first (P B C : str) :
  B <> P -> C <> P -> alt_candidates P [P; B; C] = [B; C].
Proof.
  intros HB HC. unfold alt_candidates. cbn [filter].
  rewrite py_eqb_refl. cbn [negb].
  destruct (Py.eqb B P) eqn:EB; [apply py_eqb_eq in EB; contradiction|].
  destruct (Py.eqb C P) eqn:EC; [apply py_eqb_eq in EC; contradiction|].
  reflexivity.
Qed.

(** C2 (amended). The primary prefix is fetched first.  If its title is not
    a sentinel, nothing else is fetched and its result is returned.
    Otherwise the alternatives other than the primary prefix are fetched in
    configured order up to the first one whose title is not a sentinel, and
    that result is returned; if all of them fail, the result returned is
    the one of the PRIMARY fetch.  In particular, with alternatives
    [[P; B; C]] and primary prefix [P], the alternatives fetched are [B] and
    then, if [B] failed, [C]. *)
Theorem prefix_retry_spec :
  (forall (W : Type) (fetch : str -> str -> W -> fetch_result * W)
          (prefixes : list str) (m prefix : str) (x : MultiPrefix.st W),
      let r0 := fst (MultiPrefix.call_original fetch m prefix x) in
      let res := MultiPrefix.enhanced_scrape_katom fetch prefixes m prefix x in
      if not_found (title r0) then
        exists tried,
          all_failed tried /\
          ((MultiPrefix.attempts (snd res)
            = MultiPrefix.attempts x ++ (prefix, r0) :: tried
            /\ map fst tried = alt_candidates prefix prefixes
            /\ fst res = r0)
           \/
           (exists a ra rest,
               MultiPrefix.attempts (snd res)
               = MultiPrefix.attempts x ++ (prefix, r0) :: tried ++ [(a, ra)]
               /\ found (title ra) = true
               /\ alt_candidates prefix prefixes = map fst tried ++ a :: rest
               /\ fst res = ra))
      else
        MultiPrefix.attempts (snd res)
        = MultiPrefix.attempts x ++ [(prefix, r0)]
        /\ fst res = r0)
  /\
  (forall (W : Type) (fetch : str -> str -> W -> fetch_result * W)
          (m P B C : str) (x : MultiPrefix.st W),
      B <> P -> C <> P ->
      let r0 := fst (MultiPrefix.call_original fetch m P x) in
      let res := MultiPrefix.enhanced_scrape_katom fetch [P; B; C] m P x in
      not_found (title r0) = true ->
      (exists rB,
          MultiPrefix.attempts (snd res)
          = MultiPrefix.attempts x ++ [(P, r0); (B, rB)]
          /\ found (title rB) = true /\ fst res = rB)
      \/
      (exists rB rC,
          MultiPrefix.attempts (snd res)
          = MultiPrefix.attempts x ++ [(P, r0); (B, rB); (C, rC)]
          /\ not_found (title rB) = true
          /\ ((found (title rC) = true /\ fst res = rC)
              \/ (not_found (title rC) = true /\ fst res = r0)))).
Proof.
  split.
  - intros W fetch prefixes m prefix x.
    exact (enhanced_trace W fetch prefixes m prefix x).
  - intros W fetch m P B C x HB HC r0 res Hnf.
    assert (T := enhanced_trace W fetch [P; B; C] m P x).
    cbv zeta in T. fold r0 res in T. rewrite Hnf in T.
    rewrite (alt_candidates_skip_first P B C HB HC) in T.
    destruct T as [tried [Hall [[Ha [Hm Hr]] | [a [ra [rest [Ha [Hf [Hm Hr]]]]]]]]].
    + destruct tried as [|[b rB] [|[c rC] [|]]]; try discriminate Hm.
      injection Hm as -> ->.
      apply Forall_cons_iff in Hall. destruct Hall as [HfB Hall].
      apply Forall_cons_iff in Hall. destruct Hall as [HfC _].
      right. exists rB, rC. cbn [snd] in *. auto 6.
    + destruct tried as [|[b rB] [|[c rC] tried']].
      * injection Hm as <- <-. left. exists ra. auto.
      * injection Hm as -> <- <-.
        apply Forall_cons_iff in Hall. destruct Hall as [HfB _].
        right. exists rB, ra. cbn [snd] in *. auto 6.
      * cbn in Hm. injection Hm as _ _ Hm.
        destruct tried'; discriminate Hm.
Qed.

Lemma prefix_retry_spec_witness :
  let fetch := Scrape.scrape_katom delisted_browser in
  let m : str := "ABC123HC" in
  let r0 := fst (MultiPrefix.call_original fetch m "605" retry_start) in
  let res :=
    MultiPrefix.enhanced_scrape_katom
      fetch [lit "605"; lit "123"; lit "456"] m "605" retry_start in
  (exists rB,
      MultiPrefix.attempts (snd res)
      = MultiPrefix.attempts retry_start ++ [(lit "605", r0); (lit "123", rB)]
      /\ found (title rB) = true /\ fst res = rB)
  \/
  (exists rB rC,
      MultiPrefix.attempts (snd res)
      = MultiPrefix.attempts retry_start
          ++ [(lit "605", r0); (lit "123", rB); (lit "456", rC)]
      /\ not_found (title rB) = true
      /\ ((found (title rC) = true /\ fst res = rC)
          \/ (not_found (title rC) = true /\ fst res = r0))).
Proof.
  apply (proj2 prefix_retry_spec Scrape.session
               (Scrape.scrape_katom delisted_browser)
               (lit "ABC123HC") (lit "605") (lit "123") (lit "456")
               retry_start).
  - intros H. vm_compute in H. discriminate H.
  - intros H. vm_compute in H. discriminate H.
  - vm_compute. reflexivity.
Defined.

(* --------------------------------------------------------------------- *)
(** ** The product fetcher *)
(* --------------------------------------------------------------------- *)

Lemma get_title_missing (p : Scrape.page) :
  (exists e, Scrape.title_wait p = Raise e)
  \/ (exists e, Scrape.title_element p = Raise e) ->
  Scrape.get_title p = (Scrape.title_sentinel, false).
Proof.
  intros [[e H] | [e H]]; unfold Scrape.get_title.
  - rewrite H. reflexivity.
  - rewrite H. destruct (Scrape.title_wait p); reflexivity.
Qed.

Lemma extract_page_missing (p : Scrape.page) :
  Scrape.get_title p = (Scrape.title_sentinel, false) ->
  Scrape.extract_page p = Scrape.defaults.
Proof. intros H. unfold Scrape.extract_page. rewrite H. reflexivity. Qed.

Lemma try_body_missing (p : Scrape.page) (s : Scrape.session) :
  Scrape.get_title p = (Scrape.title_sentinel, false) ->
  fst (Scrape.try_body p s) = Scrape.defaults.
Proof.
  intros H. unfold Scrape.try_body.
  destruct (Scrape.load p); [|reflexivity].
  destruct (Scrape.driver_title p) as [t|]; [|reflexivity].
  destruct (contains "404" t || contains "not found" (lower t));
    [reflexivity|].
  cbn [fst]. apply extract_page_missing. exact H.
Qed.

(** C5. When the wait for the title element times out (or raises anything
    else), or the element cannot be read, the fetch returns the sentinel
    title and nothing else is extracted: the description is its sentinel,
    the specs mapping and the specs markup are empty, and no media link is
    collected. *)
Theorem title_gates_extraction
        (b : Scrape.browser) (model_number prefix : str) (s : Scrape.session) :
  let p := Scrape.get b (Scrape.url_of prefix
                           (Scrape.clean_model_number model_number)) in
  (exists e, Scrape.title_wait p = Raise e)
  \/ (exists e, Scrape.title_element p = Raise e) ->
  let r := fst (Scrape.scrape_katom b model_number prefix s) in
  title r = lit "Title not found"
  /\ description r = lit "Description not found"
  /\ specs_data r = []
  /\ specs_html r = []
  /\ video_links r = []
  /\ Process.video_list (video_links r) = [].
Proof.
  intros p H r.
  assert (Hr : r = Scrape.defaults).
  { unfold r, Scrape.scrape_katom. destruct (Scrape.chrome b); [|reflexivity].
    fold p.
    assert (Hb := try_body_missing p (Scrape.acquire s) (get_title_missing p H)).
    destruct (Scrape.try_body p (Scrape.acquire s)) as [r' s']. exact Hb. }
  rewrite Hr. repeat split.
Qed.

Lemma title_gates_extraction_witness :
  let r := fst (Scrape.scrape_katom slow_browser "ABC123" "605"
                                    Scrape.no_session) in
  title r = lit "Title not found"
  /\ description r = lit "Description not found"
  /\ specs_data r = []
  /\ specs_html r = []
  /\ video_links r = []
  /\ Process.video_list (video_links r) = [].
Proof.
  apply (title_gates_extraction slow_browser "ABC123" "605" Scrape.no_session).
  left. exists TimeoutException. reflexivity.
Defined.

(** C7. Whatever the browser does, a fetch that obtained a driver has called
    [quit] on it by the time it returns, so the session it acquired is no
    longer held; a fetch that could not obtain a driver leaves the sessions
    as they were. *)
Theorem session_released
        (b : Scrape.browser) (model_number prefix : str) (s : Scrape.session) :
  let s' := snd (Scrape.scrape_katom b model_number prefix s) in
  match Scrape.chrome b with
  | Ok _ =>
      Scrape.held s' = false
      /\ Scrape.acquired s' = S (Scrape.acquired s)
      /\ Scrape.quit_calls s < Scrape.quit_calls s'
  | Raise _ => s' = s
  end.
Proof.
  cbv zeta. unfold Scrape.scrape_katom.
  destruct (Scrape.chrome b); [|reflexivity].
  set (p := Scrape.get b _).
  unfold Scrape.try_body.
  destruct (Scrape.load p); [|cbn; auto].
  destruct (Scrape.driver_title p) as [t|]; [|cbn; auto].
  destruct (contains "404" t || contains "not found" (lower t)); cbn; auto.
Qed.

(* --------------------------------------------------------------------- *)
(** ** Media links *)
(* --------------------------------------------------------------------- *)

Ltac distinct_columns :=
  let H := fresh in intro H; vm_compute in H; discriminate H.

(** Whatever was collected, the five media-link columns hold the first five
    links in order, and the empty string where there is no link. *)
Lemma place_videos_columns (vl : list str) (row_data : dict) (i : nat) :
  1 <= i <= 5 ->
  Dict.get (Process.video_column i) (Process.place_videos vl row_data)
  = Some (nth (i - 1) (firstn 5 vl) []).
Proof.
  intros Hi.
  destruct i as [|[|[|[|[|[|i]]]]]]; try lia;
    destruct vl as [|l1 [|l2 [|l3 [|l4 [|l5 rest]]]]];
    unfold Process.place_videos; rewrite Nat.add_1_r;
    cbn [firstn seq combine fold_left List.length Nat.add Nat.sub Nat.leb
         fst snd nth];
    repeat (rewrite dict_get_set_same
            || rewrite dict_get_set_other by distinct_columns);
    reflexivity.
Qed.

(** C6 (the code departs from it). The test [src not in video_links] is a
    substring test on the text collected so far, so a URL that occurs inside
    an earlier, different URL is dropped: of the two distinct addresses of
    [variant_page] only the first is collected, and [Video Link 2] stays
    empty. *)
Theorem media_links_substring_dedup :
  let r := fst (Scrape.scrape_katom variant_browser "ABC123" "605"
                                    Scrape.no_session) in
  let row := Process.build_row Process.default_spec_fields "ABC123" r in
  Process.video_list (video_links r)
  = [lit "https://cdn.example.com/v/demo.mp4?hd=1"]
  /\ Dict.get (Process.video_column 1) row
     = Some (lit "https://cdn.example.com/v/demo.mp4?hd=1")
  /\ Dict.get (Process.video_column 2) row = Some [].
Proof. vm_compute. repeat split. Qed.

(* --------------------------------------------------------------------- *)
(** ** The spec extractor *)
(* --------------------------------------------------------------------- *)

Module ExtractFacts.

Import Extract Yields.

(** A property kept by every step is kept by the loop, however it ends. *)
Lemma for_each_invariant {A B : Type} (P : B -> Prop)
      (step : B -> A -> run B) (l : list A) :
  (forall a acc, In a l -> P acc -> P (built (step acc a))) ->
  forall acc, P acc -> P (built (for_each step l acc)).
Proof.
  induction l as [|a l IH]; intros Hstep acc H; [exact H|].
  cbn [for_each]. assert (Ha := Hstep a acc (or_introl eq_refl) H).
  destruct (step acc a) as [acc'|acc']; cbn [built] in Ha.
  - apply IH; [|exact Ha]. intros a' acc'' Hin. apply Hstep. right. exact Hin.
  - exact Ha.
Qed.

Lemma for_each_silent {A B : Type} (yields : A -> bool)
      (step : B -> A -> run B) (l : list A) (acc : B) :
  (forall a acc', yields a = false -> built (step acc' a) = acc') ->
  forallb (fun a => negb (yields a)) l = true ->
  built (for_each step l acc) = acc.
Proof.
  intros Hstep Hl.
  apply (for_each_invariant (fun x => x = acc) step l); [|reflexivity].
  intros a acc' Hin ->. apply Hstep.
  rewrite forallb_forall in Hl. apply negb_true_iff, Hl, Hin.
Qed.

Lemma store_pair_blank (acc : list (str * str) * dict) (k v : str) :
  nonempty (strip k) = false -> store_pair acc k v = acc.
Proof. intros H. unfold store_pair. cbv zeta. rewrite H. reflexivity. Qed.

Lemma labeled_step_silent (row : texts * texts)
      (acc : list (str * str) * dict) :
  labeled_yields row = false -> built (labeled_step acc row) = acc.
Proof.
  destruct row as [[[|[k|e] ks]|e] [[|[v|e'] vs]|e']]; intros H;
    try reflexivity.
  cbn [labeled_yields] in H. cbn [labeled_step fst snd built].
  apply store_pair_blank, H.
Qed.

Lemma term_step_silent (td : outcome str * outcome str)
      (acc : list (str * str) * dict) :
  match td with
  | (Ok t, Ok _) => nonempty (strip t)
  | _ => false
  end = false ->
  built (term_step acc td) = acc.
Proof.
  destruct td as [[t|e] [d|e']]; intros H; try reflexivity.
  cbn [term_step fst snd built]. apply store_pair_blank, H.
Qed.

Lemma existsb_negb {A : Type} (f : A -> bool) (l : list A) :
  existsb f l = false -> forallb (fun a => negb (f a)) l = true.
Proof.
  induction l as [|a l IH]; [reflexivity|]. cbn [existsb forallb].
  intros H. apply orb_false_elim in H. destruct H as [-> H].
  exact (IH H).
Qed.

Lemma dl_step_silent (dl : texts * texts) (acc : list (str * str) * dict) :
  dl_yields dl = false -> built (dl_step acc dl) = acc.
Proof.
  destruct dl as [[terms|e] [definitions|e']]; intros H; try reflexivity.
  cbn [dl_yields] in H. cbn [dl_step fst snd].
  apply (for_each_silent _ term_step _ acc
           (fun td acc' => term_step_silent td acc')).
  apply existsb_negb, H.
Qed.

Lemma patterns_silent (seps : list ascii) (text : str) :
  forall acc,
    existsb (pattern_yields text) seps = false ->
    try_patterns seps text acc = acc.
Proof.
  induction seps as [|sep seps IH]; intros acc H; [reflexivity|].
  cbn [existsb] in H. apply orb_false_elim in H. destruct H as [Hs Hrest].
  cbn [try_patterns]. unfold pattern_yields in Hs.
  destruct (match_key_value sep text) as [[g1 g2]|].
  - cbv zeta. rewrite Hs. apply IH. exact Hrest.
  - apply IH. exact Hrest.
Qed.

Lemma text_step_silent (element : outcome str)
      (acc : list (str * str) * dict) :
  text_yields element = false -> built (text_step acc element) = acc.
Proof.
  destruct element as [t|e]; intros Ht; [|reflexivity].
  cbn [text_yields] in Ht. cbn [text_step built]. unfold scan_text.
  cbv zeta in *.
  destruct (nonempty (strip t)); [|reflexivity]. cbn [negb orb andb] in *.
  destruct (List.length (strip t) <=? 100)%nat eqn:El.
  - apply Nat.leb_le in El. apply Nat.ltb_ge in El. rewrite El.
    cbn [andb] in Ht. apply patterns_silent. exact Ht.
  - apply Nat.leb_gt in El. apply Nat.ltb_lt in El. rewrite El. reflexivity.
Qed.

(** When no labelled element, definition list or text element yields a
    pair, the block under [if not specs_html] returns nothing. *)
Lemma fallback_silent (d : document) :
  none_yield labeled_yields (spec_rows d) ->
  none_yield dl_yields (dl_elements d) ->
  none_yield text_yields (text_elements d) ->
  fallback d [] = ([], []).
Proof.
  unfold none_yield, fallback. intros H1 H2 H3.
  destruct (spec_rows d) as [rows|]; [|reflexivity].
  match goal with
  | |- context [for_each labeled_step rows ?a] =>
      assert (E1 := for_each_silent labeled_yields labeled_step rows a
                      labeled_step_silent H1);
      destruct (for_each labeled_step rows a) as [acc1|acc1]
  end; cbn [built] in E1; subst acc1; [|reflexivity].
  cbn [fst snd].
  destruct (dl_elements d) as [dls|]; [|reflexivity].
  match goal with
  | |- context [for_each dl_step dls ?a] =>
      assert (E2 := for_each_silent dl_yields dl_step dls a
                      dl_step_silent H2);
      destruct (for_each dl_step dls a) as [acc2|acc2]
  end; cbn [built] in E2; subst acc2; [|reflexivity].
  cbn [fst snd].
  destruct (text_elements d) as [els|]; [|reflexivity].
  match goal with
  | |- context [for_each text_step els ?a] =>
      assert (E3 := for_each_silent text_yields text_step els a
                      text_step_silent H3);
      destruct (for_each text_step els a) as [acc3|acc3]
  end; cbn [built] in E3; subst acc3; reflexivity.
Qed.

(** On a page where no source yields a pair the mapping returned is empty.
    The markup is empty when no table element is found, or a query on the
    page or for the rows of the table raises; when a table element with
    rows is found, it is the opening markup, followed by the closing markup
    unless the query for the cells of a row raises. *)
Lemma extract_without_pairs (d : document) :
  none_yield labeled_yields (spec_rows d) ->
  none_yield dl_yields (dl_elements d) ->
  none_yield text_yields (text_elements d) ->
  match found_tables d with
  | Raise _ | Ok [] | Ok (Raise _ :: _) => extract_table_data d = ([], [])
  | Ok (Ok rows :: _) =>
      forallb (fun r => negb (row_yields r)) rows = true ->
      extract_table_data d
      = ([], table_open
               ++ if forallb (fun r => match r with
                                       | Ok _ => true
                                       | Raise _ => false
                                       end) rows
                  then table_close else [])
  end.
Proof.
  intros H1 H2 H3.
  assert (Hfb := fallback_silent d H1 H2 H3).
  assert (Htable : forall rows,
             forallb (fun r => negb (row_yields r)) rows = true ->
             forall sh,
               for_each table_step rows ([], sh)
               = if forallb (fun r => match r with
                                      | Ok _ => true
                                      | Raise _ => false
                                      end) rows
                 then Done ([], sh) else Aborted ([], sh)).
  { induction rows as [|r rows IH]; intros Hrows sh; [reflexivity|].
    cbn [forallb] in Hrows. apply andb_prop in Hrows.
    destruct Hrows as [Hr Hrows]. apply negb_true_iff in Hr.
    cbn [for_each forallb].
    destruct r as [[|c0 [|c1 rest]]|e]; cbn [table_step andb];
      try (apply IH, Hrows); try reflexivity.
    discriminate Hr. }
  unfold found_tables, extract_table_data.
  destruct (spec_tables d) as [[|t ts]|]; [| |reflexivity].
  - destruct (all_tables d) as [[|t ts]|]; [exact Hfb| |reflexivity].
    destruct t as [rows|]; [|reflexivity].
    intros Hrows. rewrite (Htable rows Hrows). clear Hrows Htable.
    match goal with
    | |- context [if ?c then table_close else _] => destruct c
    end; [reflexivity|].
    rewrite List.app_nil_r. reflexivity.
  - destruct t as [rows|]; [|reflexivity].
    intros Hrows. rewrite (Htable rows Hrows). clear Hrows Htable.
    match goal with
    | |- context [if ?c then table_close else _] => destruct c
    end; [reflexivity|].
    rewrite List.app_nil_r. reflexivity.
Qed.

End ExtractFacts.

(** C4 (the code departs from it). No source of [layout_document] yields a
    key/value pair: its only table has one-cell rows, and it has no
    labelled element, definition list or text element.  The mapping
    returned is empty, but the markup is not: it is the restyled table
    without rows, since the opening and the closing markup are assigned
    whenever a table element is found, where the other strategies build
    markup only from the pairs they collected.  On [stale_table_document],
    where the query for the cells of the only row raises, the markup
    returned is the opening markup alone. *)
Theorem extract_nothing_skeleton :
  (forall rows rest,
      Yields.found_tables layout_document = Ok (Ok rows :: rest) ->
      forallb (fun r => negb (Yields.row_yields r)) rows = true)
  /\ Yields.none_yield Yields.labeled_yields
                       (Extract.spec_rows layout_document)
  /\ Yields.none_yield Yields.dl_yields
                       (Extract.dl_elements layout_document)
  /\ Yields.none_yield Yields.text_yields
                       (Extract.text_elements layout_document)
  /\ Extract.extract_table_data layout_document
     = ([], Extract.table_open ++ Extract.table_close)
  /\ Extract.table_open ++ Extract.table_close <> []
  /\ Cells.page_pairs stale_table_document = []
  /\ Extract.extract_table_data stale_table_document
     = ([], Extract.table_open).
Proof.
  split; [intros rows rest [= <- <-]; reflexivity|].
  split; [reflexivity|]. split; [reflexivity|]. split; [reflexivity|].
  split; [reflexivity|]. split; [discriminate|].
  split; reflexivity.
Qed.

(* --------------------------------------------------------------------- *)
(** ** The row processor *)
(* --------------------------------------------------------------------- *)

Module ProcessFacts.

Import Extract Process Run.

Lemma emitted_save (e : env) (s : state) :
  emitted (save_results e s) = emitted s.
Proof. unfold save_results. destruct (output_df s); reflexivity. Qed.

Lemma emitted_append (row_data : dict) (s : state) :
  emitted (append_row row_data s) = emitted s.
Proof. unfold append_row. destruct (output_df s); reflexivity. Qed.

Lemma emitted_record (e : env) (fields : list str) (prefix model : str)
      (s : state) :
  emitted (process_record e fields prefix model s)
  = emitted s ++ [UpdateStatus (lit "Processing model: " ++ model)].
Proof.
  unfold process_record. destruct (scrape e model prefix) as [r|]; [|reflexivity].
  destruct (found (title r)); [|reflexivity].
  rewrite emitted_save, emitted_append. reflexivity.
Qed.

End ProcessFacts.

(** C3, as stated, fails: on a table without records the run emits the
    error signal and never the finished signal, so the row ends in the error
    state, not in the completed one. *)
Lemma empty_table_completed_counterexample :
  let s := Process.process_file empty_table_env in
  let u := Row.deliver_all Row.started (Process.emitted s) in
  Process.emitted s = [Error (lit "File contains no data rows")]
  /\ Row.completed u = false
  /\ Row.status_label u <> lit "Completed".
Proof.
  cbv zeta. split; [reflexivity|]. split; [reflexivity|].
  vm_compute. discriminate.
Qed.

(** C3 (amended). For a table with zero records, a run that found its file,
    was not aborted by a hook, found the identifier column and could write
    its output ends at once in the ERROR state with the message that the
    file contains no data rows; the output file written before that holds
    the header row only. *)
Theorem empty_table_run (e : Process.env) (df : Process.dataframe)
        (model_col : nat) :
  Run.reaches_loop e df model_col ->
  Process.save_outcome e 0 = Process.Written ->
  Process.records df = [] ->
  let s := Process.process_file e in
  let u := Row.deliver_all Row.started (Process.emitted s) in
  Process.emitted s = [Error (lit "File contains no data rows")]
  /\ Process.artifact s = Some (Run.header_only e)
  /\ Row.running u = false
  /\ Row.completed u = false
  /\ Row.status_label u = lit "Error: File contains no data rows...".
Proof.
  intros [[name Hfile] [Hhook [Hload [Hcol Hdirs]]]] Hw Hrec.
  assert (Hs : Process.process_file e
               = Process.emit (Error (lit "File contains no data rows"))
                   {| Process.output_df := Some (Run.header_only e);
                      Process.artifact := Some (Run.header_only e);
                      Process.emitted := []; Process.saves := 1 |}).
  { unfold Process.process_file.
    rewrite Hfile, Hhook, Hload, Hcol, Hdirs, Hrec.
    unfold Process.save_results. cbn [Process.output_df Process.saves].
    rewrite Hw. reflexivity. }
  cbv zeta. rewrite Hs. repeat split.
Qed.

Lemma empty_table_run_witness :
  let s := Process.process_file empty_table_env in
  let u := Row.deliver_all Row.started (Process.emitted s) in
  Process.emitted s = [Error (lit "File contains no data rows")]
  /\ Process.artifact s = Some (Run.header_only empty_table_env)
  /\ Row.running u = false
  /\ Row.completed u = false
  /\ Row.status_label u = lit "Error: File contains no data rows...".
Proof.
  apply (empty_table_run empty_table_env
           {| Process.columns := [lit "Mfr Model"; lit "Brand"];
              Process.records := [] |} 0).
  - repeat split; try reflexivity. exists (lit "models.csv"). reflexivity.
  - reflexivity.
  - reflexivity.
Defined.

Section ProgressFacts.

Import Extract Process Run ProcessFacts.

Variable e : env.
Variable fields : list str.
Variable prefix : str.
Variable model_col total_rows : nat.



End ProgressFacts.





(* --------------------------------------------------------------------- *)
(** ** Applying the weight normalizer twice *)
(* --------------------------------------------------------------------- *)

Lemma token_number_nonneg (i f : N) (fp : str) :
  (0 <= Qceiling (token_number i f fp))%Z.
Proof.
  rewrite <- (Qceiling_Z 0). apply Qceiling_resp_le.
  unfold token_number, Qle, Qplus, inject_Z. cbn [Qnum Qden]. nia.
Qed.

Lemma token_number_integer (i : N) :
  Qceiling (token_number i 0 []) = Z.of_N i.
Proof.
  rewrite <- (Qceiling_Z (Z.of_N i)). apply Qceiling_comp.
  unfold token_number, Qeq, Qplus, inject_Z. cbn. lia.
Qed.

Lemma unit_suffix_non_numeric (tail : str) :
  forallb non_numeric tail = true ->
  forallb non_numeric (unit_suffix tail) = true.
Proof.
  intros H. unfold unit_suffix.
  assert (Hs := strip_forallb non_numeric tail H).
  destruct (strip tail); [reflexivity|]. cbn [forallb].
  cbn [forallb] in Hs. rewrite Hs. reflexivity.
Qed.

Lemma unit_suffix_strip (tail : str) :
  strip (unit_suffix tail) = strip tail.
Proof.
  unfold unit_suffix. destruct (strip tail) as [|c u] eqn:E; [reflexivity|].
  rewrite strip_after_space, <- E. apply strip_involutive.
Qed.

Lemma unit_suffix_no_extension (tail : str) :
  extends_token [] (unit_suffix tail) = false.
Proof. unfold unit_suffix. destruct (strip tail); reflexivity. Qed.

(** The ceiling of the number a token denotes is at most its digits read
    as one integer. *)
Lemma token_ceiling_le (i f : N) (fp : str) :
  digits_value fp = Some f ->
  (Qceiling (token_number i f fp) <= token_numerator i f fp)%Z.
Proof.
  intros Hf. rewrite (token_ceiling i f fp Hf).
  assert (Hd := pow10_pos (List.length fp)).
  fold (token_denominator fp) in Hd.
  assert (Hc := ceiling_div_spec (token_numerator i f fp)
                  (token_denominator fp) Hd).
  assert (0 <= token_numerator i f fp)%Z.
  { unfold token_numerator.
    assert (H10 := pow10_pos (List.length fp)). nia. }
  nia.
Qed.

(** A second application to a result of the first adds the offset again and
    keeps the unit, as long as the first result is below [2^53]. *)
Lemma process_weight_value_again (z : Z) (tail : str) :
  (0 < z < 2 ^ 53)%Z -> forallb non_numeric tail = true ->
  process_weight_value (str_of_Z z ++ unit_suffix tail)
  = str_of_Z (z + 5) ++ unit_suffix tail.
Proof.
  intros [Hz Hlt] Htail.
  destruct (str_of_Z_digits z Hz) as [Hd [Hne Hv]].
  assert (Hr : exactly_read (Z.to_N z) 0 []).
  { unfold exactly_read, token_numerator. cbn [List.length Z.of_nat].
    change (10 ^ 0)%Z with 1%Z. rewrite Z2N.id by lia. split; lia. }
  assert (H := process_weight_value_exact
                 [] (str_of_Z z) [] [] (unit_suffix tail) (Z.to_N z) 0
                 eq_refl Hne Hd eq_refl Hv digits_value_nil
                 (unit_suffix_no_extension tail) eq_refl
                 (unit_suffix_non_numeric tail Htail) Hr).
  unfold token_text in H. cbn [app] in H. rewrite List.app_nil_r in H.
  rewrite H, token_number_integer. unfold unit_suffix at 1.
  rewrite unit_suffix_strip. fold (unit_suffix tail).
  rewrite Z2N.id by lia. reflexivity.
Qed.

(** In general the second application reads the first result as a
    [float] again. *)
Lemma process_weight_value_again_float (z : Z) (tail : str) :
  (0 < z)%Z -> forallb non_numeric tail = true ->
  process_weight_value (str_of_Z z ++ unit_suffix tail)
  = match to_double z 1 with
    | Finite q => str_of_Z (Qceiling q + 5) ++ unit_suffix tail
    | Infinity => str_of_Z z ++ unit_suffix tail
    end.
Proof.
  intros Hz Htail.
  destruct (str_of_Z_digits z Hz) as [Hd [Hne Hv]].
  assert (H := process_weight_value_token
                 [] (str_of_Z z) [] [] (unit_suffix tail) (Z.to_N z) 0
                 eq_refl Hne Hd eq_refl Hv digits_value_nil
                 (unit_suffix_no_extension tail) eq_refl
                 (unit_suffix_non_numeric tail Htail)).
  cbv zeta in H. unfold token_text in H. cbn [app] in H.
  rewrite List.app_nil_r in H. rewrite H.
  assert (Hf : token_float (Z.to_N z) 0 [] = to_double z 1).
  { unfold token_float, token_numerator, token_denominator.
    cbn [List.length Z.of_nat]. change (10 ^ 0)%Z with 1%Z.
    rewrite Z2N.id by lia. f_equal; lia. }
  rewrite Hf. destruct (to_double z 1) as [q|]; [|reflexivity].
  unfold unit_suffix at 1. rewrite unit_suffix_strip.
  fold (unit_suffix tail). reflexivity.
Qed.

(** What two applications give, for any token. *)
Lemma process_weight_value_twice (pre ip fp mid tail : str) (i f : N) :
  no_digit pre = true ->
  ip <> [] -> forallb is_digit ip = true -> forallb is_digit fp = true ->
  digits_value ip = Some i -> digits_value fp = Some f ->
  extends_token fp (mid ++ tail) = false ->
  ends_numeric mid = true -> forallb non_numeric tail = true ->
  let s := pre ++ token_text ip fp ++ mid ++ tail in
  process_weight_value (process_weight_value s) =
  match token_float i f fp with
  | Finite q =>
      match to_double (Qceiling q + 5) 1 with
      | Finite q' => str_of_Z (Qceiling q' + 5) ++ unit_suffix tail
      | Infinity => str_of_Z (Qceiling q + 5) ++ unit_suffix tail
      end
  | Infinity => s
  end.
Proof.
  intros Hpre Hne Hip Hfp Hi Hf Hext Hmid Htail s.
  assert (H := process_weight_value_token pre ip fp mid tail i f
                 Hpre Hne Hip Hfp Hi Hf Hext Hmid Htail).
  cbv zeta in H. fold s in H.
  destruct (token_float i f fp) as [q|] eqn:Eq.
  - rewrite H. apply process_weight_value_again_float; [|exact Htail].
    assert (H0 : (0 <= Qceiling q)%Z).
    { apply (to_double_nonneg (token_numerator i f fp) (token_denominator fp)).
      - unfold token_numerator.
        assert (H10 := pow10_pos (List.length fp)). nia.
      - apply pow10_pos.
      - exact Eq. }
    lia.
  - rewrite H. exact H.
Qed.

(** The same when the token leaves room for the offset: the offset is added
    twice, and the second result is not the first. *)
Lemma process_weight_value_twice_exact (pre ip fp mid tail : str) (i f : N) :
  no_digit pre = true ->
  ip <> [] -> forallb is_digit ip = true -> forallb is_digit fp = true ->
  digits_value ip = Some i -> digits_value fp = Some f ->
  extends_token fp (mid ++ tail) = false ->
  ends_numeric mid = true -> forallb non_numeric tail = true ->
  exactly_read_twice i f fp ->
  let s := pre ++ token_text ip fp ++ mid ++ tail in
  let once := (Qceiling (token_number i f fp) + 5)%Z in
  process_weight_value s = str_of_Z once ++ unit_suffix tail
  /\ process_weight_value (process_weight_value s)
     = str_of_Z (once + 5) ++ unit_suffix tail
  /\ process_weight_value (process_weight_value s) <> process_weight_value s.
Proof.
  intros Hpre Hne Hip Hfp Hi Hf Hext Hmid Htail [Hn Hk] s once.
  assert (Hr : exactly_read i f fp) by (split; [lia | exact Hk]).
  assert (H1 : process_weight_value s = str_of_Z once ++ unit_suffix tail).
  { exact (process_weight_value_exact pre ip fp mid tail i f
             Hpre Hne Hip Hfp Hi Hf Hext Hmid Htail Hr). }
  assert (Hpos : (0 < once < 2 ^ 53)%Z).
  { unfold once. assert (H0 := token_number_nonneg i f fp).
    assert (Hle := token_ceiling_le i f fp Hf). lia. }
  assert (H2 := process_weight_value_again once tail Hpos Htail).
  split; [exact H1|]. rewrite H1, H2. split; [reflexivity|].
  intros H. apply app_inv_tail in H. apply str_of_Z_inj in H; lia.
Qed.

(* --------------------------------------------------------------------- *)
(** ** Every entry of the extracted mapping comes from the page *)
(* --------------------------------------------------------------------- *)

Lemma is_weight_key_lower (key : str) :
  Extract.is_weight_key (lower key) = Extract.is_weight_key key.
Proof. unfold Extract.is_weight_key. rewrite lower_involutive. reflexivity. Qed.

Module SourcedFacts.

Import Extract Cells ExtractFacts.

Lemma sourced_nil (pairs : list (str * str)) : sourced pairs [].
Proof. intros k v []. Qed.

Lemma in_flat_map_incl {A B : Type} (f : A -> list B) (l : list A) (a : A) :
  In a l -> incl (f a) (flat_map f l).
Proof. intros Ha b Hb. apply in_flat_map. exists a. split; assumption. Qed.

Lemma sourced_store (pairs : list (str * str)) (key raw : str) (d : dict) :
  In (key, raw) pairs -> sourced pairs d ->
  sourced pairs (Dict.set (lower key) (weight_value key raw) d).
Proof.
  intros Hp H k v Hin. apply dict_in_set in Hin.
  destruct Hin as [[-> ->] | Hin]; [|exact (H k v Hin)].
  exists key, raw. auto.
Qed.

Lemma sourced_add_pair (pairs : list (str * str)) (key raw : str)
      (acc : list (str * str) * dict) :
  In (key, raw) pairs -> sourced pairs (snd acc) ->
  sourced pairs (snd (add_pair key (weight_value key raw) acc)).
Proof.
  intros Hp H. unfold add_pair, Dict.set_if_absent. cbn [snd].
  destruct (Dict.mem (lower key) (snd acc)); [exact H|].
  apply sourced_store; assumption.
Qed.

Lemma sourced_store_row (pairs : list (str * str)) (acc : dict * str)
      (k v : str) :
  In (strip k, strip v) pairs -> sourced pairs (fst acc) ->
  sourced pairs (fst (store_row acc k v)).
Proof.
  intros Hp H. unfold store_row. cbv zeta. cbn [fst].
  destruct (nonempty (strip k) && negb (Dict.mem (lower (strip k)) (fst acc)));
    [apply sourced_store; assumption | exact H].
Qed.

Lemma sourced_table_step (pairs : list (str * str)) (acc : dict * str)
      (r : row) :
  incl (row_texts r) pairs -> sourced pairs (fst acc) ->
  sourced pairs (fst (built (table_step acc r))).
Proof.
  intros Hp H. destruct r as [[|[k|e] [|[v|e'] rest]]|e]; try exact H.
  cbn [table_step built]. apply sourced_store_row; [|exact H].
  apply Hp. left. reflexivity.
Qed.

Lemma sourced_store_pair (pairs : list (str * str))
      (acc : list (str * str) * dict) (k v : str) :
  In (strip k, strip v) pairs -> sourced pairs (snd acc) ->
  sourced pairs (snd (store_pair acc k v)).
Proof.
  intros Hp H. unfold store_pair. cbv zeta.
  destruct (nonempty (strip k)); [|exact H].
  apply sourced_add_pair; assumption.
Qed.

Lemma sourced_labeled_step (pairs : list (str * str))
      (acc : list (str * str) * dict) (row : texts * texts) :
  incl (labeled_texts row) pairs -> sourced pairs (snd acc) ->
  sourced pairs (snd (built (labeled_step acc row))).
Proof.
  intros Hp H.
  destruct row as [[[|[k|e] ks]|e] [[|[v|e'] vs]|e']]; try exact H.
  cbn [labeled_step fst snd built]. apply sourced_store_pair; [|exact H].
  apply Hp. left. reflexivity.
Qed.

Lemma sourced_term_step (pairs : list (str * str))
      (acc : list (str * str) * dict) (td : outcome str * outcome str) :
  incl (term_texts td) pairs -> sourced pairs (snd acc) ->
  sourced pairs (snd (built (term_step acc td))).
Proof.
  intros Hp H. destruct td as [[t|e] [d|e']]; try exact H.
  cbn [term_step fst snd built]. apply sourced_store_pair; [|exact H].
  apply Hp. left. reflexivity.
Qed.

Lemma sourced_dl_step (pairs : list (str * str))
      (acc : list (str * str) * dict) (dl : texts * texts) :
  incl (dl_texts dl) pairs -> sourced pairs (snd acc) ->
  sourced pairs (snd (built (dl_step acc dl))).
Proof.
  intros Hp H. destruct dl as [[terms|e] [definitions|e']]; try exact H.
  cbn [dl_step fst snd]. cbn [dl_texts] in Hp.
  apply (for_each_invariant (fun a => sourced pairs (snd a)) term_step);
    [|exact H].
  intros td acc' Hin Hacc. apply sourced_term_step; [|exact Hacc].
  intros p Hin'. apply Hp.
  exact (in_flat_map_incl term_texts _ td Hin p Hin').
Qed.

Lemma sourced_try_patterns (pairs : list (str * str)) (seps : list ascii)
      (text : str) :
  incl (flat_map (pattern_texts text) seps) pairs ->
  forall acc, sourced pairs (snd acc) ->
              sourced pairs (snd (try_patterns seps text acc)).
Proof.
  induction seps as [|sep seps IH]; intros Hp acc H; [exact H|].
  cbn [try_patterns]. cbn [flat_map] in Hp. unfold pattern_texts at 1 in Hp.
  assert (Hrest : incl (flat_map (pattern_texts text) seps) pairs).
  { intros p Hin. apply Hp. apply in_or_app. right. exact Hin. }
  destruct (match_key_value sep text) as [[g1 g2]|]; [|apply IH; assumption].
  cbv zeta.
  destruct (existsb (fun spec => contains spec (lower (strip g1))) common_specs);
    [|apply IH; assumption].
  apply sourced_add_pair; [|exact H]. apply Hp. left. reflexivity.
Qed.

Lemma sourced_text_step (pairs : list (str * str))
      (acc : list (str * str) * dict) (element : outcome str) :
  incl (element_texts element) pairs -> sourced pairs (snd acc) ->
  sourced pairs (snd (built (text_step acc element))).
Proof.
  intros Hp H. destruct element as [t|e]; [|exact H].
  cbn [text_step built]. unfold scan_text. cbv zeta.
  destruct (negb (nonempty (strip t)) || (100 <? List.length (strip t))%nat);
    [exact H | apply sourced_try_patterns; assumption].
Qed.

Lemma sourced_for_each {A B : Type} (pairs : list (str * str))
      (texts_of : A -> list (str * str)) (proj : B -> dict)
      (step : B -> A -> run B) (l : list A) :
  (forall acc a, incl (texts_of a) pairs -> sourced pairs (proj acc) ->
                 sourced pairs (proj (built (step acc a)))) ->
  incl (flat_map texts_of l) pairs ->
  forall acc, sourced pairs (proj acc) ->
              sourced pairs (proj (built (for_each step l acc))).
Proof.
  intros Hstep Hp acc H.
  apply (for_each_invariant (fun a => sourced pairs (proj a)) step);
    [|exact H].
  intros a acc' Hin Hacc. apply Hstep; [|exact Hacc].
  intros p Hin'. apply Hp. exact (in_flat_map_incl texts_of l a Hin p Hin').
Qed.

Lemma sourced_fallback (pairs : list (str * str)) (d : document)
      (specs_dict : dict) :
  incl (of_query labeled_texts (spec_rows d)) pairs ->
  incl (of_query dl_texts (dl_elements d)) pairs ->
  incl (of_query element_texts (text_elements d)) pairs ->
  sourced pairs specs_dict -> sourced pairs (fst (fallback d specs_dict)).
Proof.
  intros Hl Hd Ht H. unfold fallback.
  destruct (spec_rows d) as [rows|]; [|exact H].
  cbn [of_query] in Hl.
  assert (H1 := sourced_for_each pairs labeled_texts snd labeled_step rows
                  (sourced_labeled_step pairs) Hl ([], specs_dict) H).
  destruct (for_each labeled_step rows ([], specs_dict)) as [acc1|acc1];
    cbn [built] in H1; [|exact H1].
  assert (H2 : forall r2,
             match fst acc1 with
             | [] => match dl_elements d with
                     | Ok dls => for_each dl_step dls acc1
                     | Raise _ => Aborted acc1
                     end
             | _ :: _ => Done acc1
             end = r2 -> sourced pairs (snd (built r2))).
  { intros r2 <-. destruct (fst acc1); [|exact H1].
    destruct (dl_elements d) as [dls|]; [|exact H1].
    cbn [of_query] in Hd.
    exact (sourced_for_each pairs dl_texts snd dl_step dls
             (sourced_dl_step pairs) Hd acc1 H1). }
  destruct (match fst acc1 with
            | [] => _
            | _ :: _ => _
            end) as [acc2|acc2];
    specialize (H2 _ eq_refl); cbn [built] in H2; [|exact H2].
  assert (H3 : forall r3,
             match fst acc2 with
             | [] => match text_elements d with
                     | Ok els => for_each text_step els acc2
                     | Raise _ => Aborted acc2
                     end
             | _ :: _ => Done acc2
             end = r3 -> sourced pairs (snd (built r3))).
  { intros r3 <-. destruct (fst acc2); [|exact H2].
    destruct (text_elements d) as [els|]; [|exact H2].
    cbn [of_query] in Ht.
    exact (sourced_for_each pairs element_texts snd text_step els
             (sourced_text_step pairs) Ht acc2 H2). }
  destruct (match fst acc2 with
            | [] => _
            | _ :: _ => _
            end) as [acc3|acc3];
    specialize (H3 _ eq_refl); cbn [built] in H3; exact H3.
Qed.

(** Whatever the page holds, every entry of the mapping that
    [extract_table_data] returns comes from a pair of texts of the page. *)
Lemma sourced_extract (d : document) :
  sourced (page_pairs d) (fst (extract_table_data d)).
Proof.
  assert (Hfb : forall specs_dict,
             sourced (page_pairs d) specs_dict ->
             sourced (page_pairs d) (fst (fallback d specs_dict))).
  { intros specs_dict. unfold page_pairs.
    apply sourced_fallback; intros p Hp; apply in_or_app; right.
    - apply in_or_app. left. exact Hp.
    - apply in_or_app. right. apply in_or_app. left. exact Hp.
    - apply in_or_app. right. apply in_or_app. right. exact Hp. }
  assert (Htable : forall rows rest,
             Yields.found_tables d = Ok (Ok rows :: rest) ->
             sourced (page_pairs d)
                     (fst (built (for_each table_step rows ([], table_open))))).
  { intros rows rest Hf.
    apply (sourced_for_each (page_pairs d) row_texts fst table_step rows
             (sourced_table_step (page_pairs d)));
      [|apply sourced_nil].
    intros p Hp. unfold page_pairs, table_texts. rewrite Hf.
    apply in_or_app. left. exact Hp. }
  unfold Yields.found_tables in Htable. unfold extract_table_data.
  destruct (spec_tables d) as [specs_tables|]; [|apply sourced_nil].
  assert (Ht : forall rows rest,
             match specs_tables with
             | [] => all_tables d
             | _ :: _ => Ok specs_tables
             end = Ok (Ok rows :: rest) ->
             sourced (page_pairs d)
                     (fst (built (for_each table_step rows ([], table_open))))).
  { intros rows rest E. apply (Htable rows rest).
    destruct specs_tables; exact E. }
  clear Htable.
  destruct (match specs_tables with
            | [] => all_tables d
            | _ :: _ => Ok specs_tables
            end) as [[|[rows|] rest]|]; try apply sourced_nil.
  - apply Hfb, sourced_nil.
  - specialize (Ht rows rest eq_refl).
    destruct (for_each table_step rows ([], table_open)) as [[sd sh]|acc];
      cbn [built fst] in Ht; [|exact Ht].
    destruct (nonempty (sh ++ table_close)); [exact Ht|].
    apply Hfb, Ht.
Qed.

End SourcedFacts.

(* --------------------------------------------------------------------- *)
(** ** Weight values in the output row *)
(* --------------------------------------------------------------------- *)

Module RowFacts.

Import Extract Process Cells.

Lemma place_specs_keep (fields : list str) (column : str) (l : dict) :
  leaves_column fields column l ->
  forall row_data,
    Dict.get column (fold_left (place_spec fields) l row_data)
    = Dict.get column row_data.
Proof.
  induction l as [|kv l IH]; intros Hl row_data; [reflexivity|].
  cbn [fold_left]. rewrite IH.
  - unfold place_spec.
    destruct (first_match (fst kv) fields) as [f|] eqn:E; [|reflexivity].
    apply dict_get_set_other. exact (Hl kv f (or_introl eq_refl) E).
  - intros kv' f Hin. apply Hl. right. exact Hin.
Qed.

Lemma fold_set_keep {A : Type} (column : str) (name : A -> str)
      (val : A -> str) (guard : A -> bool) (l : list A) :
  (forall a, name a <> column) ->
  forall row_data,
    Dict.get column
      (fold_left (fun d a => if guard a then Dict.set (name a) (val a) d else d)
                 l row_data)
    = Dict.get column row_data.
Proof.
  intros Hn. induction l as [|a l IH]; intros row_data; [reflexivity|].
  cbn [fold_left]. rewrite IH. destruct (guard a); [|reflexivity].
  apply dict_get_set_other, Hn.
Qed.

Lemma place_videos_keep (column : str) (vl : list str) (row_data : dict) :
  not_video_column column ->
  Dict.get column (place_videos vl row_data) = Dict.get column row_data.
Proof.
  intros Hc. unfold place_videos.
  rewrite (fold_set_keep column video_column (fun _ => [])
             (fun i => (i <=? 5)%nat) _ Hc).
  apply (fold_set_keep column (fun il : nat * str => video_column (fst il))
           (fun il => snd il) (fun _ => true)).
  intros il. apply Hc.
Qed.

(** The cell that a spec entry reaches when no later entry and no media
    link is written to the same column. *)
Lemma build_row_spec_cell (fields : list str) (model : str) (r : fetch_result)
      (before after : dict) (key value field : str) :
  specs_data r = before ++ (key, value) :: after ->
  first_match key fields = Some field ->
  leaves_column fields (Py.title field) after ->
  not_video_column (Py.title field) ->
  Dict.get (Py.title field) (build_row fields model r)
  = Some (weight_value key value).
Proof.
  intros Hs Hm Hafter Hv. unfold build_row. cbv zeta.
  rewrite (place_videos_keep _ _ _ Hv), Hs, fold_left_app.
  cbn [fold_left]. rewrite (place_specs_keep fields _ after Hafter).
  unfold place_spec at 1. cbn [fst snd]. rewrite Hm.
  apply dict_get_set_same.
Qed.

End RowFacts.

(** C10, as stated, fails: on a token above [2^53] the second application
    reads the first result as a [float] again, and the rounding can take
    the offset away.  From "72057594037927936 lbs" one application gives
    "72057594037927941 lbs" and a second one gives the same text, not the
    one with the offset added twice. *)
Lemma weight_offset_rounded_counterexample :
  process_weight_value "72057594037927936 lbs" = lit "72057594037927941 lbs"
  /\ process_weight_value (process_weight_value "72057594037927936 lbs")
     = process_weight_value "72057594037927936 lbs"
  /\ str_of_Z
       (Qceiling
          (inject_Z (Qceiling (token_number 72057594037927936 0 []) + 5)) + 5)
       ++ lit " lbs"
     = lit "72057594037927946 lbs".
Proof. repeat split; vm_compute; reflexivity. Qed.

(** C10 (amended). On ASCII strings.  For an input whose numeric token
    denotes [n] and leaves room for the offset (its digits, read as one
    integer and increased by 5, stay below [2^53]; at most 300 fraction
    digits), a second application of the weight normalizer yields
    [str(ceil(ceil(n) + 5) + 5)] and the same unit, which differs from the
    result of one application.  For any token, the second application
    takes the ceiling of the binary64 number nearest to the first result.
    The row processor applies the normalizer again to the values that the
    spec extractor stored under a weight key: such an entry comes from a
    key text and a value text [raw] of the page, its value is
    [process_weight_value raw], and the cell it reaches in the output row
    holds [process_weight_value (process_weight_value raw)]. *)
Theorem weight_offset_applied_twice :
  (forall (pre ip fp mid tail : str) (i f : N),
      forallb is_ascii (pre ++ token_text ip fp ++ mid ++ tail) = true ->
      no_digit pre = true ->
      ip <> [] -> forallb is_digit ip = true -> forallb is_digit fp = true ->
      digits_value ip = Some i -> digits_value fp = Some f ->
      extends_token fp (mid ++ tail) = false ->
      ends_numeric mid = true -> forallb non_numeric tail = true ->
      exactly_read_twice i f fp ->
      let s := pre ++ token_text ip fp ++ mid ++ tail in
      let once := (Qceiling (token_number i f fp) + 5)%Z in
      process_weight_value (process_weight_value s)
      = str_of_Z (Qceiling (inject_Z once) + 5) ++ unit_suffix tail
      /\ process_weight_value (process_weight_value s)
         <> process_weight_value s)
  /\
  (forall (pre ip fp mid tail : str) (i f : N),
      forallb is_ascii (pre ++ token_text ip fp ++ mid ++ tail) = true ->
      no_digit pre = true ->
      ip <> [] -> forallb is_digit ip = true -> forallb is_digit fp = true ->
      digits_value ip = Some i -> digits_value fp = Some f ->
      extends_token fp (mid ++ tail) = false ->
      ends_numeric mid = true -> forallb non_numeric tail = true ->
      let s := pre ++ token_text ip fp ++ mid ++ tail in
      process_weight_value (process_weight_value s) =
      match token_float i f fp with
      | Finite q =>
          match to_double (Qceiling q + 5) 1 with
          | Finite q' => str_of_Z (Qceiling q' + 5) ++ unit_suffix tail
          | Infinity => str_of_Z (Qceiling q + 5) ++ unit_suffix tail
          end
      | Infinity => s
      end)
  /\
  (forall (d : Extract.document) (fields : list str) (model : str)
          (r : fetch_result) (before after : dict) (key value field : str),
      Cells.ascii_document d = true ->
      specs_data r = fst (Extract.extract_table_data d) ->
      specs_data r = before ++ (key, value) :: after ->
      Extract.is_weight_key key = true ->
      Process.first_match key fields = Some field ->
      Cells.leaves_column fields (Py.title field) after ->
      Cells.not_video_column (Py.title field) ->
      exists key_text raw,
        In (key_text, raw) (Cells.page_pairs d)
        /\ key = lower key_text
        /\ value = process_weight_value raw
        /\ Dict.get (Py.title field) (Process.build_row fields model r)
           = Some (process_weight_value (process_weight_value raw))).
Proof.
  split; [|split].
  - intros pre ip fp mid tail i f _ Hpre Hne Hip Hfp Hi Hf Hext Hmid Htail
           Hr s once.
    destruct (process_weight_value_twice_exact pre ip fp mid tail i f
                Hpre Hne Hip Hfp Hi Hf Hext Hmid Htail Hr) as [_ [H2 H3]].
    split; [|exact H3]. rewrite Qceiling_Z. exact H2.
  - intros pre ip fp mid tail i f _. apply process_weight_value_twice.
  - intros d fields model r before after key value field
           _ Hd Hs Hw Hm Hafter Hv.
    assert (Hin : In (key, value) (fst (Extract.extract_table_data d))).
    { rewrite <- Hd, Hs. apply in_or_app. right. left. reflexivity. }
    destruct (SourcedFacts.sourced_extract d key value Hin)
      as [key_text [raw [Hp [Hk Hval]]]].
    assert (Hwk : Extract.is_weight_key key_text = true).
    { rewrite <- is_weight_key_lower, <- Hk. exact Hw. }
    unfold Extract.weight_value in Hval. rewrite Hwk in Hval.
    exists key_text, raw. split; [exact Hp|]. split; [exact Hk|].
    split; [exact Hval|].
    rewrite (RowFacts.build_row_spec_cell fields model r before after
               key value field Hs Hm Hafter Hv).
    unfold Extract.weight_value. rewrite Hw, Hval. reflexivity.
Qed.

Lemma weight_offset_applied_twice_witness :
  let r := fst (Scrape.scrape_katom griddle_browser "ABC123HC" "123"
                                    Scrape.no_session) in
  (process_weight_value (process_weight_value "22.93 lbs") = lit "33 lbs"
   /\ process_weight_value (process_weight_value "22.93 lbs")
      <> process_weight_value "22.93 lbs")
  /\ exists key_text raw,
      In (key_text, raw) (Cells.page_pairs (Scrape.doc griddle_page))
      /\ lit "weight" = lower key_text
      /\ lit "28 lbs" = process_weight_value raw
      /\ Dict.get (lit "Weight")
                  (Process.build_row Process.default_spec_fields "ABC123HC" r)
         = Some (process_weight_value (process_weight_value raw)).
Proof.
  split.
  - apply (proj1 weight_offset_applied_twice
             [] "22" "93" [] " lbs" 22%N 93%N); try reflexivity.
    + discriminate.
    + split; [reflexivity | vm_compute; lia].
  - apply (proj2 (proj2 weight_offset_applied_twice)
             (Scrape.doc griddle_page) Process.default_spec_fields
             (lit "ABC123HC")
             (fst (Scrape.scrape_katom griddle_browser "ABC123HC" "123"
                                       Scrape.no_session))
             [] [(lit "voltage", lit "120")]
             (lit "weight") (lit "28 lbs") (lit "weight")).
    + reflexivity.
    + reflexivity.
    + reflexivity.
    + reflexivity.
    + reflexivity.
    + intros kv f [<- | []] H. vm_compute in H. injection H as <-.
      intros E. vm_compute in E. discriminate E.
    + intros i E. vm_compute in E. discriminate E.
Defined.

(* ===================================================================== *)
(** * Further properties of the embedded code *)
(* ===================================================================== *)

(* --------------------------------------------------------------------- *)
(** ** Fixed points of the weight normalizer *)
(* --------------------------------------------------------------------- *)

(** X1. Fixed points of the weight normalizer, on ASCII strings.  A string
    without digit is left unchanged by any number of applications.  For a
    string with a numeric token, a second application leaves the first
    result unchanged exactly when the token is read as an infinite [float]
    (the input itself is then returned), or when the first result, read as
    a [float] again, is infinite or has the ceiling of the [float] of the
    token: the rounding to binary64 has then taken the offset away. *)
Theorem weight_fixed_points :
  (forall s : str,
      forallb is_ascii s = true -> no_digit s = true ->
      process_weight_value s = s
      /\ process_weight_value (process_weight_value s) = s)
  /\
  (forall (pre ip fp mid tail : str) (i f : N),
      forallb is_ascii (pre ++ token_text ip fp ++ mid ++ tail) = true ->
      no_digit pre = true ->
      ip <> [] -> forallb is_digit ip = true -> forallb is_digit fp = true ->
      digits_value ip = Some i -> digits_value fp = Some f ->
      extends_token fp (mid ++ tail) = false ->
      ends_numeric mid = true -> forallb non_numeric tail = true ->
      let s := pre ++ token_text ip fp ++ mid ++ tail in
      process_weight_value (process_weight_value s) = process_weight_value s
      <-> match token_float i f fp with
          | Finite q =>
              match to_double (Qceiling q + 5) 1 with
              | Finite q' => Qceiling q' = Qceiling q
              | Infinity => True
              end
          | Infinity => True
          end).
Proof.
  split.
  - intros s _ H.
    assert (H1 : process_weight_value s = s).
    { unfold process_weight_value, process_weight_value_try.
      rewrite (search_number_none s H). reflexivity. }
    rewrite !H1. split; reflexivity.
  - intros pre ip fp mid tail i f _ Hpre Hne Hip Hfp Hi Hf Hext Hmid Htail s.
    assert (H1 := process_weight_value_token pre ip fp mid tail i f
                    Hpre Hne Hip Hfp Hi Hf Hext Hmid Htail).
    assert (H2 := process_weight_value_twice pre ip fp mid tail i f
                    Hpre Hne Hip Hfp Hi Hf Hext Hmid Htail).
    cbv zeta in H1, H2. fold s in H1, H2. rewrite H2, H1.
    destruct (token_float i f fp) as [q|] eqn:Eq; [|tauto].
    assert (H0 : (0 <= Qceiling q)%Z).
    { apply (to_double_nonneg (token_numerator i f fp) (token_denominator fp)).
      - unfold token_numerator.
        assert (H10 := pow10_pos (List.length fp)). nia.
      - apply pow10_pos.
      - exact Eq. }
    destruct (to_double (Qceiling q + 5) 1) as [q'|] eqn:Eq'; [|tauto].
    assert (H0' : (0 <= Qceiling q')%Z).
    { apply (to_double_nonneg (Qceiling q + 5) 1); [lia | lia | exact Eq']. }
    split.
    + intros H. apply app_inv_tail in H. apply str_of_Z_inj in H; lia.
    + intros ->. reflexivity.
Qed.

Lemma weight_fixed_points_witness :
  process_weight_value (process_weight_value "72057594037927936 lbs")
  = process_weight_value "72057594037927936 lbs".
Proof.
  apply (proj2 weight_fixed_points
           [] "72057594037927936" [] [] " lbs" 72057594037927936%N 0%N).
  - reflexivity.
  - reflexivity.
  - discriminate.
  - reflexivity.
  - reflexivity.
  - reflexivity.
  - reflexivity.
  - reflexivity.
  - reflexivity.
  - reflexivity.
  - vm_compute. reflexivity.
Defined.

(* --------------------------------------------------------------------- *)
(** ** The product fetcher: model number, early exits, blank heading *)
(* --------------------------------------------------------------------- *)

Lemma upper_alnum_char (c : ascii) :
  isalnum c = true -> is_model_char (upper_char c) = true.
Proof. destruct c as [[] [] [] [] [] [] [] []]; try discriminate; reflexivity. Qed.

Lemma upper_filter_model_chars (m : str) :
  forallb is_model_char (upper (filter isalnum m)) = true.
Proof.
  induction m as [|c m IH]; [reflexivity|]. cbn [filter].
  destruct (isalnum c) eqn:E; [|exact IH].
  cbn [upper map forallb]. rewrite (upper_alnum_char c E). exact IH.
Qed.

Lemma forallb_firstn {A : Type} (p : A -> bool) (n : nat) (l : list A) :
  forallb p l = true -> forallb p (firstn n l) = true.
Proof.
  revert n. induction l as [|x l IH]; intros n H; destruct n; try reflexivity.
  cbn [firstn forallb] in *. apply andb_prop in H. destruct H as [Hx Hl].
  rewrite Hx. apply IH, Hl.
Qed.

Lemma filter_length_le {A : Type} (p : A -> bool) (l : list A) :
  List.length (filter p l) <= List.length l.
Proof.
  induction l as [|x l IH]; [reflexivity|]. cbn [filter].
  destruct (p x); cbn [List.length]; lia.
Qed.

(** X2. For a cell text in ASCII, the model number that goes into the URL
    holds only digits and upper-case letters, whatever the cell held, and is
    never longer than the cell text. *)
Theorem clean_model_number_chars (model_number : str) :
  forallb is_ascii model_number = true ->
  forallb is_model_char (Scrape.clean_model_number model_number) = true
  /\ List.length (Scrape.clean_model_number model_number)
     <= List.length model_number.
Proof.
  intros _. unfold Scrape.clean_model_number. cbv zeta.
  assert (Hc := upper_filter_model_chars model_number).
  assert (Hl : List.length (upper (filter isalnum model_number))
               <= List.length model_number).
  { unfold upper. rewrite length_map. apply filter_length_le. }
  destruct (endswith "HC" (upper (filter isalnum model_number))).
  - split; [apply forallb_firstn, Hc|].
    rewrite length_firstn. lia.
  - auto.
Qed.

Lemma clean_model_number_chars_witness :
  forallb is_model_char (Scrape.clean_model_number "abc-123 hc") = true
  /\ List.length (Scrape.clean_model_number "abc-123 hc")
     <= List.length (lit "abc-123 hc").
Proof.
  apply (clean_model_number_chars "abc-123 hc"). reflexivity.
Defined.

Lemma try_body_early (p : Scrape.page) (s : Scrape.session) :
  (exists e, Scrape.load p = Raise e)
  \/ (exists e, Scrape.driver_title p = Raise e)
  \/ (exists t, Scrape.driver_title p = Ok t /\ is_404_title t = true) ->
  fst (Scrape.try_body p s) = Scrape.defaults.
Proof.
  unfold Scrape.try_body.
  intros [[e H] | [[e H] | [t [H Ht]]]].
  - rewrite H. reflexivity.
  - rewrite H. destruct (Scrape.load p); reflexivity.
  - rewrite H. unfold is_404_title in Ht. rewrite Ht.
    destruct (Scrape.load p); reflexivity.
Qed.

(** X3. A fetch whose browser does not start, whose page load raises, whose
    page title cannot be read or whose page title announces a 404 returns
    the default tuple: both sentinels, no specs, no markup, no links. *)
Theorem early_exit_defaults
        (b : Scrape.browser) (model_number prefix : str) (s : Scrape.session) :
  let p := Scrape.get b (Scrape.url_of prefix
                           (Scrape.clean_model_number model_number)) in
  (exists e, Scrape.chrome b = Raise e)
  \/ (exists e, Scrape.load p = Raise e)
  \/ (exists e, Scrape.driver_title p = Raise e)
  \/ (exists t, Scrape.driver_title p = Ok t /\ is_404_title t = true) ->
  fst (Scrape.scrape_katom b model_number prefix s) = Scrape.defaults.
Proof.
  intros p H. unfold Scrape.scrape_katom.
  destruct (Scrape.chrome b) as [u|e0] eqn:Ec; [|reflexivity].
  fold p.
  assert (Hb : fst (Scrape.try_body p (Scrape.acquire s)) = Scrape.defaults).
  { apply try_body_early. destruct H as [[e H] | H]; [discriminate H | exact H]. }
  destruct (Scrape.try_body p (Scrape.acquire s)) as [r s']. exact Hb.
Qed.

Lemma early_exit_defaults_witness :
  fst (Scrape.scrape_katom delisted_browser "ZZZ9" "123" Scrape.no_session)
  = Scrape.defaults.
Proof.
  apply (early_exit_defaults delisted_browser "ZZZ9" "123" Scrape.no_session).
  right. right. right. exists (lit "404 Not Found"). split; reflexivity.
Defined.

Lemma found_empty_title : found [] = true.
Proof. reflexivity. Qed.

(** X4. A heading that is present but blank gives a result whose title is
    the empty string, not the sentinel, with nothing else extracted; the row
    processor takes such a title as found and appends a row for it. *)
Theorem blank_heading_is_found
        (b : Scrape.browser) (model_number prefix text t : str)
        (s : Scrape.session) :
  let p := Scrape.get b (Scrape.url_of prefix
                           (Scrape.clean_model_number model_number)) in
  Scrape.chrome b = Ok tt -> Scrape.load p = Ok tt ->
  Scrape.driver_title p = Ok t -> is_404_title t = false ->
  Scrape.title_wait p = Ok tt -> Scrape.title_element p = Ok text ->
  strip text = [] ->
  let r := fst (Scrape.scrape_katom b model_number prefix s) in
  title r = []
  /\ description r = Scrape.description_sentinel
  /\ specs_data r = [] /\ specs_html r = [] /\ video_links r = []
  /\ found (title r) = true
  /\ forall (e : Process.env) (fields : list str) (pfx model : str)
            (st : Process.state) (tbl : Process.output_table),
       Process.scrape e model pfx = Ok r ->
       Process.output_df st = Some tbl ->
       option_map Process.out_rows
                  (Process.output_df
                     (Process.process_record e fields pfx model st))
       = Some (Process.out_rows tbl ++ [Process.build_row fields model r]).
Proof.
  intros p Hc Hl Ht H404 Hw He Hs r.
  assert (Hr : r = {| title := []; description := Scrape.description_sentinel;
                      specs_data := []; specs_html := []; video_links := [] |}).
  { unfold r, Scrape.scrape_katom. rewrite Hc. fold p.
    unfold Scrape.try_body. rewrite Hl, Ht. unfold is_404_title in H404.
    rewrite H404. unfold Scrape.extract_page, Scrape.get_title.
    rewrite Hw, He, Hs. reflexivity. }
  rewrite Hr. cbn [title description specs_data specs_html video_links].
  repeat split.
  intros e fields pfx model st tbl Hscrape Hdf.
  unfold Process.process_record. cbv zeta. rewrite Hscrape.
  cbn [title]. rewrite found_empty_title.
  unfold Process.save_results, Process.append_row, Process.emit.
  cbn [Process.output_df]. rewrite Hdf. reflexivity.
Qed.

Lemma blank_heading_is_found_witness :
  let r := fst (Scrape.scrape_katom blank_heading_browser "ABC123" "605"
                                    Scrape.no_session) in
  title r = []
  /\ description r = Scrape.description_sentinel
  /\ specs_data r = [] /\ specs_html r = [] /\ video_links r = []
  /\ found (title r) = true
  /\ forall (e : Process.env) (fields : list str) (pfx model : str)
            (st : Process.state) (tbl : Process.output_table),
       Process.scrape e model pfx = Ok r ->
       Process.output_df st = Some tbl ->
       option_map Process.out_rows
                  (Process.output_df
                     (Process.process_record e fields pfx model st))
       = Some (Process.out_rows tbl ++ [Process.build_row fields model r]).
Proof.
  apply (blank_heading_is_found blank_heading_browser "ABC123" "605"
           (lit "   ") (lit "KaTom") Scrape.no_session); reflexivity.
Defined.

(* --------------------------------------------------------------------- *)
(** ** The spec extractor: the table strategy and the keys of the mapping *)
(* --------------------------------------------------------------------- *)

Lemma dict_mem_get (key : str) (d : dict) :
  Dict.mem key d = match Dict.get key d with Some _ => true | None => false end.
Proof.
  induction d as [|[k v] d IH]; [reflexivity|].
  cbn [Dict.mem Dict.get existsb fst]. destruct (Py.eqb k key); [reflexivity|].
  exact IH.
Qed.

Lemma dict_get_set (key key' value : str) (d : dict) :
  Dict.get key (Dict.set key' value d)
  = if Py.eqb key' key then Some value else Dict.get key d.
Proof.
  destruct (Py.eqb key' key) eqn:E.
  - apply py_eqb_eq in E. subst. apply dict_get_set_same.
  - apply dict_get_set_other. intros ->. rewrite py_eqb_refl in E. discriminate.
Qed.

Lemma dict_mem_in (key : str) (d : dict) :
  Dict.mem key d = false -> ~ In key (map fst d).
Proof.
  induction d as [|[k v] d IH]; cbn [Dict.mem existsb map fst In];
    [intros _ []|].
  intros H. apply orb_false_elim in H. destruct H as [Hk Hd].
  intros [-> | Hin]; [rewrite py_eqb_refl in Hk; discriminate|].
  exact (IH Hd Hin).
Qed.

Lemma dict_keys_set_new (key value : str) (d : dict) :
  Dict.mem key d = false ->
  map fst (Dict.set key value d) = map fst d ++ [key].
Proof.
  induction d as [|[k v] d IH]; cbn [Dict.mem existsb Dict.set map fst app];
    [reflexivity|].
  intros H. apply orb_false_elim in H. destruct H as [Hk Hd].
  rewrite Hk. cbn [map fst]. f_equal. apply IH, Hd.
Qed.


Module TableFacts.

Import Extract Yields Keys.






End TableFacts.





Module KeyFacts.

Import Extract Keys ExtractFacts.

Lemma well_keyed_nil : well_keyed [].
Proof. split; [constructor | intros k []]. Qed.

Lemma lower_nonempty (key : str) : key <> [] -> lower key <> [].
Proof. destruct key; [contradiction | discriminate]. Qed.

Lemma nonempty_true (key : str) : nonempty key = true -> key <> [].
Proof. destruct key; [discriminate | discriminate]. Qed.

Lemma well_keyed_store (key value : str) (d : dict) :
  key <> [] -> Dict.mem (lower key) d = false ->
  well_keyed d -> well_keyed (Dict.set (lower key) value d).
Proof.
  intros Hne Hmem [Hnd Hk]. unfold well_keyed.
  rewrite (dict_keys_set_new _ value d Hmem). split.
  - apply NoDup_app; [exact Hnd | repeat constructor; intros [] |].
    intros x Hx [<- | []]. exact (dict_mem_in _ d Hmem Hx).
  - intros k Hin. apply in_app_or in Hin. destruct Hin as [Hin | [<- | []]].
    + exact (Hk k Hin).
    + split; [apply lower_involutive | apply lower_nonempty, Hne].
Qed.

Lemma well_keyed_add_pair (key value : str) (acc : list (str * str) * dict) :
  key <> [] -> well_keyed (snd acc) ->
  well_keyed (snd (add_pair key value acc)).
Proof.
  intros Hne H. unfold add_pair, Dict.set_if_absent. cbn [snd].
  destruct (Dict.mem (lower key) (snd acc)) eqn:E; [exact H|].
  apply well_keyed_store; assumption.
Qed.

Lemma well_keyed_store_row (acc : dict * str) (c0 c1 : str) :
  well_keyed (fst acc) -> well_keyed (fst (store_row acc c0 c1)).
Proof.
  intros H. unfold store_row. cbv zeta. cbn [fst].
  destruct (nonempty (strip c0)) eqn:En; cbn [andb]; [|exact H].
  destruct (Dict.mem (lower (strip c0)) (fst acc)) eqn:Em; cbn [negb];
    [exact H|].
  apply well_keyed_store; [apply nonempty_true, En | exact Em | exact H].
Qed.

Lemma well_keyed_table_step (acc : dict * str) (r : row) :
  well_keyed (fst acc) -> well_keyed (fst (built (table_step acc r))).
Proof.
  intros H. destruct r as [[|[k|e] [|[v|e'] rest]]|e]; try exact H.
  cbn [table_step built]. apply well_keyed_store_row, H.
Qed.

Lemma well_keyed_store_pair (acc : list (str * str) * dict) (k v : str) :
  well_keyed (snd acc) -> well_keyed (snd (store_pair acc k v)).
Proof.
  intros H. unfold store_pair. cbv zeta.
  destruct (nonempty (strip k)) eqn:En; [|exact H].
  apply well_keyed_add_pair; [apply nonempty_true, En | exact H].
Qed.

Lemma well_keyed_labeled_step (acc : list (str * str) * dict)
      (row : texts * texts) :
  well_keyed (snd acc) -> well_keyed (snd (built (labeled_step acc row))).
Proof.
  intros H.
  destruct row as [[[|[k|e] ks]|e] [[|[v|e'] vs]|e']]; try exact H.
  cbn [labeled_step fst snd built]. apply well_keyed_store_pair, H.
Qed.

Lemma well_keyed_term_step (acc : list (str * str) * dict)
      (td : outcome str * outcome str) :
  well_keyed (snd acc) -> well_keyed (snd (built (term_step acc td))).
Proof.
  intros H. destruct td as [[t|e] [d|e']]; try exact H.
  cbn [term_step fst snd built]. apply well_keyed_store_pair, H.
Qed.

Lemma well_keyed_dl_step (acc : list (str * str) * dict)
      (dl : texts * texts) :
  well_keyed (snd acc) -> well_keyed (snd (built (dl_step acc dl))).
Proof.
  intros H. destruct dl as [[terms|e] [definitions|e']]; try exact H.
  cbn [dl_step fst snd].
  apply (for_each_invariant (fun a => well_keyed (snd a)) term_step);
    [|exact H].
  intros td acc' _. apply well_keyed_term_step.
Qed.

Lemma contains_nonempty (sub s : str) :
  sub <> [] -> contains sub s = true -> s <> [].
Proof.
  intros Hsub H ->. destruct sub; [contradiction|]. discriminate H.
Qed.

Lemma common_spec_key_nonempty (key : str) :
  existsb (fun spec => contains spec (lower key)) common_specs = true ->
  key <> [].
Proof.
  intros H ->. vm_compute in H. discriminate H.
Qed.

Lemma well_keyed_try_patterns (seps : list ascii) (text : str) :
  forall acc, well_keyed (snd acc) ->
              well_keyed (snd (try_patterns seps text acc)).
Proof.
  induction seps as [|sep seps IH]; intros acc H; [exact H|].
  cbn [try_patterns].
  destruct (match_key_value sep text) as [[g1 g2]|]; [|apply IH, H].
  cbv zeta.
  destruct (existsb (fun spec => contains spec (lower (strip g1))) common_specs)
    eqn:E; [|apply IH, H].
  apply well_keyed_add_pair; [apply common_spec_key_nonempty, E | exact H].
Qed.

Lemma well_keyed_text_step (acc : list (str * str) * dict)
      (element : outcome str) :
  well_keyed (snd acc) -> well_keyed (snd (built (text_step acc element))).
Proof.
  intros H. destruct element as [t|e]; [|exact H].
  cbn [text_step built]. unfold scan_text. cbv zeta.
  destruct (negb (nonempty (strip t)) || (100 <? List.length (strip t))%nat);
    [exact H | apply well_keyed_try_patterns, H].
Qed.

Lemma fold_invariant {A B : Type} (P : B -> Prop) (step : B -> A -> B)
      (l : list A) :
  (forall acc a, P acc -> P (step acc a)) ->
  forall acc, P acc -> P (fold_left step l acc).
Proof.
  intros Hstep. induction l as [|a l IH]; intros acc H; [exact H|].
  cbn [fold_left]. apply IH, Hstep, H.
Qed.

Lemma well_keyed_for_each {A B : Type} (proj : B -> dict)
      (step : B -> A -> run B) (l : list A) :
  (forall acc a, well_keyed (proj acc) ->
                 well_keyed (proj (built (step acc a)))) ->
  forall acc, well_keyed (proj acc) ->
              well_keyed (proj (built (for_each step l acc))).
Proof.
  intros Hstep acc H.
  apply (for_each_invariant (fun a => well_keyed (proj a)) step); [|exact H].
  intros a acc' _. apply Hstep.
Qed.

Lemma well_keyed_fallback (d : document) (specs_dict : dict) :
  well_keyed specs_dict -> well_keyed (fst (fallback d specs_dict)).
Proof.
  intros H. unfold fallback.
  destruct (spec_rows d) as [rows|]; [|exact H].
  assert (H1 := well_keyed_for_each snd labeled_step rows
                  well_keyed_labeled_step ([], specs_dict) H).
  destruct (for_each labeled_step rows ([], specs_dict)) as [acc1|acc1];
    cbn [built] in H1; [|exact H1].
  assert (H2 : forall r2,
             match fst acc1 with
             | [] => match dl_elements d with
                     | Ok dls => for_each dl_step dls acc1
                     | Raise _ => Aborted acc1
                     end
             | _ :: _ => Done acc1
             end = r2 -> well_keyed (snd (built r2))).
  { intros r2 <-. destruct (fst acc1); [|exact H1].
    destruct (dl_elements d) as [dls|]; [|exact H1].
    exact (well_keyed_for_each snd dl_step dls well_keyed_dl_step acc1 H1). }
  destruct (match fst acc1 with
            | [] => _
            | _ :: _ => _
            end) as [acc2|acc2];
    specialize (H2 _ eq_refl); cbn [built] in H2; [|exact H2].
  assert (H3 : forall r3,
             match fst acc2 with
             | [] => match text_elements d with
                     | Ok els => for_each text_step els acc2
                     | Raise _ => Aborted acc2
                     end
             | _ :: _ => Done acc2
             end = r3 -> well_keyed (snd (built r3))).
  { intros r3 <-. destruct (fst acc2); [|exact H2].
    destruct (text_elements d) as [els|]; [|exact H2].
    exact (well_keyed_for_each snd text_step els well_keyed_text_step
             acc2 H2). }
  destruct (match fst acc2 with
            | [] => _
            | _ :: _ => _
            end) as [acc3|acc3];
    specialize (H3 _ eq_refl); cbn [built] in H3; exact H3.
Qed.

End KeyFacts.

(** X7. Whatever the page holds and whichever query raises, the keys of the
    mapping returned are pairwise different, lower-cased and not empty. *)
Theorem extracted_keys_well_formed (d : Extract.document) :
  Keys.well_keyed (fst (Extract.extract_table_data d)).
Proof.
  unfold Extract.extract_table_data.
  destruct (Extract.spec_tables d) as [specs_tables|];
    [|exact KeyFacts.well_keyed_nil].
  destruct (match specs_tables with
            | [] => Extract.all_tables d
            | _ :: _ => Ok specs_tables
            end) as [tables|]; [|exact KeyFacts.well_keyed_nil].
  destruct tables as [|[rows|] rest]; [| |exact KeyFacts.well_keyed_nil].
  - apply KeyFacts.well_keyed_fallback, KeyFacts.well_keyed_nil.
  - assert (Ht := KeyFacts.well_keyed_for_each fst Extract.table_step rows
                    KeyFacts.well_keyed_table_step ([], Extract.table_open)
                    KeyFacts.well_keyed_nil).
    destruct (Extract.for_each Extract.table_step rows
                ([], Extract.table_open)) as [[sd sh]|acc];
      cbn [built fst] in Ht; [|exact Ht].
    destruct (Extract.nonempty (sh ++ Extract.table_close)); [exact Ht|].
    apply KeyFacts.well_keyed_fallback, Ht.
Qed.

(* --------------------------------------------------------------------- *)
(** ** The spec extractor: the two text patterns *)
(* --------------------------------------------------------------------- *)

Lemma span_until (p : ascii -> bool) (a tail : str) :
  forallb p a = true ->
  match tail with [] => true | c :: _ => negb (p c) end = true ->
  span p (a ++ tail) = (a, tail).
Proof.
  intros Ha Ht. destruct tail as [|c t].
  - rewrite List.app_nil_r. apply span_all, Ha.
  - apply span_stop; [exact Ha | apply negb_true_iff, Ht].
Qed.




(* --------------------------------------------------------------------- *)
(** ** The product fetcher: description and media links *)
(* --------------------------------------------------------------------- *)

Lemma startswith_spec (p s : str) :
  startswith p s = true <-> exists r, s = p ++ r.
Proof.
  split.
  - revert s. induction p as [|a p IH]; intros s H.
    + exists s. reflexivity.
    + destruct s as [|b s]; [discriminate|]. cbn [startswith] in H.
      apply andb_prop in H. destruct H as [Hab Hp].
      apply Ascii.eqb_eq in Hab. subst b.
      destruct (IH s Hp) as [r ->]. exists r. reflexivity.
  - intros [r ->]. apply startswith_app.
Qed.

Lemma contains_spec (sub s : str) :
  contains sub s = true <-> exists a b, s = a ++ sub ++ b.
Proof.
  split.
  - induction s as [|c s IH]; cbn [contains]; intros H.
    + rewrite orb_false_r in H. apply startswith_spec in H.
      destruct H as [r Hr]. exists [], r. exact Hr.
    + apply orb_prop in H. destruct H as [H | H].
      * apply startswith_spec in H. destruct H as [r Hr]. exists [], r.
        exact Hr.
      * destruct (IH H) as [a [b ->]]. exists (c :: a), b. reflexivity.
  - intros [a [b ->]]. apply contains_middle.
Qed.

Lemma contains_app_l (sub s t : str) :
  contains sub s = true -> contains sub (s ++ t) = true.
Proof.
  intros H. apply contains_spec in H. destruct H as [a [b ->]].
  rewrite <- !app_assoc. apply contains_middle.
Qed.

Lemma contains_trans (a b c : str) :
  contains a b = true -> contains b c = true -> contains a c = true.
Proof.
  intros Hab Hbc. apply contains_spec in Hab. apply contains_spec in Hbc.
  destruct Hab as [x [y ->]]. destruct Hbc as [u [v ->]].
  replace (u ++ (x ++ a ++ y) ++ v) with ((u ++ x) ++ a ++ (y ++ v))
    by (rewrite <- !app_assoc; reflexivity).
  apply contains_middle.
Qed.

Module LinkFacts.

Import Extract Links.

Lemma lines_app (a b : list str) : lines (a ++ b) = lines a ++ lines b.
Proof. unfold lines. rewrite map_app, concat_app. reflexivity. Qed.

Lemma lines_one (l : str) : lines [l] = l ++ [newline].
Proof. unfold lines. cbn. rewrite List.app_nil_r. reflexivity. Qed.

Lemma contains_line (l : str) (ls : list str) :
  In l ls -> contains l (lines ls) = true.
Proof.
  intros H. apply in_split in H. destruct H as [a [b ->]].
  rewrite lines_app. change (l :: b) with ([l] ++ b).
  rewrite lines_app, lines_one, <- !app_assoc. apply contains_middle.
Qed.

Lemma clean_nonempty (l : str) : clean l = true -> l <> [].
Proof. destruct l; [discriminate | discriminate]. Qed.

Lemma clean_spaceless (l : str) : clean l = true -> spaceless l = true.
Proof. unfold clean. intros H. apply andb_prop in H. apply H. Qed.

Lemma spaceless_left_trimmed (l : str) :
  spaceless l = true -> left_trimmed l = true.
Proof.
  destruct l as [|c l]; [reflexivity|]. cbn. intros H.
  apply andb_prop in H. apply H.
Qed.

Lemma strip_spaceless (l : str) : spaceless l = true -> strip l = l.
Proof.
  intros H. unfold strip, rstrip.
  rewrite (lstrip_fixed l (spaceless_left_trimmed l H)).
  rewrite lstrip_fixed; [apply rev_involutive|].
  apply spaceless_left_trimmed. apply rev_forallb. exact H.
Qed.

Lemma lines_join (ls : list str) :
  ls <> [] -> lines ls = join ls ++ [newline].
Proof.
  induction ls as [|l rest IH]; [contradiction|]. intros _.
  destruct rest as [|l' rest'].
  - apply lines_one.
  - change (l :: l' :: rest') with ([l] ++ (l' :: rest')).
    rewrite lines_app, lines_one, IH by discriminate.
    cbn [app join]. rewrite <- !app_assoc. reflexivity.
Qed.

Lemma join_nonempty (ls : list str) :
  ls <> [] -> Forall (fun l => clean l = true) ls -> join ls <> [].
Proof.
  destruct ls as [|l rest]; [contradiction|]. intros _ H.
  apply Forall_inv in H. apply clean_nonempty in H.
  destruct rest; cbn [join]; [exact H|].
  destruct l; [contradiction | discriminate].
Qed.

Lemma join_left_trimmed (ls : list str) :
  Forall (fun l => clean l = true) ls -> left_trimmed (join ls) = true.
Proof.
  destruct ls as [|l rest]; [reflexivity|]. intros H.
  apply Forall_inv in H.
  assert (Hl := spaceless_left_trimmed l (clean_spaceless l H)).
  apply clean_nonempty in H.
  destruct rest; cbn [join]; [exact Hl|].
  destruct l; [contradiction | exact Hl].
Qed.

Lemma join_right_trimmed (ls : list str) :
  Forall (fun l => clean l = true) ls -> left_trimmed (rev (join ls)) = true.
Proof.
  induction ls as [|l rest IH]; [reflexivity|]. intros H.
  assert (Hl := Forall_inv H). apply Forall_inv_tail in H.
  destruct rest as [|l' rest'].
  - cbn [join]. apply spaceless_left_trimmed, rev_forallb, clean_spaceless, Hl.
  - change (join (l :: l' :: rest')) with (l ++ newline :: join (l' :: rest')).
    rewrite rev_app_distr. cbn [rev]. rewrite <- app_assoc.
    assert (Hne := join_nonempty (l' :: rest') ltac:(discriminate) H).
    specialize (IH H).
    destruct (rev (join (l' :: rest'))) as [|c r] eqn:E.
    + apply (f_equal (@rev ascii)) in E. rewrite rev_involutive in E.
      contradiction.
    + exact IH.
Qed.

Lemma strip_lines (ls : list str) :
  Forall (fun l => clean l = true) ls -> strip (lines ls) = join ls.
Proof.
  intros H. destruct ls as [|l rest]; [reflexivity|].
  rewrite lines_join by discriminate.
  set (j := join (l :: rest)).
  assert (Hne : j <> []) by (apply join_nonempty; [discriminate | exact H]).
  assert (Hl : left_trimmed j = true) by (apply join_left_trimmed, H).
  assert (Hr : left_trimmed (rev j) = true) by (apply join_right_trimmed, H).
  unfold strip, rstrip.
  rewrite (lstrip_fixed (j ++ [newline])).
  - rewrite rev_app_distr. cbn [rev app lstrip].
    change (is_space newline) with true. cbv iota.
    rewrite (lstrip_fixed _ Hr). apply rev_involutive.
  - destruct j; [contradiction | exact Hl].
Qed.

Lemma split_on_free (l : str) :
  free_of newline l = true -> split_on newline l = [l].
Proof.
  induction l as [|c l IH]; [reflexivity|]. cbn [free_of forallb split_on].
  intros H. apply andb_prop in H. destruct H as [Hc Hl].
  apply negb_true_iff in Hc. rewrite Hc.
  unfold free_of in IH. rewrite (IH Hl). reflexivity.
Qed.

Lemma split_on_line (l rest : str) :
  free_of newline l = true ->
  split_on newline (l ++ newline :: rest) = l :: split_on newline rest.
Proof.
  induction l as [|c l IH]; cbn [free_of forallb app split_on].
  - intros _. rewrite Ascii.eqb_refl. reflexivity.
  - intros H. apply andb_prop in H. destruct H as [Hc Hl].
    apply negb_true_iff in Hc. rewrite Hc.
    unfold free_of in IH. rewrite (IH Hl). reflexivity.
Qed.

Lemma spaceless_free (l : str) :
  spaceless l = true -> free_of newline l = true.
Proof.
  unfold spaceless, free_of. intros H. apply forallb_forall. intros c Hc.
  rewrite forallb_forall in H. specialize (H c Hc).
  destruct (Ascii.eqb c newline) eqn:E; [|reflexivity].
  apply Ascii.eqb_eq in E. subst c. discriminate H.
Qed.

Lemma split_join (ls : list str) :
  ls <> [] -> Forall (fun l => clean l = true) ls ->
  split_on newline (join ls) = ls.
Proof.
  induction ls as [|l rest IH]; [contradiction|]. intros _ H.
  assert (Hl := spaceless_free l (clean_spaceless l (Forall_inv H))).
  apply Forall_inv_tail in H.
  destruct rest as [|l' rest'].
  - cbn [join]. apply split_on_free, Hl.
  - change (join (l :: l' :: rest')) with (l ++ newline :: join (l' :: rest')).
    rewrite (split_on_line l _ Hl). f_equal.
    apply IH; [discriminate | exact H].
Qed.

Lemma keep_clean (ls : list str) :
  Forall (fun l => clean l = true) ls ->
  map strip (filter (fun link => nonempty (strip link)) ls) = ls.
Proof.
  induction ls as [|l rest IH]; [reflexivity|]. intros H.
  assert (Hl := Forall_inv H). apply Forall_inv_tail in H.
  cbn [filter]. rewrite (strip_spaceless l (clean_spaceless l Hl)).
  assert (Hn : nonempty l = true).
  { unfold clean in Hl. apply andb_prop in Hl. apply Hl. }
  rewrite Hn. cbn [map].
  rewrite (strip_spaceless l (clean_spaceless l Hl)), (IH H). reflexivity.
Qed.

(** Reading back the text built from clean links gives the links. *)
Lemma video_list_lines (ls : list str) :
  Forall (fun l => clean l = true) ls ->
  Process.video_list (lines ls) = ls.
Proof.
  intros H. unfold Process.video_list. rewrite (strip_lines ls H).
  destruct ls as [|l rest]; [reflexivity|].
  rewrite split_join by (discriminate || exact H).
  apply keep_clean, H.
Qed.

End LinkFacts.

Module CollectFacts.

Import Extract Links LinkFacts.

Lemma collect (srcs : list (option str)) :
  forall ls,
    Forall (fun l => clean l = true) ls -> NoDup ls ->
    Forall (fun l => spaceless l = true) (present srcs) ->
    exists ls',
      fold_left Scrape.add_link srcs (lines ls) = lines (ls ++ ls')
      /\ NoDup (ls ++ ls')
      /\ Forall (fun l => clean l = true) (ls ++ ls')
      /\ (forall l, In l ls' -> In l (present srcs))
      /\ (forall l, In l (present srcs) -> l <> [] ->
                    contains l (lines (ls ++ ls')) = true).
Proof.
  induction srcs as [|o srcs IH]; intros ls Hclean Hnd Hsp.
  - exists []. rewrite List.app_nil_r.
    repeat split; auto; intros l [].
  - assert (Hskip : forall l0, (forall l, In l l0 -> l = []) ->
               present (o :: srcs) = l0 ++ present srcs ->
               Scrape.add_link (lines ls) o = lines ls ->
               exists ls',
                 fold_left Scrape.add_link (o :: srcs) (lines ls)
                 = lines (ls ++ ls')
                 /\ NoDup (ls ++ ls')
                 /\ Forall (fun l => clean l = true) (ls ++ ls')
                 /\ (forall l, In l ls' -> In l (present (o :: srcs)))
                 /\ (forall l, In l (present (o :: srcs)) -> l <> [] ->
                               contains l (lines (ls ++ ls')) = true)).
    { intros l0 Hl0 Hp Hadd. rewrite Hp in Hsp.
      apply Forall_app in Hsp. destruct Hsp as [_ Hsp].
      destruct (IH ls Hclean Hnd Hsp) as [ls' [Hf [Hn [Hc [Hin Hrep]]]]].
      exists ls'. cbn [fold_left]. rewrite Hadd, Hp.
      repeat split; auto.
      - intros l Hl. apply in_or_app. right. apply Hin, Hl.
      - intros l Hl Hne. apply in_app_or in Hl. destruct Hl as [Hl | Hl].
        + elim Hne. apply Hl0, Hl.
        + apply Hrep; assumption. }
    destruct o as [[|c s]|].
    + apply (Hskip [[]]); try reflexivity. intros l [<- | []]. reflexivity.
    + set (l := c :: s) in *.
      assert (Hl : clean l = true).
      { apply Forall_inv in Hsp. unfold clean. rewrite Hsp. reflexivity. }
      cbn [present flat_map app] in Hsp. fold (present srcs) in Hsp.
      apply Forall_inv_tail in Hsp.
      assert (Hadd : Scrape.add_link (lines ls) (Some l)
                     = if negb (contains l (lines ls))
                       then lines ls ++ l ++ [newline] else lines ls)
        by reflexivity.
      destruct (contains l (lines ls)) eqn:Ec; cbn [negb] in Hadd.
      * destruct (IH ls Hclean Hnd Hsp) as [ls' [Hf [Hn [Hc [Hin Hrep]]]]].
        exists ls'.
        change (fold_left Scrape.add_link (Some l :: srcs) (lines ls))
          with (fold_left Scrape.add_link srcs
                          (Scrape.add_link (lines ls) (Some l))).
        rewrite Hadd. repeat split; auto.
        -- intros x Hx. right. apply Hin, Hx.
        -- intros x [<- | Hx] Hne.
           ++ rewrite lines_app. apply contains_app_l, Ec.
           ++ apply Hrep; assumption.
      * assert (Hnew : ~ In l ls).
        { intros Hin. rewrite (contains_line l ls Hin) in Ec. discriminate. }
        assert (Hnd' : NoDup (ls ++ [l])).
        { apply NoDup_app; [exact Hnd | repeat constructor; intros [] |].
          intros x Hx [<- | []]. exact (Hnew Hx). }
        assert (Hclean' : Forall (fun l => clean l = true) (ls ++ [l])).
        { apply Forall_app. split; [exact Hclean | repeat constructor; exact Hl]. }
        destruct (IH (ls ++ [l]) Hclean' Hnd' Hsp)
          as [ls' [Hf [Hn [Hc [Hin Hrep]]]]].
        exists (l :: ls'). rewrite <- app_assoc in Hf, Hn, Hc, Hrep.
        cbn [app] in Hf, Hn, Hc, Hrep.
        change (fold_left Scrape.add_link (Some l :: srcs) (lines ls))
          with (fold_left Scrape.add_link srcs
                          (Scrape.add_link (lines ls) (Some l))).
        rewrite Hadd.
        rewrite lines_app, lines_one in Hf.
        repeat split; auto.
        -- intros x [<- | Hx]; [left; reflexivity | right; apply Hin, Hx].
        -- intros x [<- | Hx] Hne.
           ++ apply contains_line. apply in_or_app. right. left. reflexivity.
           ++ apply Hrep; assumption.
    + apply (Hskip []); try reflexivity. intros l [].
Qed.

End CollectFacts.

Lemma collected_read_back (srcs : list (option str)) :
  Forall (fun l => Links.spaceless l = true) (Links.present srcs) ->
  let v := fold_left Scrape.add_link srcs [] in
  NoDup (Process.video_list v)
  /\ (forall l, In l (Process.video_list v) -> In (Some l) srcs)
  /\ (forall l, In (Some l) srcs -> l <> [] -> contains l v = true)
  /\ v = Links.lines (Process.video_list v).
Proof.
  intros Hsp v.
  destruct (CollectFacts.collect srcs [] (Forall_nil _) (NoDup_nil _) Hsp)
    as [ls [Hf [Hn [Hc [Hin Hrep]]]]].
  cbn [app] in *. change (Links.lines []) with (@nil ascii) in Hf.
  fold v in Hf. rewrite Hf, (LinkFacts.video_list_lines ls Hc).
  assert (Hp : forall l, In l (Links.present srcs) <-> In (Some l) srcs).
  { intros l. unfold Links.present. rewrite in_flat_map. split.
    - intros [[x|] [Hx Hl]]; [destruct Hl as [<- | []]; exact Hx | destruct Hl].
    - intros H. exists (Some l). split; [exact H | left; reflexivity]. }
  repeat split; auto.
  - intros l Hl. apply Hp, Hin, Hl.
  - intros l Hl Hne. apply Hrep; [apply Hp, Hl | exact Hne].
Qed.

(** X9. The media links of a page whose first query returns sources:
    when the [src] values hold no white space and one of them is not empty,
    the links are those of the first query alone, whatever the other two
    queries would return or raise.  Read back the way the row processor
    reads them, they are pairwise different, each is one of the sources,
    every source that is not empty occurs in the text, and the text is
    exactly those links, one per line. *)
Theorem media_links_of_first_query
        (p : Scrape.page) (srcs : list (option str)) :
  Scrape.mp4_sources p = Ok srcs ->
  Forall (fun l => Links.spaceless l = true) (Links.present srcs) ->
  (exists l, In (Some l) srcs /\ l <> []) ->
  let v := Scrape.get_video_links p in
  v = fold_left Scrape.add_link srcs []
  /\ NoDup (Process.video_list v)
  /\ (forall l, In l (Process.video_list v) -> In (Some l) srcs)
  /\ (forall l, In (Some l) srcs -> l <> [] -> contains l v = true)
  /\ v = Links.lines (Process.video_list v).
Proof.
  intros Hs Hsp [l0 [Hin0 Hne0]] v.
  destruct (collected_read_back srcs Hsp) as [Hn [Hfrom [Hrep Hlines]]].
  assert (Hv : v = fold_left Scrape.add_link srcs []).
  { unfold v, Scrape.get_video_links. rewrite Hs. cbv zeta.
    assert (Hc := Hrep l0 Hin0 Hne0).
    destruct (fold_left Scrape.add_link srcs []) as [|c t]; [|reflexivity].
    destruct l0; [contradiction | discriminate Hc]. }
  rewrite Hv. auto.
Qed.

Lemma media_links_of_first_query_witness :
  let v := Scrape.get_video_links repeated_sources_page in
  v = fold_left Scrape.add_link repeated_sources []
  /\ NoDup (Process.video_list v)
  /\ (forall l, In l (Process.video_list v) -> In (Some l) repeated_sources)
  /\ (forall l, In (Some l) repeated_sources -> l <> [] ->
                contains l v = true)
  /\ v = Links.lines (Process.video_list v).
Proof.
  apply (media_links_of_first_query repeated_sources_page repeated_sources).
  - reflexivity.
  - repeat constructor.
  - exists (lit "https://cdn.example.com/a.mp4"). split.
    + right. left. reflexivity.
    + discriminate.
Defined.

(* --------------------------------------------------------------------- *)
(** ** Keys of a dictionary *)
(* --------------------------------------------------------------------- *)

Lemma dict_mem_true (key : str) (d : dict) :
  Dict.mem key d = true -> In key (map fst d).
Proof.
  induction d as [|[k v] d IH]; cbn [Dict.mem existsb map fst In];
    [discriminate|].
  intros H. apply orb_prop in H. destruct H as [H | H].
  - left. apply py_eqb_eq, H.
  - right. apply IH, H.
Qed.

Lemma dict_keys_set (key value : str) (d : dict) :
  map fst (Dict.set key value d)
  = if Dict.mem key d then map fst d else map fst d ++ [key].
Proof.
  induction d as [|[k v] d IH]; cbn [Dict.mem existsb Dict.set map fst app];
    [reflexivity|].
  destruct (Py.eqb k key); cbn [orb map fst]; [reflexivity|].
  rewrite IH. fold (Dict.mem key d). destruct (Dict.mem key d); reflexivity.
Qed.

Lemma dict_set_in (key value : str) (d : dict) (k : str) :
  In k (map fst (Dict.set key value d)) <-> k = key \/ In k (map fst d).
Proof.
  rewrite dict_keys_set. destruct (Dict.mem key d) eqn:E.
  - split; [auto|]. intros [-> | H]; [apply dict_mem_true, E | exact H].
  - rewrite in_app_iff. cbn [In]. split.
    + intros [H | [<- | []]]; auto.
    + intros [-> | H]; auto.
Qed.

Lemma dict_set_nodup (key value : str) (d : dict) :
  NoDup (map fst d) -> NoDup (map fst (Dict.set key value d)).
Proof.
  intros H. rewrite dict_keys_set. destruct (Dict.mem key d) eqn:E; [exact H|].
  apply NoDup_app; [exact H | repeat constructor; intros [] |].
  intros x Hx [<- | []]. exact (dict_mem_in _ _ E Hx).
Qed.

Lemma dict_get_in (key value : str) (d : dict) :
  Dict.get key d = Some value -> In key (map fst d).
Proof.
  intros H. apply dict_mem_true. rewrite dict_mem_get, H. reflexivity.
Qed.

Lemma fold_invariant_in {A B : Type} (P : B -> Prop) (step : B -> A -> B)
      (l : list A) :
  (forall acc a, In a l -> P acc -> P (step acc a)) ->
  forall acc, P acc -> P (fold_left step l acc).
Proof.
  induction l as [|a l IH]; intros Hstep acc H; [exact H|].
  cbn [fold_left]. apply IH.
  - intros acc' a' Hin. apply Hstep. right. exact Hin.
  - apply Hstep; [left; reflexivity | exact H].
Qed.

(* --------------------------------------------------------------------- *)
(** ** The output row and the output table *)
(* --------------------------------------------------------------------- *)

Module OutputFacts.

Import Extract Process Run Table ProcessFacts.

Lemma first_match_in (key : str) (fields : list str) (f : str) :
  first_match key fields = Some f -> In f fields.
Proof.
  induction fields as [|field rest IH]; cbn [first_match]; [discriminate|].
  destruct (Py.eqb (lower key) (lower field)
            || contains (lower key) (lower field)).
  - intros [= <-]. left. reflexivity.
  - intros H. right. apply IH, H.
Qed.

Lemma video_column_in (fields : list str) (i : nat) :
  1 <= i <= 5 -> In (video_column i) (output_columns fields).
Proof.
  intros Hi. unfold output_columns. apply in_or_app. right.
  apply in_or_app. right. apply in_map, in_seq. lia.
Qed.

Lemma field_column_in (fields : list str) (f : str) :
  In f fields -> In (Py.title f) (output_columns fields).
Proof.
  intros Hf. unfold output_columns. apply in_or_app. right.
  apply in_or_app. left. apply in_map, Hf.
Qed.

(** A property of the key list that holds of the three base keys and is
    kept by every assignment [build_row] makes holds of the row. *)
Lemma build_row_invariant (P : dict -> Prop) (fields : list str)
      (model : str) (r : fetch_result) :
  (forall d key value,
      In key (output_columns fields) -> P d -> P (Dict.set key value d)) ->
  P [ (lit "Mfr Model", model); (lit "Title", title r);
      (lit "Description", combined_description r) ] ->
  P (build_row fields model r).
Proof.
  intros Hset Hbase. unfold build_row, place_videos. cbv zeta.
  apply fold_invariant_in.
  { intros d i Hi Hd. apply in_seq in Hi.
    destruct (i <=? 5)%nat eqn:E; [|exact Hd].
    apply Nat.leb_le in E. apply Hset; [|exact Hd].
    apply video_column_in. lia. }
  apply fold_invariant_in.
  { intros d [i l] Hi Hd. apply in_combine_l in Hi. apply in_seq in Hi.
    apply Hset; [|exact Hd]. apply video_column_in. cbn [fst]. lia. }
  apply fold_invariant_in.
  { intros d kv _ Hd. unfold place_spec.
    destruct (first_match (fst kv) fields) as [f|] eqn:E; [|exact Hd].
    apply Hset; [|exact Hd]. apply field_column_in.
    exact (first_match_in _ _ _ E). }
  apply fold_invariant_in.
  { intros d f Hf Hd. apply Hset; [|exact Hd]. apply field_column_in, Hf. }
  exact Hbase.
Qed.

Lemma build_row_keys (fields : list str) (model : str) (r : fetch_result)
      (k : str) :
  In k (map fst (build_row fields model r)) -> In k (output_columns fields).
Proof.
  revert k.
  apply (build_row_invariant
           (fun d => forall k, In k (map fst d) -> In k (output_columns fields))).
  - intros d key value Hkey Hd k Hk. apply dict_set_in in Hk.
    destruct Hk as [-> | Hk]; [exact Hkey | apply Hd, Hk].
  - intros k Hk. unfold output_columns. apply in_or_app. left. exact Hk.
Qed.

Lemma build_row_nodup (fields : list str) (model : str) (r : fetch_result) :
  NoDup (map fst (build_row fields model r)).
Proof.
  apply (build_row_invariant (fun d => NoDup (map fst d))).
  - intros d key value _. apply dict_set_nodup.
  - cbn [map fst]. repeat constructor; cbn [In].
    + intros [H | [H | []]]; vm_compute in H; discriminate H.
    + intros [H | []]; vm_compute in H; discriminate H.
    + intros [].
Qed.

(** Once a key is in the row it stays. *)
Lemma fold_keeps_key {A : Type} (k : str) (step : dict -> A -> dict)
      (l : list A) :
  (forall d a, In k (map fst d) -> In k (map fst (step d a))) ->
  forall d, In k (map fst d) -> In k (map fst (fold_left step l d)).
Proof.
  intros Hstep.
  apply (KeyFacts.fold_invariant (fun d => In k (map fst d))). exact Hstep.
Qed.

Lemma fold_set_key (fields : list str) (f : str) :
  In f fields ->
  forall d,
    In (Py.title f)
       (map fst (fold_left (fun d field => Dict.set (Py.title field) [] d)
                           fields d)).
Proof.
  induction fields as [|g rest IH]; intros Hf d; [destruct Hf|].
  cbn [fold_left]. destruct Hf as [-> | Hf]; [|apply IH, Hf].
  apply fold_keeps_key.
  - intros d' a H. apply dict_set_in. right. exact H.
  - apply dict_set_in. left. reflexivity.
Qed.

Lemma build_row_has_columns (fields : list str) (model : str)
      (r : fetch_result) (k : str) :
  In k (output_columns fields) -> In k (map fst (build_row fields model r)).
Proof.
  unfold output_columns. rewrite !in_app_iff. intros [Hk | [Hk | Hk]].
  - unfold build_row, place_videos. cbv zeta.
    repeat (apply fold_keeps_key;
            [intros d a H; try unfold place_spec;
             repeat match goal with
                    | |- context [match ?x with _ => _ end] => destruct x
                    end;
             try exact H; apply dict_set_in; right; exact H |]).
    exact Hk.
  - apply in_map_iff in Hk. destruct Hk as [f [<- Hf]].
    unfold build_row, place_videos. cbv zeta.
    do 3 (apply fold_keeps_key;
            [intros d a H; try unfold place_spec;
             repeat match goal with
                    | |- context [match ?x with _ => _ end] => destruct x
                    end;
             try exact H; apply dict_set_in; right; exact H |]).
    apply fold_set_key, Hf.
  - apply in_map_iff in Hk. destruct Hk as [i [<- Hi]]. apply in_seq in Hi.
    apply (dict_get_in _ (nth (i - 1) (firstn 5 (video_list (video_links r)))
                              [])).
    unfold build_row. cbv zeta. apply place_videos_columns. lia.
Qed.




Section Loop.

Variable e : env.
Variable fields : list str.
Variable prefix : str.
Variable model_col total_rows : nat.







End Loop.

End OutputFacts.

Module RunFacts.

Import Extract Process Run Table ProcessFacts OutputFacts.



Lemma rows_non_terminal (e : env) (fields : list str) (prefix : str)
      (model_col total_rows : nat) (rows : list (list cell)) :
  forall (i : nat) (s : state),
    forallb non_terminal (emitted s) = true ->
    forallb non_terminal
      (emitted (fst (process_rows e fields prefix model_col total_rows
                                  rows i s))) = true.
Proof.
  induction rows as [|r rest IH]; intros i s Hs; [exact Hs|].
  cbn [process_rows]. destruct (running_at e i); cbn [negb]; [|exact Hs].
  destruct (nonempty (str_of_cell (nth model_col r CellNaN))); cbn [negb];
    [|apply IH, Hs].
  apply IH. unfold emit at 1. cbn [emitted].
  rewrite emitted_record, !forallb_app, Hs. reflexivity.
Qed.

(** The signals of a run: no terminal signal, then one terminal signal,
    or none when the run was stopped. *)
Lemma signal_shape (e : env) :
  exists l t,
    emitted (process_file e) = l ++ t
    /\ forallb non_terminal l = true
    /\ (terminal_tail t = true
        \/ (t = [] /\ exists k, running_at e k = false)).
Proof.
  assert (Herr : forall m s,
             emitted s = [] ->
             exists l t,
               emitted (emit (Error m) s) = l ++ t
               /\ forallb non_terminal l = true
               /\ (terminal_tail t = true
                   \/ (t = [] /\ exists k, running_at e k = false))).
  { intros m s Hs. exists [], [Error m]. unfold emit. cbn [emitted].
    rewrite Hs. auto. }
  unfold process_file.
  destruct (selected_file e); [|apply Herr; reflexivity].
  destruct (aborted_by_hook (hook_results e)); [apply Herr; reflexivity|].
  destruct (load_file_data e) as [m|df]; [apply Herr; reflexivity|].
  destruct (find_model_col (columns df)) as [model_col|];
    [|apply Herr; reflexivity].
  destruct (makedirs e); [apply Herr; reflexivity|].
  destruct (List.length (records df) =? 0)%nat;
    [apply Herr; apply emitted_save|].
  set (s3 := emit _ _).
  assert (H3 : forallb non_terminal (emitted s3) = true).
  { unfold s3, emit. cbn [emitted]. rewrite emitted_save. reflexivity. }
  set (fields := match config e with
                 | Some c => common_spec_fields c
                 | None => default_spec_fields
                 end).
  set (prefix := match config e with
                 | Some c => output_prefix c
                 | None => strip (prefix_input e)
                 end).
  assert (H4 := rows_non_terminal e fields prefix model_col
                  (List.length (records df)) (records df) 0 s3 H3).
  destruct (process_rows e fields prefix model_col
              (List.length (records df)) (records df) 0 s3) as [s4 k].
  cbn [fst] in H4. destruct (running_at e k) eqn:Ek.
  - exists (emitted s4), [Finished]. auto.
  - exists (emitted s4), []. rewrite List.app_nil_r.
    repeat split; [exact H4|]. right. split; [reflexivity|].
    exists k. exact Ek.
Qed.

End RunFacts.



(** X11. The keys of an output row are the columns of the header: every
    key is a column, every column is a key, and no key occurs twice.  So a
    row never adds a column to the table and never leaves a cell of the
    header unset. *)
Theorem row_keys_are_header_columns
        (fields : list str) (model : str) (r : fetch_result) :
  NoDup (map fst (Process.build_row fields model r))
  /\ forall k, In k (map fst (Process.build_row fields model r))
               <-> In k (Process.output_columns fields).
Proof.
  split; [apply OutputFacts.build_row_nodup|].
  intros k. split.
  - apply OutputFacts.build_row_keys.
  - apply OutputFacts.build_row_has_columns.
Qed.



Example file_after_failed_save :
  let s := Process.process_file failed_save_env in
  Process.saves s = 3
  /\ option_map (fun t => List.length (Process.out_rows t))
                (Process.output_df s) = Some 2
  /\ option_map (fun t => List.length (Process.out_rows t))
                (Process.artifact s) = Some 1.
Proof. cbv zeta. repeat split; vm_compute; reflexivity. Qed.

(** X13. The signals of a run: a run emits at most one terminal signal
    ([finished] or [error]), nothing after it, and it emits none only when
    it read [running] as false. *)
Theorem one_terminal_signal (e : Process.env) :
  exists l t,
    Process.emitted (Process.process_file e) = l ++ t
    /\ forallb non_terminal l = true
    /\ (Table.terminal_tail t = true
        \/ (t = [] /\ exists k, Process.running_at e k = false)).
Proof. exact (RunFacts.signal_shape e). Qed.

(** X14. A run that is not stopped leaves the row idle: once its signals
    are delivered to the row in order, [running] is false, Start is enabled
    and Stop is disabled, whatever the row looked like before. *)
Theorem unstopped_run_ends_idle (e : Process.env) (u0 : Row.ui) :
  (forall k, Process.running_at e k = true) ->
  let u := Row.deliver_all u0 (Process.emitted (Process.process_file e)) in
  Row.running u = false
  /\ Row.start_enabled u = true
  /\ Row.stop_enabled u = false.
Proof.
  intros Hrun u. unfold u.
  destruct (RunFacts.signal_shape e) as [l [t [-> [_ [Ht | [_ [k Hk]]]]]]].
  2:{ rewrite Hrun in Hk. discriminate. }
  unfold Row.deliver_all. rewrite fold_left_app.
  destruct t as [|[| | |m] [|sg t]]; try discriminate; cbn; auto.
Qed.

Lemma unstopped_run_ends_idle_witness :
  let u := Row.deliver_all Row.started
             (Process.emitted (Process.process_file blank_row_env)) in
  Row.running u = false
  /\ Row.start_enabled u = true
  /\ Row.stop_enabled u = false.
Proof.
  apply (unstopped_run_ends_idle blank_row_env Row.started).
  intros k. reflexivity.
Defined.

Module ShadowFacts.

Import Extract Process Cells OutputFacts.

(** After the loop that blanks the spec columns, the column of every field
    holds the empty string. *)
Lemma blank_cell (fields : list str) (column : str) :
  forall d,
    Dict.get column d = Some [] \/ In column (map Py.title fields) ->
    Dict.get column
             (fold_left (fun d field => Dict.set (Py.title field) [] d)
                        fields d)
    = Some [].
Proof.
  induction fields as [|f rest IH]; intros d H.
  - destruct H as [H | []]. exact H.
  - cbn [fold_left]. apply IH. rewrite dict_get_set.
    destruct (Py.eqb (Py.title f) column) eqn:E; [left; reflexivity|].
    destruct H as [H | [H | H]]; [left; exact H | | right; exact H].
    subst column. rewrite py_eqb_refl in E. discriminate.
Qed.

Lemma first_match_app (key : str) (a b : list str) :
  first_match key (a ++ b)
  = match first_match key a with
    | Some f => Some f
    | None => first_match key b
    end.
Proof.
  induction a as [|f a IH]; [reflexivity|].
  cbn [app first_match].
  destruct (Py.eqb (lower key) (lower f) || contains (lower key) (lower f));
    [reflexivity | exact IH].
Qed.

(** A key that matches [f2] matches every field that contains [f2]. *)
Lemma match_wider (key f1 f2 : str) :
  contains (lower f2) (lower f1) = true ->
  Py.eqb (lower key) (lower f2) || contains (lower key) (lower f2) = true ->
  Py.eqb (lower key) (lower f1) || contains (lower key) (lower f1) = true.
Proof.
  intros H12 H. apply orb_true_iff. right.
  apply orb_prop in H. destruct H as [H | H].
  - apply py_eqb_eq in H. rewrite H. exact H12.
  - exact (contains_trans _ _ _ H H12).
Qed.

Lemma shadowed (key f1 f2 f : str) (a b c : list str) :
  contains (lower f2) (lower f1) = true ->
  first_match key (a ++ f1 :: b ++ f2 :: c) = Some f ->
  In f (a ++ f1 :: b ++ c).
Proof.
  intros H12. rewrite first_match_app.
  destruct (first_match key a) as [g|] eqn:Ea.
  { intros [= <-]. apply in_or_app. left. exact (first_match_in _ _ _ Ea). }
  cbn [first_match].
  destruct (Py.eqb (lower key) (lower f1) || contains (lower key) (lower f1))
    eqn:E1.
  { intros [= <-]. apply in_or_app. right. left. reflexivity. }
  rewrite first_match_app.
  destruct (first_match key b) as [g|] eqn:Eb.
  { intros [= <-]. apply in_or_app. right. right. apply in_or_app. left.
    exact (first_match_in _ _ _ Eb). }
  cbn [first_match].
  destruct (Py.eqb (lower key) (lower f2) || contains (lower key) (lower f2))
    eqn:E2.
  { rewrite (match_wider key f1 f2 H12 E2) in E1. discriminate. }
  intros H. apply in_or_app. right. right. apply in_or_app. right.
  exact (first_match_in _ _ _ H).
Qed.

End ShadowFacts.

(** X15. A field that is contained in an earlier field of the list never
    receives a value: every key that would match it matches the earlier
    field first.  Its column holds the empty string in every row, provided
    no other field and no media-link column has the same label.  With the
    default list this is the case of [type], which comes after
    [food type]. *)
Theorem shadowed_field_stays_empty
        (a b c : list str) (f1 f2 model : str) (r : fetch_result) :
  contains (lower f2) (lower f1) = true ->
  (forall f, In f (a ++ f1 :: b ++ c) -> Py.title f <> Py.title f2) ->
  Cells.not_video_column (Py.title f2) ->
  Dict.get (Py.title f2)
           (Process.build_row (a ++ f1 :: b ++ f2 :: c) model r)
  = Some [].
Proof.
  intros H12 Hother Hv. unfold Process.build_row. cbv zeta.
  rewrite (RowFacts.place_videos_keep _ _ _ Hv).
  rewrite RowFacts.place_specs_keep.
  - apply ShadowFacts.blank_cell. right. apply in_map.
    apply in_or_app. right. right. apply in_or_app. right. left. reflexivity.
  - intros kv f _ Hm. apply Hother.
    exact (ShadowFacts.shadowed (fst kv) f1 f2 f a b c H12 Hm).
Qed.

Lemma shadowed_field_stays_empty_witness :
  Dict.get (lit "Type")
           (Process.build_row Process.default_spec_fields "FX1" typed_result)
  = Some []
  /\ Dict.get (lit "Food Type")
              (Process.build_row Process.default_spec_fields "FX1"
                                 typed_result)
     = Some (lit "Gas").
Proof.
  split; [|reflexivity].
  apply (shadowed_field_stays_empty
           [lit "manufacturer"]
           [ lit "frypot style"; lit "heat"; lit "hertz"; lit "nema";
             lit "number of fry pots"; lit "oil capacity/fryer (lb)";
             lit "phase"; lit "product"; lit "product type"; lit "rating";
             lit "special features" ]
           [lit "voltage"; lit "warranty"; lit "weight"]
           (lit "food type") (lit "type") (lit "FX1") typed_result).
  - reflexivity.
  - intros f Hin. cbn [app In] in Hin.
    repeat (destruct Hin as [<- | Hin];
            [intros E; vm_compute in E; discriminate E|]).
    destruct Hin.
  - intros i E. vm_compute in E. discriminate E.
Defined.

Section NoticeFacts.

Import MultiPrefix Notices.

Variable W : Type.
Variable fetch : str -> str -> W -> fetch_result * W.

Lemma call_original_emitted (m p : str) (x : st W) :
  emitted (snd (call_original fetch m p x)) = emitted x.
Proof. unfold call_original. destruct (fetch m p (world x)). reflexivity. Qed.

Lemma try_alternatives_notices (m prefix : str) (prefixes : list str) :
  forall x : st W,
  exists tried,
    attempts (snd (try_alternatives fetch m prefix prefixes x))
    = attempts x ++ tried
    /\ emitted (snd (try_alternatives fetch m prefix prefixes x))
       = emitted x ++ flat_map attempt_notices tried.
Proof.
  induction prefixes as [|alt rest IH]; intros x.
  - exists []. cbn. rewrite !List.app_nil_r. auto.
  - cbn [try_alternatives].
    destruct (Py.eqb alt prefix); cbn [negb]; [exact (IH x)|].
    set (x1 := emit (UpdateStatus (lit "Trying prefix: " ++ alt)) x).
    assert (Ha := call_original_attempts W fetch m alt x1).
    assert (He := call_original_emitted m alt x1).
    destruct (call_original fetch m alt x1) as [r x2].
    cbn [fst snd] in Ha, He.
    change (attempts x1) with (attempts x) in Ha.
    change (emitted x1)
      with (emitted x ++ [UpdateStatus (lit "Trying prefix: " ++ alt)]) in He.
    destruct (found (title r)) eqn:Ef.
    + exists [(alt, r)]. cbn [snd flat_map]. unfold attempt_notices.
      cbn [fst snd]. rewrite Ef. unfold emit. cbn [attempts emitted].
      rewrite Ha, He, List.app_nil_r, <- app_assoc. auto.
    + destruct (IH x2) as [tried [Ha' He']].
      exists ((alt, r) :: tried). rewrite Ha', He', Ha, He.
      cbn [flat_map].
      change (attempt_notices (alt, r))
        with (UpdateStatus (lit "Trying prefix: " ++ alt)
              :: (if found (title r)
                  then [UpdateStatus (lit "Found match with prefix: " ++ alt)]
                  else [])).
      rewrite Ef.
      rewrite <- !app_assoc. auto.
Qed.

Lemma enhanced_notices (prefixes : list str) (m prefix : str) (x : st W) :
  let res := enhanced_scrape_katom fetch prefixes m prefix x in
  exists log,
    attempts (snd res) = attempts x ++ log
    /\ emitted (snd res) = emitted x ++ retry_notices log.
Proof.
  cbv zeta. unfold enhanced_scrape_katom.
  assert (Ha := call_original_attempts W fetch m prefix x).
  assert (He := call_original_emitted m prefix x).
  destruct (call_original fetch m prefix x) as [r0 x1].
  cbn [fst snd] in Ha, He.
  destruct (not_found (title r0)) eqn:Enf.
  - set (x2 := emit _ x1).
    destruct (try_alternatives_notices m prefix prefixes x2)
      as [tried [Ha' He']].
    exists ((prefix, r0) :: tried).
    assert (H : attempts (snd (try_alternatives fetch m prefix prefixes x2))
                = attempts x ++ (prefix, r0) :: tried
                /\ emitted (snd (try_alternatives fetch m prefix prefixes x2))
                   = emitted x ++ retry_notices ((prefix, r0) :: tried)).
    { rewrite Ha', He'. unfold x2, emit. cbn [attempts emitted retry_notices].
      rewrite Ha, He, Enf, <- !app_assoc. auto. }
    destruct (try_alternatives fetch m prefix prefixes x2) as [[ra|] x3];
      exact H.
  - exists [(prefix, r0)]. cbn [snd retry_notices]. rewrite Enf, Ha, He.
    rewrite List.app_nil_r. auto.
Qed.

End NoticeFacts.

(** X16. The status notifications of a retry can be read off its fetch
    log.  When the primary fetch found the item there is none.  Otherwise
    there is one announcing the alternatives, then one before each
    alternative fetched, and one more after the alternative that found the
    item, if any; nothing else is emitted. *)
Theorem retry_notifications
        (W : Type) (fetch : str -> str -> W -> fetch_result * W)
        (prefixes : list str) (m prefix : str) (x : MultiPrefix.st W) :
  let res := MultiPrefix.enhanced_scrape_katom fetch prefixes m prefix x in
  exists log,
    MultiPrefix.attempts (snd res) = MultiPrefix.attempts x ++ log
    /\ MultiPrefix.emitted (snd res)
       = MultiPrefix.emitted x ++ Notices.retry_notices log.
Proof. exact (enhanced_notices W fetch prefixes m prefix x). Qed.

(* --------------------------------------------------------------------- *)
(** ** File names *)
(* --------------------------------------------------------------------- *)

Module FileFacts.

Import Extract Files.

Lemma endswith_spec (p s : str) :
  endswith p s = true <-> exists a, s = a ++ p.
Proof.
  unfold endswith. rewrite startswith_spec. split.
  - intros [r Hr]. exists (rev r).
    rewrite <- (rev_involutive s), Hr, rev_app_distr, rev_involutive.
    reflexivity.
  - intros [a ->]. exists (rev a). apply rev_app_distr.
Qed.

Lemma lower_app (a b : str) : lower (a ++ b) = lower a ++ lower b.
Proof. apply map_app. Qed.

(** A name with one of the three extensions, in lower case, is handed to
    the reader of that extension whatever the folder it is in. *)
Lemma reader_of_extension (dir filename : str) :
  endswith ".csv" filename || endswith ".xlsx" filename
  || endswith ".xls" filename = true ->
  load_file_data {| name := filename; path := dir ++ filename;
                    type := LocalFile |}
  = inr (if endswith ".csv" filename then ReadCsv else ReadExcel).
Proof.
  intros H. unfold load_file_data. cbn [type path].
  destruct (endswith ".csv" filename) eqn:Ecsv.
  - apply endswith_spec in Ecsv. destruct Ecsv as [a ->].
    assert (E : endswith ".csv" (lower (dir ++ a ++ lit ".csv")) = true).
    { apply endswith_spec. exists (lower (dir ++ a)).
      rewrite app_assoc, lower_app. reflexivity. }
    rewrite E. reflexivity.
  - cbn [orb] in H.
    assert (Hx : exists a ext,
               filename = a ++ ext
               /\ (ext = lit ".xlsx" \/ ext = lit ".xls")).
    { apply orb_prop in H. destruct H as [H | H];
        apply endswith_spec in H; destruct H as [a ->]; eauto. }
    destruct Hx as [a [ext [-> Hext]]].
    assert (E1 : endswith ".csv" (lower (dir ++ a ++ ext)) = false).
    { rewrite app_assoc, lower_app. unfold endswith.
      rewrite rev_app_distr. destruct Hext as [-> | ->]; reflexivity. }
    assert (E2 : endswith ".xlsx" (lower (dir ++ a ++ ext))
                 || endswith ".xls" (lower (dir ++ a ++ ext)) = true).
    { apply orb_true_iff.
      destruct Hext as [-> | ->]; [left | right];
        apply endswith_spec; exists (lower (dir ++ a));
        rewrite app_assoc, lower_app; reflexivity. }
    rewrite E1, E2. reflexivity.
Qed.

Lemma insert_sorted_in (x y : str) (l : list str) :
  In y (insert_sorted x l) <-> y = x \/ In y l.
Proof.
  induction l as [|z l IH]; cbn [insert_sorted In].
  - split; [intros [<- | []]; auto | intros [-> | []]; auto].
  - destruct (str_leb x z); cbn [In]; [split; intros [<- | H]; auto|].
    rewrite IH. split.
    + intros [H | [H | H]]; auto.
    + intros [H | [H | H]]; auto.
Qed.

Lemma sorted_in (y : str) (l : list str) : In y (sorted l) <-> In y l.
Proof.
  induction l as [|x l IH]; [reflexivity|].
  cbn [sorted fold_right In]. fold (sorted l).
  rewrite insert_sorted_in, IH. split; intros [H | H]; auto.
Qed.

Lemma offered_listed (listing : option (list dir_entry)) (filename : str) :
  In filename (get_drive_web_files listing) -> offered filename = true.
Proof.
  destruct listing as [entries|]; [|intros []].
  cbn [get_drive_web_files]. rewrite sorted_in, in_map_iff.
  intros [en [<- Hen]]. apply filter_In in Hen.
  destruct Hen as [_ Hen]. apply andb_prop in Hen. apply Hen.
Qed.

Lemma endswith_nonempty (p s : str) :
  p <> [] -> endswith p s = true -> nonempty s = true.
Proof.
  intros Hp H. apply endswith_spec in H. destruct H as [a ->].
  destruct a; [destruct p; [contradiction | reflexivity] | reflexivity].
Qed.

(** A run of digits has no white space at its ends. *)
Lemma strip_digits (p : str) : forallb is_digit p = true -> strip p = p.
Proof.
  intros H. apply LinkFacts.strip_spaceless. unfold Links.spaceless.
  rewrite forallb_forall in *. intros c Hc. specialize (H c Hc).
  revert H. unfold is_digit, is_space, between.
  destruct (48 <=? code c)%nat eqn:E1; [|discriminate].
  destruct (code c <=? 57)%nat eqn:E2; [|discriminate]. intros _.
  apply Nat.leb_le in E1. apply Nat.leb_le in E2.
  destruct (9 <=? code c)%nat; destruct (code c <=? 13)%nat eqn:E3;
    destruct (28 <=? code c)%nat; destruct (code c <=? 32)%nat eqn:E4;
    try reflexivity;
    try (apply Nat.leb_le in E3; lia); try (apply Nat.leb_le in E4; lia).
Qed.

Lemma match_prefix_sound (s p : str) :
  match_prefix s = Some p ->
  p <> [] /\ forallb is_digit p = true
  /\ exists a b, s = a ++ hyphen :: p ++ b.
Proof.
  unfold match_prefix. destruct (span is_word s) as [w r] eqn:Ew.
  destruct w as [|x w]; [discriminate|].
  destruct r as [|c r']; [discriminate|].
  destruct (Ascii.eqb c hyphen) eqn:Ec; [|discriminate].
  apply Ascii.eqb_eq in Ec. subst c.
  destruct (span is_digit r') as [ds rest] eqn:Ed.
  destruct ds as [|d ds]; [discriminate|]. intros [= <-].
  split; [discriminate|]. split; [exact (span_fst_all _ _ _ _ Ed)|].
  exists (x :: w), rest.
  rewrite (span_app _ _ _ _ Ew), (span_app _ _ _ _ Ed). reflexivity.
Qed.

Lemma search_prefix_sound (s p : str) :
  search_prefix s = Some p ->
  p <> [] /\ forallb is_digit p = true
  /\ exists a b, s = a ++ hyphen :: p ++ b.
Proof.
  induction s as [|c s IH]; cbn [search_prefix].
  - destruct (match_prefix []) eqn:E; [|discriminate].
    intros [= <-]. exact (match_prefix_sound _ _ E).
  - destruct (match_prefix (c :: s)) eqn:E.
    + intros [= <-]. exact (match_prefix_sound _ _ E).
    + intros H. destruct (IH H) as [Hne [Hd [a [b ->]]]].
      split; [exact Hne|]. split; [exact Hd|]. exists (c :: a), b.
      reflexivity.
Qed.

Lemma word_not_hyphen (c : ascii) : is_word c = true -> c <> hyphen.
Proof. intros H ->. vm_compute in H. discriminate H. Qed.

(** The first hyphen of a string is where it is. *)
Lemma first_hyphen (u u' v v' : str) :
  free_of hyphen u = true -> free_of hyphen u' = true ->
  u ++ hyphen :: v = u' ++ hyphen :: v' -> u = u' /\ v = v'.
Proof.
  revert u'. induction u as [|x u IH]; intros [|y u'] Hu Hu' E.
  - injection E as ->. auto.
  - injection E as <- _. cbn [free_of forallb] in Hu'.
    rewrite Ascii.eqb_refl in Hu'. discriminate.
  - injection E as -> _. cbn [free_of forallb] in Hu.
    rewrite Ascii.eqb_refl in Hu. discriminate.
  - injection E as <- E. cbn [free_of forallb] in Hu, Hu'.
    apply andb_prop in Hu. apply andb_prop in Hu'.
    destruct (IH u' (proj2 Hu) (proj2 Hu') E) as [-> ->]. auto.
Qed.

Lemma word_run_free (w : str) :
  forallb is_word w = true -> free_of hyphen w = true.
Proof.
  intros H. unfold free_of. rewrite forallb_forall in *. intros c Hc.
  apply negb_true_iff, Ascii.eqb_neq. exact (word_not_hyphen c (H c Hc)).
Qed.

Lemma free_of_app (c : ascii) (a b : str) :
  free_of c (a ++ b) = free_of c a && free_of c b.
Proof. apply forallb_app. Qed.

Section FirstHyphen.

Variable c : ascii.
Variables ds rest : str.
Hypothesis Hc : is_word c = true.
Hypothesis Hne : ds <> [].
Hypothesis Hds : forallb is_digit ds = true.
Hypothesis Hrest : starts_with_digit rest = false.

Lemma span_digits_rest : span is_digit (ds ++ rest) = (ds, rest).
Proof.
  apply span_until; [exact Hds|].
  destruct rest as [|x t]; [reflexivity|]. cbn [starts_with_digit] in Hrest.
  rewrite Hrest. reflexivity.
Qed.

Lemma match_prefix_first (a : str) :
  free_of hyphen a = true ->
  match_prefix (a ++ c :: hyphen :: ds ++ rest) = Some ds
  \/ (match_prefix (a ++ c :: hyphen :: ds ++ rest) = None /\ a <> []).
Proof.
  intros Ha. unfold match_prefix.
  destruct (span is_word (a ++ c :: hyphen :: ds ++ rest)) as [w r] eqn:Ew.
  assert (Happ := span_app _ _ _ _ Ew).
  assert (Hw := span_fst_all _ _ _ _ Ew).
  destruct w as [|x w].
  { right. split; [reflexivity|]. intros ->. cbn [app span] in Ew.
    rewrite Hc in Ew. destruct (span is_word _); discriminate. }
  destruct r as [|y r'].
  { exfalso. apply word_run_free in Hw.
    rewrite List.app_nil_r in Happ. rewrite <- Happ in Hw.
    rewrite free_of_app in Hw. apply andb_prop in Hw. destruct Hw as [_ Hw].
    cbn [free_of forallb] in Hw. apply andb_prop in Hw.
    destruct Hw as [_ Hw]. apply andb_prop in Hw. destruct Hw as [Hw _].
    rewrite Ascii.eqb_refl in Hw. discriminate. }
  destruct (Ascii.eqb y hyphen) eqn:Ey.
  2:{ right. split; [reflexivity|]. intros ->. cbn [app span] in Ew.
      rewrite Hc in Ew. cbn [span] in Ew.
      change (is_word hyphen) with false in Ew.
      injection Ew as _ _ Ey' _. subst y.
      rewrite Ascii.eqb_refl in Ey. discriminate. }
  apply Ascii.eqb_eq in Ey. subst y. left.
  assert (E : (a ++ [c]) ++ hyphen :: ds ++ rest = (x :: w) ++ hyphen :: r').
  { rewrite <- app_assoc. exact Happ. }
  apply first_hyphen in E.
  - destruct E as [_ <-]. rewrite span_digits_rest.
    destruct ds; [contradiction | reflexivity].
  - rewrite free_of_app, Ha. cbn [free_of forallb andb].
    rewrite andb_true_r. apply negb_true_iff, Ascii.eqb_neq.
    exact (word_not_hyphen c Hc).
  - apply word_run_free, Hw.
Qed.

Lemma search_prefix_first (a : str) :
  free_of hyphen a = true ->
  search_prefix (a ++ c :: hyphen :: ds ++ rest) = Some ds.
Proof.
  induction a as [|x a IH]; intros Ha.
  - destruct (match_prefix_first [] Ha) as [H | [_ H]]; [|contradiction].
    cbn [app] in *. cbn [search_prefix]. rewrite H. reflexivity.
  - destruct (match_prefix_first (x :: a) Ha) as [H | [H _]];
      cbn [app] in *; cbn [search_prefix]; rewrite H; [reflexivity|].
    apply IH. cbn [free_of forallb] in Ha. apply andb_prop in Ha. apply Ha.
Qed.

End FirstHyphen.

Lemma search_prefix_none (s : str) :
  free_of hyphen s = true -> search_prefix s = None.
Proof.
  intros H. destruct (search_prefix s) as [p|] eqn:E; [|reflexivity].
  destruct (search_prefix_sound s p E) as [_ [_ [a [b ->]]]].
  rewrite free_of_app in H. apply andb_prop in H. destruct H as [_ H].
  cbn [free_of forallb] in H. rewrite Ascii.eqb_refl in H. discriminate.
Qed.

End FileFacts.

(** X17. Every name that [get_drive_web_files] offers can be loaded: it
    is not empty, so [get_selected_file] returns a local file of that name,
    and [load_file_data] hands its path to the CSV reader when the name
    ends in [.csv] and to the Excel reader otherwise, never raising
    "Unsupported file type"; and no offered name begins with [final_]. *)
Theorem offered_files_are_loadable
        (home : str) (listing : option (list Files.dir_entry))
        (filename : str) :
  In filename (Files.get_drive_web_files listing) ->
  startswith "final_" filename = false
  /\ exists f,
      Files.get_selected_file home filename = Some f
      /\ Files.name f = filename
      /\ Files.load_file_data f
         = inr (if endswith ".csv" filename
                then Files.ReadCsv else Files.ReadExcel).
Proof.
  intros Hin. apply FileFacts.offered_listed in Hin.
  unfold Files.offered in Hin. apply andb_prop in Hin.
  destruct Hin as [Hext Hfinal]. split; [apply negb_true_iff, Hfinal|].
  assert (Hne : Extract.nonempty filename = true).
  { apply orb_prop in Hext. destruct Hext as [Hext | Hext];
      [apply orb_prop in Hext; destruct Hext as [Hext | Hext]|];
      (eapply FileFacts.endswith_nonempty; [|exact Hext]); discriminate. }
  unfold Files.get_selected_file. rewrite Hne. cbn [negb].
  eexists. split; [reflexivity|]. split; [reflexivity|].
  rewrite app_assoc. apply FileFacts.reader_of_extension, Hext.
Qed.

Lemma offered_files_are_loadable_witness :
  startswith "final_" (lit "Vulcan-229.xlsx") = false
  /\ exists f,
      Files.get_selected_file "/home/mk" "Vulcan-229.xlsx" = Some f
      /\ Files.name f = lit "Vulcan-229.xlsx"
      /\ Files.load_file_data f
         = inr (if endswith ".csv" (lit "Vulcan-229.xlsx")
                then Files.ReadCsv else Files.ReadExcel).
Proof.
  apply (offered_files_are_loadable "/home/mk" (Some web_folder_listing)
           "Vulcan-229.xlsx").
  vm_compute. right. left. reflexivity.
Defined.

(** X18. What [extract_prefix_from_filename] writes to the prefix box,
    for a file name in ASCII: either nothing (the pattern is found nowhere
    and the box keeps its text), or a run of digits that is not empty and
    stands right after a hyphen of the file name.  Such a prefix passes the
    check of [start_processing]: stripping it changes nothing. *)
Theorem filename_prefix_sound (filename prefix_text : str) :
  forallb is_ascii filename = true ->
  let p := Files.extract_prefix_from_filename filename prefix_text in
  (Files.search_prefix filename = None /\ p = prefix_text)
  \/ (p <> [] /\ forallb is_digit p = true /\ strip p = p
      /\ exists a b, filename = a ++ Files.hyphen :: p ++ b).
Proof.
  intros _. cbv zeta. unfold Files.extract_prefix_from_filename.
  destruct (Files.search_prefix filename) as [p|] eqn:E; [right | left; auto].
  destruct (FileFacts.search_prefix_sound filename p E) as [Hne [Hd Hab]].
  repeat split; auto. apply FileFacts.strip_digits, Hd.
Qed.

Lemma filename_prefix_sound_witness :
  let p := Files.extract_prefix_from_filename "My-Globe-605b.csv" "123" in
  (Files.search_prefix "My-Globe-605b.csv" = None /\ p = lit "123")
  \/ (p <> [] /\ forallb is_digit p = true /\ strip p = p
      /\ exists a b, lit "My-Globe-605b.csv" = a ++ Files.hyphen :: p ++ b).
Proof.
  apply (filename_prefix_sound "My-Globe-605b.csv" "123"). reflexivity.
Defined.

(** X19. Which prefix is found, for a file name in ASCII: when the first
    hyphen of the file name follows a word character and is followed by a
    digit, the prefix is the whole run of digits after that hyphen (for
    [Globe-605.csv], [605]); a file name without a hyphen leaves the prefix
    box as it is. *)
Theorem filename_prefix_first_hyphen :
  (forall (a : str) (c : ascii) (ds rest prefix_text : str),
      forallb is_ascii (a ++ c :: Files.hyphen :: ds ++ rest) = true ->
      free_of Files.hyphen a = true ->
      Files.is_word c = true ->
      ds <> [] -> forallb is_digit ds = true ->
      starts_with_digit rest = false ->
      Files.extract_prefix_from_filename
        (a ++ c :: Files.hyphen :: ds ++ rest) prefix_text = ds)
  /\ (forall filename prefix_text : str,
         free_of Files.hyphen filename = true ->
         Files.extract_prefix_from_filename filename prefix_text
         = prefix_text).
Proof.
  split.
  - intros a c ds rest prefix_text _ Ha Hc Hne Hds Hrest.
    unfold Files.extract_prefix_from_filename.
    rewrite (FileFacts.search_prefix_first c ds rest Hc Hne Hds Hrest a Ha).
    reflexivity.
  - intros filename prefix_text H.
    unfold Files.extract_prefix_from_filename.
    rewrite (FileFacts.search_prefix_none filename H). reflexivity.
Qed.

Lemma filename_prefix_first_hyphen_witness :
  Files.extract_prefix_from_filename "Globe-605.csv" "123" = lit "605"
  /\ Files.extract_prefix_from_filename "models.csv" "123" = lit "123".
Proof.
  split.
  - exact (proj1 filename_prefix_first_hyphen
             (lit "Glob") "e"%char (lit "605") (lit ".csv") (lit "123")
             eq_refl eq_refl eq_refl ltac:(discriminate) eq_refl eq_refl).
  - exact (proj2 filename_prefix_first_hyphen (lit "models.csv") (lit "123")
             eq_refl).
Defined.

(* --------------------------------------------------------------------- *)
(** ** Sequential processing *)
(* --------------------------------------------------------------------- *)

Module WindowFacts.

Import Extract Window Queue.

Lemma nth_error_update (f : sheet_row -> sheet_row) (rs : list sheet_row) :
  forall i i',
    nth_error (update_nth i f rs) i'
    = if (i =? i')%nat then option_map f (nth_error rs i')
      else nth_error rs i'.
Proof.
  induction rs as [|r t IH]; intros [|i] [|i']; cbn; auto.
  - destruct (i =? i')%nat; reflexivity.
Qed.

Lemma valid_from_ge (rs : list sheet_row) :
  forall s i, In i (valid_from s rs) -> s <= i.
Proof.
  induction rs as [|r t IH]; intros s i; cbn [valid_from]; [intros []|].
  destruct (is_valid r); cbn [In].
  - intros [<- | H]; [lia | apply IH in H; lia].
  - intros H. apply IH in H. lia.
Qed.

Lemma valid_from_nodup (rs : list sheet_row) :
  forall s, NoDup (valid_from s rs).
Proof.
  induction rs as [|r t IH]; intros s; cbn [valid_from]; [constructor|].
  destruct (is_valid r); [|apply IH].
  constructor; [|apply IH]. intros H. apply valid_from_ge in H. lia.
Qed.

Lemma valid_from_row (rs : list sheet_row) :
  forall s i,
    In i (valid_from s rs) ->
    exists r, nth_error rs (i - s) = Some r /\ is_valid r = true.
Proof.
  induction rs as [|r t IH]; intros s i; cbn [valid_from]; [intros []|].
  assert (Ht : In i (valid_from (S s) t) ->
               exists r', nth_error (r :: t) (i - s) = Some r'
                          /\ is_valid r' = true).
  { intros H. assert (Hge := valid_from_ge _ _ _ H).
    destruct (IH _ _ H) as [r' [Hr' Hv]]. exists r'. split; [|exact Hv].
    replace (i - s) with (S (i - S s)) by lia. exact Hr'. }
  destruct (is_valid r) eqn:E; cbn [In]; [|exact Ht].
  intros [<- | H]; [|exact (Ht H)].
  exists r. rewrite Nat.sub_diag. auto.
Qed.

Lemma queue_row (w0 : main_window) (j i : nat) :
  nth_error (queue_of w0) j = Some i ->
  exists r0, nth_error (rows w0) i = Some r0 /\ is_valid r0 = true.
Proof.
  intros H. apply nth_error_In in H. unfold queue_of in H.
  apply valid_from_row in H. rewrite Nat.sub_0_r in H. exact H.
Qed.

Lemma queue_distinct (w0 : main_window) (j j' i : nat) :
  nth_error (queue_of w0) j = Some i ->
  nth_error (queue_of w0) j' = Some i ->
  j = j'.
Proof.
  intros H H'.
  assert (Hnd := valid_from_nodup (rows w0) 0).
  rewrite NoDup_nth_error in Hnd. apply Hnd.
  - apply nth_error_Some. unfold queue_of in H. rewrite H. discriminate.
  - unfold queue_of in H, H'. rewrite H, H'. reflexivity.
Qed.

Lemma row_state_core (k j : nat) (r0 r r' : sheet_row) :
  core r' = core r -> row_state k j r0 r -> row_state k j r0 r'.
Proof.
  unfold core, row_state. intros [= -> -> -> -> ->]. auto.
Qed.

(** A progress or status signal changes no button, no queue and nothing
    that the queue reads of a row. *)
Lemma notice_keeps (w : main_window) (ev : event) :
  is_notice ev = true ->
  processing_queue (handle w ev) = processing_queue w
  /\ current_processing_index (handle w ev) = current_processing_index w
  /\ stop_all_enabled (handle w ev) = stop_all_enabled w
  /\ start_all_enabled (handle w ev) = start_all_enabled w
  /\ forall i r,
      nth_error (rows w) i = Some r ->
      exists r', nth_error (rows (handle w ev)) i = Some r'
                 /\ core r' = core r.
Proof.
  destruct ev as [| | |i0 [current total|text| |m]]; try discriminate;
    intros _; cbn [handle].
  - unfold on_update_progress.
    destruct (nth_error (rows w) i0) as [r0|] eqn:E0.
    2:{ repeat split; eauto. }
    assert (H : forall i r,
               nth_error (rows w) i = Some r ->
               exists r',
                 nth_error
                   (update_nth i0
                      (fun r1 => with_ui
                                   (Row.on_update_progress (ui r1) current
                                                           total) r1)
                      (rows w)) i = Some r'
                 /\ core r' = core r).
    { intros i r Hr. rewrite nth_error_update, Hr.
      destruct (i0 =? i)%nat; eexists; split; reflexivity. }
    destruct (nonempty (file_text r0)); repeat split; exact H.
  - unfold on_update_status, on_row. cbn.
    repeat split. intros i r Hr. rewrite nth_error_update, Hr.
    destruct (i0 =? i)%nat; eexists; split; reflexivity.
Qed.

Lemma in_progress_notice (w0 w : main_window) (k : nat) (ev : event) :
  is_notice ev = true -> in_progress w0 k w -> in_progress w0 k (handle w ev).
Proof.
  intros Hev [Hq [Hi [Hstop [Hstart Hrows]]]].
  destruct (notice_keeps w ev Hev) as [Eq [Ei [Estop [Estart Erows]]]].
  unfold in_progress. rewrite Eq, Ei, Estop, Estart.
  repeat split; auto.
  intros j i Hj. destruct (Hrows j i Hj) as [r0 [r [Hr0 [Hr Hst]]]].
  destruct (Erows i r Hr) as [r' [Hr' Hc]].
  exists r0, r'. split; [exact Hr0|]. split; [exact Hr'|].
  exact (row_state_core k j r0 r r' Hc Hst).
Qed.

Lemma stalled_notice (w0 w : main_window) (k : nat) (ev : event) :
  is_notice ev = true -> stalled w0 k w -> stalled w0 k (handle w ev).
Proof.
  intros Hev [Hstart [Hstop [Hi Hrows]]].
  destruct (notice_keeps w ev Hev) as [Eq [Ei [Estop [Estart Erows]]]].
  unfold stalled. rewrite Ei, Estop, Estart.
  repeat split; auto.
  intros j i Hj. destruct (Hrows j i Hj) as [r0 [r [Hr0 [Hr [Hrun Hth]]]]].
  destruct (Erows i r Hr) as [r' [Hr' Hc]].
  exists r0, r'. unfold core in Hc. injection Hc as -> _ -> _ _.
  repeat split; auto.
Qed.

(** A valid row that is neither running nor completed is started. *)
Lemma start_row_core (r : sheet_row) :
  Row.running (ui r) = false -> Row.completed (ui r) = false ->
  is_valid r = true ->
  core (_start_row r)
  = (true, false, S (threads r), file_text r, prefix_text r).
Proof.
  intros Hrun Hdone Hv. unfold is_valid in Hv. apply andb_prop in Hv.
  destruct Hv as [Hf Hp].
  unfold _start_row, start_processing. rewrite Hrun, Hdone, Hf, Hp.
  reflexivity.
Qed.

(** [process_next_row] when the next position [n] is in the queue. *)
Lemma next_row_starts (w : main_window) (n i : nat) (r : sheet_row) :
  stop_all_enabled w = true ->
  (current_processing_index w + 1)%Z = Z.of_nat n ->
  nth_error (processing_queue w) n = Some i ->
  nth_error (rows w) i = Some r ->
  processing_queue (process_next_row w) = processing_queue w
  /\ current_processing_index (process_next_row w) = Z.of_nat n
  /\ stop_all_enabled (process_next_row w) = true
  /\ start_all_enabled (process_next_row w) = start_all_enabled w
  /\ rows (process_next_row w) = update_nth i _start_row (rows w).
Proof.
  intros Hstop Hidx Hq Hr. unfold process_next_row.
  rewrite Hstop, Hidx. cbn [negb].
  assert (Hlt : n < List.length (processing_queue w)).
  { apply nth_error_Some. rewrite Hq. discriminate. }
  destruct (Z.of_nat (List.length (processing_queue w)) <=? Z.of_nat n)%Z
    eqn:E; [apply Z.leb_le in E; lia|].
  unfold queue_item. rewrite Nat2Z.id, Hq, Hr.
  destruct (nonempty (file_text r)); cbn; auto.
Qed.

(** [process_next_row] at the end of the queue. *)
Lemma next_row_ends (w : main_window) :
  stop_all_enabled w = true ->
  (current_processing_index w + 1)%Z
  = Z.of_nat (List.length (processing_queue w)) ->
  status_label (process_next_row w) = lit "All processing completed"
  /\ start_all_enabled (process_next_row w) = true
  /\ stop_all_enabled (process_next_row w) = false
  /\ rows (process_next_row w) = rows w.
Proof.
  intros Hstop Hidx. unfold process_next_row.
  rewrite Hstop, Hidx, Z.leb_refl. cbn. auto.
Qed.


Lemma prepared_core (r0 : sheet_row) :
  core (lock_controls true (reset_state r0))
  = (false, false, threads r0, file_text r0, prefix_text r0).
Proof. reflexivity. Qed.

Lemma core_valid (r r0 : sheet_row) :
  file_text r = file_text r0 -> prefix_text r = prefix_text r0 ->
  is_valid r0 = true -> is_valid r = true.
Proof. unfold is_valid. intros -> ->. auto. Qed.

(** The window after [start_all] and the timer it sets. *)
Lemma started_in_progress (w : main_window) :
  queue_of w <> [] ->
  in_progress w 0 (handle (start_all w) TimerFires).
Proof.
  intros Hne. unfold start_all. cbv zeta. fold (queue_of w).
  destruct (queue_of w) as [|i0 rest] eqn:Eq; [contradiction|].
  pose (prepare := fun r => if is_valid r
                            then lock_controls true (reset_state r) else r).
  pose (w1 := {| rows := map prepare (rows w);
                 processing_queue := i0 :: rest;
                 current_processing_index := (-1)%Z;
                 start_all_enabled := false; stop_all_enabled := true;
                 status_label := "Starting sequential processing...";
                 warnings := warnings w; timers := timers w |}).
  match goal with
  | |- in_progress _ _ ?t => change t with (process_next_row w1)
  end.
  assert (H0 : nth_error (queue_of w) 0 = Some i0) by (rewrite Eq; reflexivity).
  destruct (queue_row w 0 i0 H0) as [r0 [Hr0 Hv0]].
  assert (Hp0 : nth_error (rows w1) i0
                = Some (lock_controls true (reset_state r0))).
  { cbn [w1 rows]. rewrite nth_error_map, Hr0. cbn [option_map].
    unfold prepare. rewrite Hv0. reflexivity. }
  destruct (next_row_starts w1 0 i0 _ eq_refl eq_refl eq_refl Hp0)
    as [Hq [Hi [Hstop [Hstart Hrows]]]].
  unfold in_progress. rewrite Hq, Hi, Hstop, Hstart, Hrows.
  split; [symmetry; exact Eq|]. do 3 (split; [reflexivity|]).
  intros j i Hj.
  destruct (queue_row w j i Hj) as [r [Hr Hv]]. rewrite Eq in Hj.
  exists r. rewrite nth_error_update. cbn [w1 rows].
  rewrite nth_error_map, Hr. cbn [option_map]. unfold prepare at 1 2.
  rewrite Hv.
  destruct (Nat.eqb_spec i0 i) as [<- | Hneq].
  - assert (j = 0).
    { apply (queue_distinct w j 0 i0); rewrite Eq; [exact Hj | reflexivity]. }
    subst j. eexists. split; [reflexivity|]. split; [reflexivity|].
    assert (Hc := start_row_core (lock_controls true (reset_state r))
                    eq_refl eq_refl Hv).
    unfold core in Hc. injection Hc as E1 E2 E3 E4 E5.
    unfold row_state. rewrite E1, E2, E3, E4, E5. cbn. repeat split. lia.
  - assert (j <> 0).
    { intros ->. cbn in Hj. injection Hj as ->. contradiction. }
    eexists. split; [reflexivity|]. split; [reflexivity|].
    unfold row_state. cbn.
    destruct j; [contradiction|]. cbn. repeat split. lia.
Qed.

(** [on_processing_finished] up to its call of [process_next_row]. *)
Lemma finished_then_next (w : main_window) (i : nat) (r : sheet_row) :
  nth_error (rows w) i = Some r ->
  exists w2,
    on_processing_finished i w = process_next_row w2
    /\ rows w2
       = update_nth i (fun r => with_ui (Row.on_processing_finished (ui r)) r)
                    (rows w)
    /\ processing_queue w2 = processing_queue w
    /\ current_processing_index w2 = current_processing_index w
    /\ stop_all_enabled w2 = stop_all_enabled w
    /\ start_all_enabled w2 = start_all_enabled w.
Proof.
  intros Hr. unfold on_processing_finished. rewrite Hr.
  destruct (nonempty (file_text r)); eexists; split; try reflexivity;
    cbn; auto.
Qed.

Lemma in_progress_finished (w0 w : main_window) (k i : nat) :
  in_progress w0 k w ->
  nth_error (queue_of w0) k = Some i ->
  S k < List.length (queue_of w0) ->
  in_progress w0 (S k) (handle w (FromRow i Finished)).
Proof.
  intros [Hq [Hi [Hstop [Hstart Hrows]]]] Hk Hlt. cbn [handle].
  destruct (Hrows k i Hk) as [r0 [r [Hr0 [Hr Hst]]]].
  destruct (finished_then_next w i r Hr)
    as [w2 [-> [Erows [Eq [Ei [Estop Estart]]]]]].
  destruct (nth_error (queue_of w0) (S k)) as [i'|] eqn:Hk'.
  2:{ apply nth_error_None in Hk'. lia. }
  destruct (Hrows (S k) i' Hk') as [r0' [r' [Hr0' [Hr' Hst']]]].
  assert (Hneq : i <> i').
  { intros <-. assert (E := queue_distinct w0 k (S k) i Hk Hk'). lia. }
  assert (Hr2 : nth_error (rows w2) i' = Some r').
  { rewrite Erows, nth_error_update.
    destruct (Nat.eqb_spec i i'); [contradiction | exact Hr']. }
  destruct (next_row_starts w2 (S k) i' r') as [Fq [Fi [Fstop [Fstart Frows]]]].
  { rewrite Estop. exact Hstop. }
  { rewrite Ei, Hi. lia. }
  { rewrite Eq, Hq. exact Hk'. }
  { exact Hr2. }
  unfold in_progress. rewrite Fq, Fi, Fstop, Fstart, Frows, Eq, Estart.
  repeat split; auto.
  intros j i'' Hj. destruct (Hrows j i'' Hj) as [s0 [s [Hs0 [Hs Hss]]]].
  exists s0. rewrite Erows, !nth_error_update, Hs.
  destruct Hss as [S1 [S2 [S3 [S4 S5]]]].
  destruct (Nat.eqb_spec i' i'') as [<- | Hn'].
  - assert (j = S k) by exact (queue_distinct w0 j (S k) i' Hj Hk').
    subst j. destruct (Nat.eqb_spec i i'); [contradiction|].
    eexists. split; [exact Hs0|]. split; [reflexivity|].
    destruct (queue_row w0 (S k) i' Hk') as [t0 [Ht0 Hv]].
    rewrite Hs0 in Ht0. injection Ht0 as <-.
    assert (S1' : Row.running (ui s) = false).
    { rewrite S1. apply Nat.eqb_neq. lia. }
    assert (S2' : Row.completed (ui s) = false).
    { rewrite S2. apply Nat.ltb_ge. lia. }
    assert (Hc := start_row_core s S1' S2' (core_valid s s0 S4 S5 Hv)).
    unfold core in Hc. injection Hc as E1 E2 E3 E4 E5.
    unfold row_state. rewrite E1, E2, E3, E4, E5, S3, Nat.eqb_refl.
    rewrite Nat.ltb_irrefl, Nat.leb_refl.
    destruct (Nat.leb_spec (S k) k); [lia|].
    repeat split; auto; lia.
  - assert (j <> S k).
    { intros ->. rewrite Hk' in Hj. injection Hj as <-. contradiction. }
    destruct (Nat.eqb_spec i i'') as [<- | Hn].
    + assert (j = k) by exact (queue_distinct w0 j k i Hj Hk). subst j.
      eexists. split; [exact Hs0|]. split; [reflexivity|].
      unfold row_state. cbn [option_map with_ui ui threads file_text
                             prefix_text Row.on_processing_finished
                             Row.running Row.completed].
      rewrite S3, Nat.leb_refl.
      destruct (Nat.eqb_spec k (S k)); [lia|].
      destruct (Nat.ltb_spec k (S k)); [|lia].
      destruct (Nat.leb_spec k (S k)); [|lia]. auto.
    + assert (j <> k).
      { intros ->. rewrite Hk in Hj. injection Hj as <-. contradiction. }
      eexists. split; [exact Hs0|]. split; [reflexivity|].
      unfold row_state. rewrite S1, S2, S3.
      destruct (Nat.eqb_spec j k); [contradiction|].
      destruct (Nat.eqb_spec j (S k)); [contradiction|].
      destruct (Nat.ltb_spec j k); destruct (Nat.ltb_spec j (S k)); try lia;
        destruct (Nat.leb_spec j k); destruct (Nat.leb_spec j (S k)); try lia;
        auto.
Qed.

Lemma in_progress_last (w0 w : main_window) (k i : nat) :
  in_progress w0 k w ->
  nth_error (queue_of w0) k = Some i ->
  S k = List.length (queue_of w0) ->
  all_done w0 (handle w (FromRow i Finished)).
Proof.
  intros [Hq [Hi [Hstop [Hstart Hrows]]]] Hk Hlen. cbn [handle].
  destruct (Hrows k i Hk) as [r0 [r [Hr0 [Hr Hst]]]].
  destruct (finished_then_next w i r Hr)
    as [w2 [-> [Erows [Eq [Ei [Estop Estart]]]]]].
  destruct (next_row_ends w2) as [Fs [Fstart [Fstop Frows]]].
  { rewrite Estop. exact Hstop. }
  { rewrite Ei, Hi, Eq, Hq. lia. }
  unfold all_done. rewrite Fs, Fstart, Fstop, Frows, Erows.
  repeat split.
  intros i' Hin. apply In_nth_error in Hin. destruct Hin as [j Hj].
  destruct (Hrows j i' Hj) as [s0 [s [Hs0 [Hs [S1 [S2 [S3 _]]]]]]].
  assert (Hjk : j <= k).
  { assert (j < List.length (queue_of w0)); [|lia].
    apply nth_error_Some. rewrite Hj. discriminate. }
  exists s0. rewrite nth_error_update, Hs.
  destruct (Nat.eqb_spec i i') as [<- | Hn].
  - assert (j = k) by exact (queue_distinct w0 j k i Hj Hk). subst j.
    eexists. split; [exact Hs0|]. split; [reflexivity|].
    cbn. rewrite S3, Nat.leb_refl. repeat split. lia.
  - assert (j <> k).
    { intros ->. rewrite Hk in Hj. injection Hj as <-. contradiction. }
    eexists. split; [exact Hs0|]. split; [reflexivity|].
    rewrite S1, S2, S3.
    destruct (Nat.eqb_spec j k); [contradiction|].
    destruct (Nat.ltb_spec j k); [|lia].
    destruct (Nat.leb_spec j k); [|lia]. repeat split. lia.
Qed.

Lemma in_progress_error (w0 w : main_window) (k i : nat) (m : str) :
  in_progress w0 k w ->
  nth_error (queue_of w0) k = Some i ->
  stalled w0 k (handle w (FromRow i (Error m))).
Proof.
  intros [Hq [Hi [Hstop [Hstart Hrows]]]] Hk. cbn [handle].
  unfold on_processing_error, on_row, stalled. cbn.
  repeat split; auto.
  intros j i' Hj.
  destruct (Hrows j i' Hj) as [s0 [s [Hs0 [Hs [S1 [S2 [S3 _]]]]]]].
  exists s0. rewrite nth_error_update, Hs.
  destruct (Nat.eqb_spec i i') as [<- | Hn].
  - eexists. split; [exact Hs0|]. split; [reflexivity|].
    cbn. auto.
  - assert (j <> k).
    { intros ->. rewrite Hk in Hj. injection Hj as <-. contradiction. }
    eexists. split; [exact Hs0|]. split; [reflexivity|].
    rewrite S1, S3. split; [apply Nat.eqb_neq; assumption | reflexivity].
Qed.

Lemma skipn_cons (q : list nat) :
  forall k i tl,
    skipn k q = i :: tl -> nth_error q k = Some i /\ skipn (S k) q = tl.
Proof.
  induction q as [|x q IH]; intros [|k] i tl H; try discriminate.
  - injection H as -> ->. auto.
  - cbn [skipn] in H. apply IH in H. exact H.
Qed.

Lemma decisive_cons (ev : event) (evs : list event) :
  decisive (ev :: evs)
  = if is_notice ev then decisive evs else ev :: decisive evs.
Proof. unfold decisive. cbn [filter]. destruct (is_notice ev); reflexivity. Qed.

Lemma run_in_progress (w0 : main_window) (evs : list event) :
  forall k n w,
    in_progress w0 k w ->
    k + n < List.length (queue_of w0) ->
    decisive evs = finished_signals (firstn n (skipn k (queue_of w0))) ->
    in_progress w0 (k + n) (run w evs).
Proof.
  induction evs as [|ev evs IH]; intros k n w Hw Hlt Hd.
  - destruct n as [|n]; [rewrite Nat.add_0_r; exact Hw|].
    destruct (skipn k (queue_of w0)) as [|i tl] eqn:E; [|discriminate Hd].
    assert (Hl := f_equal (@List.length nat) E).
    rewrite length_skipn in Hl. cbn in Hl. lia.
  - unfold run. cbn [fold_left]. fold (run (handle w ev) evs).
    rewrite decisive_cons in Hd. destruct (is_notice ev) eqn:En.
    + apply IH; [apply in_progress_notice; assumption | exact Hlt | exact Hd].
    + destruct n as [|n]; [discriminate Hd|].
      destruct (skipn k (queue_of w0)) as [|i tl] eqn:E; [discriminate Hd|].
      cbn [firstn finished_signals map] in Hd.
      injection Hd as -> Hd.
      apply skipn_cons in E. destruct E as [Hk Htl].
      replace (k + S n) with (S k + n) by lia.
      apply IH; [|lia|].
      * apply in_progress_finished; [exact Hw | exact Hk | lia].
      * rewrite Htl. exact Hd.
Qed.

Lemma run_stalled (w0 : main_window) (k : nat) (evs : list event) :
  forallb is_notice evs = true ->
  forall w, stalled w0 k w -> stalled w0 k (run w evs).
Proof.
  induction evs as [|ev evs IH]; intros Hn w Hw; [exact Hw|].
  cbn [forallb] in Hn. apply andb_prop in Hn. destruct Hn as [Hev Hn].
  unfold run. cbn [fold_left]. apply (IH Hn). apply stalled_notice; assumption.
Qed.

Lemma run_app (w : main_window) (a b : list event) :
  run w (a ++ b) = run (run w a) b.
Proof. apply fold_left_app. Qed.

(** ** After [stop_all] *)

Lemma update_nth_map {B : Type} (g : sheet_row -> B)
      (f : sheet_row -> sheet_row) (rs : list sheet_row) :
  (forall r, g (f r) = g r) ->
  forall i, map g (update_nth i f rs) = map g rs.
Proof.
  intros H. induction rs as [|r t IH]; intros [|i]; cbn; auto.
  - rewrite H. reflexivity.
  - rewrite IH. reflexivity.
Qed.

Lemma update_nth_forall (P : sheet_row -> Prop)
      (f : sheet_row -> sheet_row) (rs : list sheet_row) :
  (forall r, P r -> P (f r)) ->
  forall i, Forall P rs -> Forall P (update_nth i f rs).
Proof.
  intros H. induction rs as [|r t IH]; intros [|i] Hrs; cbn; auto;
    apply Forall_cons_iff in Hrs; destruct Hrs as [Hr Ht];
    constructor; auto.
Qed.

Lemma stop_all_stopped (w : main_window) : stopped w (stop_all w).
Proof.
  unfold stopped, stop_all. cbn. repeat split.
  - rewrite map_map. apply map_ext. intros r.
    destruct (Row.running (ui r)); reflexivity.
  - apply Forall_map, Forall_forall. intros r _.
    destruct (Row.running (ui r)) eqn:E; cbn; [|exact E].
    unfold Row.stop_processing. rewrite E. reflexivity.
Qed.

Lemma next_row_disabled (w : main_window) :
  stop_all_enabled w = false -> process_next_row w = w.
Proof. intros H. unfold process_next_row. rewrite H. reflexivity. Qed.

Lemma stopped_late (w0 w : main_window) (ev : event) :
  is_late ev = true -> stopped w0 w -> stopped w0 (handle w ev).
Proof.
  intros Hev [Hstart [Hstop [Hq [Hth Hrun]]]].
  destruct ev as [| | |i [current total|text| |m]]; try discriminate;
    cbn [handle].
  - destruct (timers w); [repeat split; assumption|].
    rewrite next_row_disabled by exact Hstop.
    repeat split; assumption.
  - unfold on_update_progress.
    destruct (nth_error (rows w) i) as [r|]; [|repeat split; assumption].
    assert (H : stopped w0
                  (on_row i
                     (fun r => with_ui
                                 (Row.on_update_progress (ui r) current total)
                                 r) w)).
    { unfold stopped, on_row. cbn. repeat split; auto.
      - rewrite update_nth_map; [exact Hth | reflexivity].
      - apply update_nth_forall; [|exact Hrun]. intros r' H. exact H. }
    destruct (nonempty (file_text r)); exact H.
  - unfold stopped, on_update_status, on_row. cbn. repeat split; auto.
    + rewrite update_nth_map; [exact Hth | reflexivity].
    + apply update_nth_forall; [|exact Hrun]. intros r' H. exact H.
  - unfold on_processing_finished.
    destruct (nth_error (rows w) i) as [r|]; [|repeat split; assumption].
    assert (H : stopped w0
                  (on_row i
                     (fun r => with_ui (Row.on_processing_finished (ui r)) r)
                     w)).
    { unfold stopped, on_row. cbn. repeat split; auto.
      - rewrite update_nth_map; [exact Hth | reflexivity].
      - apply update_nth_forall; [|exact Hrun]. reflexivity. }
    destruct (nonempty (file_text r));
      (rewrite next_row_disabled; [exact H | exact Hstop]).
  - unfold stopped, on_processing_error, on_row. cbn. repeat split; auto.
    + rewrite update_nth_map; [exact Hth | reflexivity].
    + apply update_nth_forall; [|exact Hrun]. reflexivity.
Qed.

Lemma run_stopped (w0 : main_window) (evs : list event) :
  forallb is_late evs = true ->
  forall w, stopped w0 w -> stopped w0 (run w evs).
Proof.
  induction evs as [|ev evs IH]; intros Hl w Hw; [exact Hw|].
  cbn [forallb] in Hl. apply andb_prop in Hl. destruct Hl as [Hev Hl].
  unfold run. cbn [fold_left]. apply (IH Hl). apply stopped_late; assumption.
Qed.

End WindowFacts.

(** X20. Sequential processing goes through the queue in order, one row
    at a time.  After Start All and its timer, and once the first [k] rows
    of the queue have sent [finished] (progress and status signals may come
    in between), the rows before position [k] are completed, the row at
    position [k] is the only one of the queue that is running, the rows
    after it have not been started, and Start All stays disabled. *)
Theorem sequential_processing
        (w : Window.main_window) (k : nat) (evs : list Window.event) :
  k < List.length (Queue.queue_of w) ->
  Queue.decisive evs
  = Queue.finished_signals (firstn k (Queue.queue_of w)) ->
  Queue.in_progress w k
    (Window.run (Window.start_all w) (Window.TimerFires :: evs)).
Proof.
  intros Hk Hd.
  assert (Hne : Queue.queue_of w <> []).
  { intros E. rewrite E in Hk. cbn in Hk. lia. }
  change (Queue.in_progress w (0 + k)
            (Window.run (Window.handle (Window.start_all w) Window.TimerFires)
                        evs)).
  apply WindowFacts.run_in_progress.
  - apply WindowFacts.started_in_progress, Hne.
  - exact Hk.
  - exact Hd.
Qed.

Lemma sequential_processing_witness :
  Queue.in_progress three_rows 1
    (Window.run (Window.start_all three_rows)
       [ Window.TimerFires;
         Window.FromRow 0 (UpdateStatus "Processing model: ABC123");
         Window.FromRow 0 (UpdateProgress 1 1);
         Window.FromRow 0 Finished;
         Window.FromRow 2 (UpdateProgress 0 4) ]).
Proof.
  apply (sequential_processing three_rows 1).
  - vm_compute. lia.
  - reflexivity.
Defined.

(** X21. When the last row of the queue sends [finished] after all the
    others, sequential processing is over: the status reads "All processing
    completed", Start All is enabled again, Stop All is disabled, and every
    row of the queue is completed, not running, and was started exactly
    once. *)
Theorem sequential_completion
        (w : Window.main_window) (k i : nat) (evs : list Window.event) :
  S k = List.length (Queue.queue_of w) ->
  nth_error (Queue.queue_of w) k = Some i ->
  Queue.decisive evs
  = Queue.finished_signals (firstn k (Queue.queue_of w)) ->
  Queue.all_done w
    (Window.run (Window.start_all w)
                (Window.TimerFires :: evs ++ [Window.FromRow i Finished])).
Proof.
  intros Hlen Hi Hd.
  assert (Hne : Queue.queue_of w <> []).
  { intros E. rewrite E in Hlen. discriminate. }
  change (Queue.all_done w
            (Window.run (Window.handle (Window.start_all w) Window.TimerFires)
                        (evs ++ [Window.FromRow i Finished]))).
  rewrite WindowFacts.run_app.
  apply (WindowFacts.in_progress_last w _ k i); [|exact Hi | exact Hlen].
  change k with (0 + k).
  apply WindowFacts.run_in_progress.
  - apply WindowFacts.started_in_progress, Hne.
  - cbn. lia.
  - exact Hd.
Qed.

Lemma sequential_completion_witness :
  Queue.all_done three_rows
    (Window.run (Window.start_all three_rows)
       ([ Window.TimerFires; Window.FromRow 0 (UpdateProgress 1 1);
          Window.FromRow 0 Finished;
          Window.FromRow 2 (UpdateStatus "Processing model: XYZ") ]
          ++ [Window.FromRow 2 Finished])).
Proof.
  apply (sequential_completion three_rows 1 2
           [ Window.FromRow 0 (UpdateProgress 1 1); Window.FromRow 0 Finished;
             Window.FromRow 2 (UpdateStatus "Processing model: XYZ") ]);
    reflexivity.
Defined.

(** X22. A row that ends with [error] stalls sequential processing:
    [on_processing_error] does not call [process_next_row], so the rows
    after it are never started, no row of the queue is running, and Start
    All stays disabled (until Stop All is pressed), whatever progress and
    status signals still arrive. *)
Theorem error_stalls_queue
        (w : Window.main_window) (k i : nat) (m : str)
        (evs late : list Window.event) :
  nth_error (Queue.queue_of w) k = Some i ->
  Queue.decisive evs
  = Queue.finished_signals (firstn k (Queue.queue_of w)) ->
  forallb Queue.is_notice late = true ->
  Queue.stalled w k
    (Window.run (Window.start_all w)
                (Window.TimerFires
                   :: evs ++ Window.FromRow i (Error m) :: late)).
Proof.
  intros Hi Hd Hlate.
  assert (Hk : k < List.length (Queue.queue_of w)).
  { apply nth_error_Some. rewrite Hi. discriminate. }
  assert (Hne : Queue.queue_of w <> []).
  { intros E. rewrite E in Hk. cbn in Hk. lia. }
  change (Queue.stalled w k
            (Window.run (Window.handle (Window.start_all w) Window.TimerFires)
                        (evs ++ Window.FromRow i (Error m) :: late))).
  rewrite WindowFacts.run_app.
  change (Window.run ?x (Window.FromRow i (Error m) :: late))
    with (Window.run (Window.handle x (Window.FromRow i (Error m))) late).
  apply WindowFacts.run_stalled; [exact Hlate|].
  apply WindowFacts.in_progress_error; [|exact Hi].
  change k with (0 + k).
  apply WindowFacts.run_in_progress.
  - apply WindowFacts.started_in_progress, Hne.
  - exact Hk.
  - exact Hd.
Qed.

Lemma error_stalls_queue_witness :
  Queue.stalled three_rows 0
    (Window.run (Window.start_all three_rows)
       (Window.TimerFires
          :: [Window.FromRow 0 (UpdateProgress 0 3)]
          ++ Window.FromRow 0 (Error "File contains no data rows") :: [])).
Proof.
  apply (error_stalls_queue three_rows 0 0 "File contains no data rows"
           [Window.FromRow 0 (UpdateProgress 0 3)] []);
    reflexivity.
Defined.

(** X23. Stop All is final: after it, whatever signals of workers and
    timers still arrive, no row is started (the thread counts stay as they
    are), no row is running, the queue stays empty, Start All stays enabled
    and Stop All disabled. *)
Theorem stop_all_is_final (w : Window.main_window) (evs : list Window.event) :
  forallb Queue.is_late evs = true ->
  Queue.stopped w (Window.run (Window.stop_all w) evs).
Proof.
  intros Hl. apply WindowFacts.run_stopped; [exact Hl|].
  apply WindowFacts.stop_all_stopped.
Qed.

Lemma stop_all_is_final_witness :
  Queue.stopped
    (Window.run (Window.start_all three_rows) [Window.TimerFires])
    (Window.run
       (Window.stop_all
          (Window.run (Window.start_all three_rows) [Window.TimerFires]))
       [ Window.FromRow 0 Finished; Window.TimerFires;
         Window.FromRow 2 (UpdateStatus "late") ]).
Proof.
  apply (stop_all_is_final
           (Window.run (Window.start_all three_rows) [Window.TimerFires])).
  reflexivity.
Defined.

(* --------------------------------------------------------------------- *)
(** ** Browser sessions of a retry *)
(* --------------------------------------------------------------------- *)

Section WorldFacts.

Import MultiPrefix.

Variable W : Type.
Variable fetch : str -> str -> W -> fetch_result * W.

(** The world after the fetches of a log, made in order. *)
Lemma call_original_world (m p : str) (x : st W) :
  world (snd (call_original fetch m p x)) = snd (fetch m p (world x)).
Proof. unfold call_original. destruct (fetch m p (world x)). reflexivity. Qed.

Lemma try_alternatives_world (m prefix : str) (prefixes : list str) :
  forall x : st W,
  exists tried,
    attempts (snd (try_alternatives fetch m prefix prefixes x))
    = attempts x ++ tried
    /\ List.length tried <= List.length prefixes
    /\ world (snd (try_alternatives fetch m prefix prefixes x))
       = fold_left (fun w a => snd (fetch m (fst a) w)) tried (world x).
Proof.
  induction prefixes as [|alt rest IH]; intros x.
  - exists []. cbn. rewrite List.app_nil_r. auto.
  - cbn [try_alternatives List.length].
    destruct (Py.eqb alt prefix); cbn [negb].
    { destruct (IH x) as [tried [Ha [Hl Hw]]]. exists tried. auto. }
    set (x1 := emit (UpdateStatus (lit "Trying prefix: " ++ alt)) x).
    assert (Ha := call_original_attempts W fetch m alt x1).
    assert (Hw := call_original_world m alt x1).
    destruct (call_original fetch m alt x1) as [r x2].
    cbn [fst snd] in Ha, Hw.
    change (attempts x1) with (attempts x) in Ha.
    change (world x1) with (world x) in Hw.
    destruct (found (title r)).
    + exists [(alt, r)]. cbn [snd]. unfold emit. cbn [attempts world].
      rewrite Ha, Hw. cbn. repeat split. lia.
    + destruct (IH x2) as [tried [Ha' [Hl Hw']]].
      exists ((alt, r) :: tried). rewrite Ha', Hw', Ha, Hw, <- app_assoc.
      cbn. repeat split. lia.
Qed.

Lemma enhanced_world (prefixes : list str) (m prefix : str) (x : st W) :
  let res := enhanced_scrape_katom fetch prefixes m prefix x in
  exists log,
    attempts (snd res) = attempts x ++ log
    /\ 1 <= List.length log <= S (List.length prefixes)
    /\ world (snd res)
       = fold_left (fun w a => snd (fetch m (fst a) w)) log (world x).
Proof.
  cbv zeta. unfold enhanced_scrape_katom.
  assert (Ha := call_original_attempts W fetch m prefix x).
  assert (Hw := call_original_world m prefix x).
  destruct (call_original fetch m prefix x) as [r0 x1].
  cbn [fst snd] in Ha, Hw.
  destruct (not_found (title r0)).
  - set (x2 := emit _ x1).
    destruct (try_alternatives_world m prefix prefixes x2)
      as [tried [Ha' [Hl Hw']]].
    exists ((prefix, r0) :: tried).
    assert (H : attempts (snd (try_alternatives fetch m prefix prefixes x2))
                = attempts x ++ (prefix, r0) :: tried
                /\ 1 <= List.length ((prefix, r0) :: tried)
                   <= S (List.length prefixes)
                /\ world (snd (try_alternatives fetch m prefix prefixes x2))
                   = fold_left (fun w a => snd (fetch m (fst a) w))
                               ((prefix, r0) :: tried) (world x)).
    { rewrite Ha', Hw'. unfold x2, emit. cbn [attempts world].
      rewrite Ha, Hw, <- app_assoc. cbn. repeat split; lia. }
    destruct (try_alternatives fetch m prefix prefixes x2) as [[ra|] x3];
      exact H.
  - exists [(prefix, r0)]. cbn [snd]. rewrite Ha, Hw. cbn. repeat split; lia.
Qed.

End WorldFacts.

Lemma scrape_session (b : Scrape.browser) (m prefix : str)
      (s : Scrape.session) :
  let s' := snd (Scrape.scrape_katom b m prefix s) in
  match Scrape.chrome b with
  | Ok _ =>
      Scrape.held s' = false
      /\ Scrape.acquired s' = S (Scrape.acquired s)
      /\ Scrape.quit_calls s < Scrape.quit_calls s'
  | Raise _ => s' = s
  end.
Proof.
  cbv zeta. unfold Scrape.scrape_katom.
  destruct (Scrape.chrome b); [|reflexivity].
  set (p := Scrape.get b _).
  unfold Scrape.try_body.
  destruct (Scrape.load p); [|cbn; auto].
  destruct (Scrape.driver_title p) as [t|]; [|cbn; auto].
  destruct (contains "404" t || contains "not found" (lower t)); cbn; auto.
Qed.

Lemma sessions_of_log (b : Scrape.browser) (m : str)
      (log : list (str * fetch_result)) :
  forall s,
    Scrape.held s = false ->
    let s' := fold_left (fun w a => snd (Scrape.scrape_katom b m (fst a) w))
                        log s in
    let n := match Scrape.chrome b with
             | Ok _ => List.length log
             | Raise _ => 0
             end in
    Scrape.held s' = false
    /\ Scrape.acquired s' = Scrape.acquired s + n
    /\ Scrape.quit_calls s + n <= Scrape.quit_calls s'.
Proof.
  induction log as [|a log IH]; intros s Hs.
  - cbn. destruct (Scrape.chrome b); repeat split; auto; lia.
  - cbn [fold_left List.length].
    assert (H1 := scrape_session b m (fst a) s). cbv zeta in H1.
    set (s1 := snd (Scrape.scrape_katom b m (fst a) s)) in *.
    destruct (Scrape.chrome b) eqn:Ec.
    + destruct H1 as [Hh [Ha Hq]].
      assert (H2 := IH s1 Hh). cbv zeta in H2.
      destruct H2 as [Hh' [Ha' Hq']]. repeat split; [exact Hh' | lia | lia].
    + rewrite H1.
      assert (H2 := IH s Hs). cbv zeta in H2. exact H2.
Qed.

(** X24. The browser sessions of a retry on top of [scrape_katom]: at
    least one fetch and at most one more than there are configured
    prefixes; when the browser starts, each fetch opens one session and
    quits it before the next one starts, so that none is held when the
    retry returns. *)
Theorem retry_releases_sessions
        (b : Scrape.browser) (prefixes : list str) (m prefix : str)
        (x : MultiPrefix.st Scrape.session) :
  Scrape.held (MultiPrefix.world x) = false ->
  let res := MultiPrefix.enhanced_scrape_katom (Scrape.scrape_katom b)
               prefixes m prefix x in
  exists log,
    MultiPrefix.attempts (snd res) = MultiPrefix.attempts x ++ log
    /\ 1 <= List.length log <= S (List.length prefixes)
    /\ Scrape.held (MultiPrefix.world (snd res)) = false
    /\ Scrape.acquired (MultiPrefix.world (snd res))
       = Scrape.acquired (MultiPrefix.world x)
         + match Scrape.chrome b with
           | Ok _ => List.length log
           | Raise _ => 0
           end
    /\ Scrape.acquired (MultiPrefix.world (snd res))
       - Scrape.acquired (MultiPrefix.world x)
       <= Scrape.quit_calls (MultiPrefix.world (snd res))
          - Scrape.quit_calls (MultiPrefix.world x).
Proof.
  intros Hheld res.
  destruct (enhanced_world Scrape.session (Scrape.scrape_katom b)
              prefixes m prefix x) as [log [Ha [Hl Hw]]].
  fold res in Ha, Hw. exists log.
  destruct (sessions_of_log b m log (MultiPrefix.world x) Hheld)
    as [Hh [Hacq Hq]].
  rewrite <- Hw in Hh, Hacq, Hq.
  repeat split; try assumption; try lia.
Qed.

Lemma retry_releases_sessions_witness :
  let res := MultiPrefix.enhanced_scrape_katom
               (Scrape.scrape_katom delisted_browser)
               [lit "605"; lit "123"; lit "456"] "ABC123HC" "605"
               retry_start in
  exists log,
    MultiPrefix.attempts (snd res) = MultiPrefix.attempts retry_start ++ log
    /\ 1 <= List.length log <= S (List.length [lit "605"; lit "123"; lit "456"])
    /\ Scrape.held (MultiPrefix.world (snd res)) = false
    /\ Scrape.acquired (MultiPrefix.world (snd res))
       = Scrape.acquired (MultiPrefix.world retry_start)
         + match Scrape.chrome delisted_browser with
           | Ok _ => List.length log
           | Raise _ => 0
           end
    /\ Scrape.acquired (MultiPrefix.world (snd res))
       - Scrape.acquired (MultiPrefix.world retry_start)
       <= Scrape.quit_calls (MultiPrefix.world (snd res))
          - Scrape.quit_calls (MultiPrefix.world retry_start).
Proof.
  apply (retry_releases_sessions delisted_browser
           [lit "605"; lit "123"; lit "456"] "ABC123HC" "605" retry_start).
  reflexivity.
Defined.

(* --------------------------------------------------------------------- *)
(** ** The prefix dialog *)
(* --------------------------------------------------------------------- *)

Module DialogFacts.

Import PrefixDialog.

Lemma take_item_middle (a : list str) (x : str) (b : list str) :
  take_item (List.length a) (a ++ x :: b) = Some (x, a ++ b).
Proof.
  unfold take_item. rewrite nth_error_app2 by lia. rewrite Nat.sub_diag.
  cbn [nth_error]. f_equal. f_equal.
  rewrite firstn_app, Nat.sub_diag, firstn_all. cbn [firstn].
  rewrite List.app_nil_r. f_equal.
  change (S (List.length a)) with (1 + List.length a).
  rewrite <- skipn_skipn.
  rewrite skipn_app, Nat.sub_diag, skipn_all. reflexivity.
Qed.

Lemma insert_item_middle (a : list str) (x : str) (b : list str) :
  insert_item (List.length a) x (a ++ b) = a ++ x :: b.
Proof.
  unfold insert_item.
  rewrite firstn_app, Nat.sub_diag, firstn_all. cbn [firstn].
  rewrite List.app_nil_r. f_equal. f_equal.
  rewrite skipn_app, Nat.sub_diag, skipn_all. reflexivity.
Qed.

Lemma move_up_swaps (a : list str) (x y : str) (b : list str) :
  move_up {| prefix_list := a ++ x :: y :: b;
             current_row := Z.of_nat (S (List.length a)) |}
  = Some {| prefix_list := a ++ y :: x :: b;
            current_row := Z.of_nat (List.length a) |}.
Proof.
  unfold move_up. cbn [current_row prefix_list].
  destruct (0 <? Z.of_nat (S (List.length a)))%Z eqn:E;
    [|apply Z.ltb_ge in E; lia].
  rewrite Nat2Z.id.
  replace (a ++ x :: y :: b) with ((a ++ [x]) ++ y :: b)
    by (rewrite <- app_assoc; reflexivity).
  replace (S (List.length a)) with (List.length (a ++ [x]))
    by (rewrite length_app; cbn; lia).
  rewrite take_item_middle.
  replace (Z.of_nat (List.length (a ++ [x])) - 1)%Z
    with (Z.of_nat (List.length a)) by (rewrite length_app; cbn; lia).
  rewrite Nat2Z.id, <- app_assoc. cbn [app].
  rewrite insert_item_middle. reflexivity.
Qed.

Lemma move_down_swaps (a : list str) (x y : str) (b : list str) :
  move_down {| prefix_list := a ++ x :: y :: b;
               current_row := Z.of_nat (List.length a) |}
  = Some {| prefix_list := a ++ y :: x :: b;
            current_row := Z.of_nat (S (List.length a)) |}.
Proof.
  unfold move_down. cbn [current_row prefix_list].
  destruct (Z.of_nat (List.length a)
            <? Z.of_nat (List.length (a ++ x :: y :: b)) - 1)%Z eqn:E.
  2:{ apply Z.ltb_ge in E. rewrite length_app in E. cbn in E. lia. }
  destruct (Z.of_nat (List.length a) <? 0)%Z eqn:E0;
    [apply Z.ltb_lt in E0; lia|].
  rewrite Nat2Z.id, take_item_middle.
  replace (Z.of_nat (List.length a) + 1)%Z
    with (Z.of_nat (List.length (a ++ [y]))) by (rewrite length_app; cbn; lia).
  rewrite Nat2Z.id.
  replace (a ++ y :: b) with ((a ++ [y]) ++ b)
    by (rewrite <- app_assoc; reflexivity).
  rewrite insert_item_middle, <- app_assoc.
  rewrite length_app. cbn. do 2 f_equal. lia.
Qed.

End DialogFacts.

(** X25. Moving a prefix in the settings dialog swaps it with its
    neighbour and the selection follows it: one step up and one step down
    undo each other, so no prefix is lost or repeated by reordering.  At
    the first row a step up, and at the last row a step down, change
    nothing. *)
Theorem prefix_moves_swap_neighbours
        (a : list str) (x y : str) (b : list str) :
  let upper := {| PrefixDialog.prefix_list := a ++ x :: y :: b;
                  PrefixDialog.current_row := Z.of_nat (List.length a) |} in
  let lower := {| PrefixDialog.prefix_list := a ++ y :: x :: b;
                  PrefixDialog.current_row :=
                    Z.of_nat (S (List.length a)) |} in
  PrefixDialog.move_down upper = Some lower
  /\ PrefixDialog.move_up lower = Some upper
  /\ (forall l, PrefixDialog.move_up
                  {| PrefixDialog.prefix_list := l;
                     PrefixDialog.current_row := 0 |}
                = Some {| PrefixDialog.prefix_list := l;
                          PrefixDialog.current_row := 0 |})
  /\ PrefixDialog.move_down
       {| PrefixDialog.prefix_list := a ++ [x];
          PrefixDialog.current_row := Z.of_nat (List.length a) |}
     = Some {| PrefixDialog.prefix_list := a ++ [x];
               PrefixDialog.current_row := Z.of_nat (List.length a) |}.
Proof.
  cbv zeta. split; [apply DialogFacts.move_down_swaps|].
  split; [apply DialogFacts.move_up_swaps|].
  split; [reflexivity|].
  unfold PrefixDialog.move_down.
  cbn [PrefixDialog.current_row PrefixDialog.prefix_list].
  destruct (Z.of_nat (List.length a)
            <? Z.of_nat (List.length (a ++ [x])) - 1)%Z eqn:E;
    [|reflexivity].
  apply Z.ltb_lt in E. rewrite length_app in E. cbn in E. lia.
Qed.
